(** * APR readiness polling: [apr_poll] and the [apr_pollset_*] family

    A shallow embedding of the polling engine of the Apache Portable
    Runtime (poll/unix/poll.c).  The C file is two programs in one: with
    [HAVE_POLL] it is built on the native event-list call [poll], without it
    on the bitmap call [select].  The two builds are the modules
    [EventList] and [Bitmap] below; what they share is in [Common]. *)

From Stdlib Require Import ZArith Lia Bool.
From stdpp Require Import base tactics option list.

Local Open Scope Z_scope.

(** ** Machine integers *)

Module Int.

(** A value stored in an unsigned [w]-bit object. *)
Definition wrap_unsigned (w z : Z) : Z := z mod 2 ^ w.

(** A value stored in a signed (two's complement) [w]-bit object. *)
Definition wrap_signed (w z : Z) : Z := (z + 2 ^ (w - 1)) mod 2 ^ w - 2 ^ (w - 1).

Definition u32 (z : Z) : Z := wrap_unsigned 32 z.   (* apr_uint32_t *)
Definition int16 (z : Z) : Z := wrap_signed 16 z.   (* apr_int16_t *)
Definition int (z : Z) : Z := wrap_signed 32 z.     (* int *)

End Int.

(** ** Build configuration and the constants of the headers

    The preprocessor symbols [WIN32] and [NETWARE], the width of [long], and
    the constants that poll.c takes from apr_poll.h, apr_errno.h and
    <poll.h>.  None of the headers is part of the sources at hand, so the
    constants are parameters of the development. *)

Class target := {
  WIN32 : bool;
  NETWARE : bool;
  LONG_BIT : Z;
  (* apr_poll.h *)
  APR_POLLIN : Z;
  APR_POLLPRI : Z;
  APR_POLLOUT : Z;
  APR_POLLERR : Z;
  APR_POLLHUP : Z;
  APR_POLLNVAL : Z;
  (* <poll.h> *)
  POLLIN : Z;
  POLLPRI : Z;
  POLLOUT : Z;
  POLLERR : Z;
  POLLHUP : Z;
  POLLNVAL : Z;
  (* apr_errno.h *)
  APR_SUCCESS : Z;
  APR_TIMEUP : Z;
  APR_ENOMEM : Z;
  APR_NOTFOUND : Z;
  APR_EBADF : Z
}.

(** The six portable events, as the specification names them. *)
Inductive event : Type :=
  Readable | Writable | Priority | Error | HangUp | Invalid.

Module Common.

(** Modelled from the spec: the enumeration [apr_datatype_e] of apr_poll.h is
    not in the sources; the specification gives the descriptor kind as the
    closed variant Socket, File. *)
Inductive apr_datatype_e : Type := APR_POLL_SOCKET | APR_POLL_FILE.

(** [apr_descriptor] is a union of two pointers, [s] to an [apr_socket_t] and
    [f] to an [apr_file_t].  [obj] is the pointer itself (what
    [descriptor->desc.s == query_set[i].desc.s] compares), [des] the handle
    read through it ([socketdes] or [filedes]) and [is_pipe] the flag of an
    [apr_file_t]. *)
Record apr_descriptor : Type := mk_desc {
  obj : Z;
  des : Z;
  is_pipe : bool
}.

Record apr_pollfd_t : Type := mk_pollfd_t {
  p : Z;                       (* the pool, opaque *)
  desc_type : apr_datatype_e;
  reqevents : Z;
  rtnevents : Z;
  desc : apr_descriptor;
  client_data : Z              (* opaque *)
}.

Definition set_rtnevents (a : apr_pollfd_t) (ev : Z) : apr_pollfd_t :=
  {| p := p a; desc_type := desc_type a; reqevents := reqevents a;
     rtnevents := ev; desc := desc a; client_data := client_data a |}.

(** The handle of a record: [desc.s->socketdes] for a socket,
    [desc.f->filedes] for a file. *)
Definition handle (a : apr_pollfd_t) : Z :=
  match desc_type a with
  | APR_POLL_SOCKET => des (desc a)
  | APR_POLL_FILE => des (desc a)
  end.

(** [descriptor->desc.s == pollset->query_set[i].desc.s] *)
Definition same_desc (d a : apr_pollfd_t) : bool :=
  obj (desc d) =? obj (desc a).

(** What apr_palloc returns is not initialised; the model fills fresh arrays
    with this record. *)
Definition fresh_pollfd_t : apr_pollfd_t :=
  {| p := 0; desc_type := APR_POLL_SOCKET; reqevents := 0; rtnevents := 0;
     desc := mk_desc 0 0 false; client_data := 0 |}.

#[global] Instance apr_pollfd_t_inhabited : Inhabited apr_pollfd_t :=
  populate fresh_pollfd_t.

(** *** The native calls

    [struct pollfd], [fd_set] and [struct timeval] and what the two system
    calls answer.  An [fd_set] is a bit-vector indexed by the handle. *)

Record pollfd : Type := mk_pollfd { fd : Z; events : Z; revents : Z }.

Definition set_revents (q : pollfd) (r : Z) : pollfd :=
  {| fd := fd q; events := events q; revents := r |}.

#[global] Instance pollfd_inhabited : Inhabited pollfd :=
  populate (mk_pollfd 0 0 0).

Definition fd_set : Type := Z.
Definition FD_ZERO : fd_set := 0.
Definition FD_SET (h : Z) (s : fd_set) : fd_set := Z.setbit s h.
Definition FD_CLR (h : Z) (s : fd_set) : fd_set := Z.clearbit s h.
Definition FD_ISSET (h : Z) (s : fd_set) : bool := Z.testbit s h.

Record timeval : Type := mk_timeval { tv_sec : Z; tv_usec : Z }.

(** After [poll]: its return value, [errno], and the [revents] member of the
    [i]-th array element. *)
Record poll_answer : Type := mk_poll_answer {
  poll_rv : Z;
  poll_errno : Z;
  poll_revents : nat -> Z
}.

(** After [select]: its return value, [errno] and the three sets as the call
    left them. *)
Record select_answer : Type := mk_select_answer {
  select_rv : Z;
  select_errno : Z;
  select_read : fd_set;
  select_write : fd_set;
  select_except : fd_set
}.

(** A computation that may issue native waits.  [CallPoll] carries the
    arguments of [poll(fds, nfds, timeout)], the array as the pairs
    [(fd, events)] the call reads; [CallSelect] the arguments of
    [select(nfds, r, w, e, tvptr)], with [pipe] set where NetWare's
    [pipe_select] is called instead, and [None] for a NULL [tvptr].  The
    arguments are the values the calls receive: the third parameter of
    [poll] is an [int], so the 64-bit [apr_interval_time_t] that poll.c
    hands it arrives converted to [int]. *)
Inductive native (A : Type) : Type :=
| Return (a : A)
| CallPoll (fds : list (Z * Z)) (nfds : Z) (timeout : Z)
           (k : poll_answer -> native A)
| CallSelect (pipe : bool) (nfds : Z) (r w e : fd_set)
             (tvptr : option timeval) (k : select_answer -> native A).

Arguments Return {A} a.
Arguments CallPoll {A} fds nfds timeout k.
Arguments CallSelect {A} pipe nfds r w e tvptr k.

(** The operating system, as far as poll.c sees it. *)
Record os : Type := mk_os {
  os_poll : list (Z * Z) -> Z -> Z -> poll_answer;
  os_select : bool -> Z -> fd_set -> fd_set -> fd_set -> option timeval ->
              select_answer
}.

Fixpoint run {A : Type} (sys : os) (m : native A) : A :=
  match m with
  | Return a => a
  | CallPoll fds nfds t k => run sys (k (os_poll sys fds nfds t))
  | CallSelect pipe nfds r w e tv k =>
      run sys (k (os_select sys pipe nfds r w e tv))
  end.

(** The native waits a computation issues along [sys], in order. *)
Inductive wait_call : Type :=
| PollCall (fds : list (Z * Z)) (nfds : Z) (timeout : Z)
| SelectCall (pipe : bool) (nfds : Z) (r w e : fd_set) (tvptr : option timeval).

Fixpoint calls {A : Type} (sys : os) (m : native A) : list wait_call :=
  match m with
  | Return _ => []
  | CallPoll fds nfds t k =>
      PollCall fds nfds t :: calls sys (k (os_poll sys fds nfds t))
  | CallSelect pipe nfds r w e tv k =>
      SelectCall pipe nfds r w e tv :: calls sys (k (os_select sys pipe nfds r w e tv))
  end.

(** Modelled from the spec: the macros [apr_time_sec] and [apr_time_usec] of
    apr_time.h are not in the sources; the specification has the bitmap
    back end split the microsecond timeout into seconds and microseconds.
    C division truncates. *)
Definition APR_USEC_PER_SEC : Z := 1000000.
Definition apr_time_sec (t : Z) : Z := Z.quot t APR_USEC_PER_SEC.
Definition apr_time_usec (t : Z) : Z := Z.rem t APR_USEC_PER_SEC.

Section WithTarget.
Context `{!target}.

Definition long (z : Z) : Z := Int.wrap_signed LONG_BIT z.   (* the cast (long) *)

Definition apr_bit (e : event) : Z :=
  match e with
  | Readable => APR_POLLIN
  | Writable => APR_POLLOUT
  | Priority => APR_POLLPRI
  | Error => APR_POLLERR
  | HangUp => APR_POLLHUP
  | Invalid => APR_POLLNVAL
  end.

Definition native_bit (e : event) : Z :=
  match e with
  | Readable => POLLIN
  | Writable => POLLOUT
  | Priority => POLLPRI
  | Error => POLLERR
  | HangUp => POLLHUP
  | Invalid => POLLNVAL
  end.

(** [if (event & flag) rv |= bit;] on an [apr_int16_t rv]. *)
Definition or_if (event flag bit rv : Z) : Z :=
  if Z.land event flag =? 0 then rv else Int.int16 (Z.lor rv bit).

Definition get_event (event : Z) : Z :=
  let rv := 0 in
  let rv := or_if event APR_POLLIN POLLIN rv in
  let rv := or_if event APR_POLLPRI POLLPRI rv in
  let rv := or_if event APR_POLLOUT POLLOUT rv in
  let rv := or_if event APR_POLLERR POLLERR rv in
  let rv := or_if event APR_POLLHUP POLLHUP rv in
  let rv := or_if event APR_POLLNVAL POLLNVAL rv in
  rv.

Definition get_revent (event : Z) : Z :=
  let rv := 0 in
  let rv := or_if event POLLIN APR_POLLIN rv in
  let rv := or_if event POLLPRI APR_POLLPRI rv in
  let rv := or_if event POLLOUT APR_POLLOUT rv in
  let rv := or_if event POLLERR APR_POLLERR rv in
  let rv := or_if event POLLHUP APR_POLLHUP rv in
  let rv := or_if event POLLNVAL APR_POLLNVAL rv in
  rv.

(** [timeout /= 1000] under [if (timeout > 0)]. *)
Definition poll_timeout (timeout : Z) : Z :=
  if 0 <? timeout then Z.quot timeout 1000 else timeout.

(** The [tvptr] handed to [select]. *)
Definition select_timeout (timeout : Z) : option timeval :=
  if timeout <? 0 then None
  else Some {| tv_sec := long (apr_time_sec timeout);
               tv_usec := long (apr_time_usec timeout) |}.

(** [rtnevents = 0; if (FD_ISSET(fd, &readset)) rtnevents |= APR_POLLIN; ...] *)
Definition or_set (h : Z) (s : fd_set) (bit rv : Z) : Z :=
  if FD_ISSET h s then Int.int16 (Z.lor rv bit) else rv.

Definition select_rtnevents (h : Z) (r w e : fd_set) : Z :=
  let rv := 0 in
  let rv := or_set h r APR_POLLIN rv in
  let rv := or_set h w APR_POLLOUT rv in
  let rv := or_set h e APR_POLLERR rv in
  rv.

(** [if (reqevents & flag) FD_SET(fd, &set);] *)
Definition set_if (reqev flag h : Z) (s : fd_set) : fd_set :=
  if Z.land reqev flag =? 0 then s else FD_SET h s.

Definition except_mask : Z :=
  Z.lor (Z.lor (Z.lor APR_POLLPRI APR_POLLERR) APR_POLLHUP) APR_POLLNVAL.

End WithTarget.

End Common.

(** ** The build with [HAVE_POLL]: the event-list back end *)

Module EventList.
Import Common.

Record apr_pollset_t : Type := mk_pollset {
  nelts : Z;                        (* apr_uint32_t *)
  nalloc : Z;                       (* apr_uint32_t *)
  pollset : list pollfd;
  query_set : list apr_pollfd_t;
  result_set : list apr_pollfd_t;
  pool : Z
}.

Definition set_nelts (ps : apr_pollset_t) (n : Z) : apr_pollset_t :=
  {| nelts := n; nalloc := nalloc ps; pollset := pollset ps;
     query_set := query_set ps; result_set := result_set ps; pool := pool ps |}.

Definition set_pollset (ps : apr_pollset_t) (l : list pollfd) : apr_pollset_t :=
  {| nelts := nelts ps; nalloc := nalloc ps; pollset := l;
     query_set := query_set ps; result_set := result_set ps; pool := pool ps |}.

Definition set_query_set (ps : apr_pollset_t) (l : list apr_pollfd_t) : apr_pollset_t :=
  {| nelts := nelts ps; nalloc := nalloc ps; pollset := pollset ps;
     query_set := l; result_set := result_set ps; pool := pool ps |}.

Definition set_result_set (ps : apr_pollset_t) (l : list apr_pollfd_t) : apr_pollset_t :=
  {| nelts := nelts ps; nalloc := nalloc ps; pollset := pollset ps;
     query_set := query_set ps; result_set := l; pool := pool ps |}.

Section WithTarget.
Context `{!target}.

(** [apr_poll]: the caller's array is the list [aprset], [num] its length.
    The result is the status, [*nsds] and the array as the call leaves it.
    The local [pollset] (the array on the stack, or a block of the pool for
    more than [SMALL_POLLSET_LIMIT] records) gets [fd] and [events] from the
    first loop and [revents] from [poll]. *)
Definition apr_poll (aprset : list apr_pollfd_t) (timeout : Z)
  : native (Z * Z * list apr_pollfd_t) :=
  let num := Z.of_nat (length aprset) in
  let pollset := map (fun a => (handle a, get_event (reqevents a))) aprset in
  let timeout := poll_timeout timeout in
  CallPoll pollset num (Int.int timeout) (fun ans =>
    let nsds := poll_rv ans in
    let aprset := imap (fun i a => set_rtnevents a (get_revent (poll_revents ans i))) aprset in
    if nsds <? 0 then Return (poll_errno ans, nsds, aprset)
    else if nsds =? 0 then Return (APR_TIMEUP, nsds, aprset)
    else Return (APR_SUCCESS, nsds, aprset)).

Definition apr_pollset_create (size : Z) (p : Z) : Z * apr_pollset_t :=
  (APR_SUCCESS,
   {| nelts := 0; nalloc := size;
      pollset := replicate (Z.to_nat size) inhabitant;
      query_set := replicate (Z.to_nat size) fresh_pollfd_t;
      result_set := replicate (Z.to_nat size) fresh_pollfd_t;
      pool := p |}).

Definition apr_pollset_destroy (ps : apr_pollset_t) : Z * apr_pollset_t :=
  (APR_SUCCESS, ps).

Definition apr_pollset_add (ps : apr_pollset_t) (descriptor : apr_pollfd_t)
  : Z * apr_pollset_t :=
  if nelts ps =? nalloc ps then (APR_ENOMEM, ps)
  else
    let n := Z.to_nat (nelts ps) in
    let ps := set_query_set ps (<[n := descriptor]> (query_set ps)) in
    let h := handle descriptor in
    let slot := pollset ps !!! n in
    let slot := {| fd := h; events := events slot; revents := revents slot |} in
    let slot := {| fd := fd slot; events := get_event (reqevents descriptor);
                   revents := revents slot |} in
    let ps := set_pollset ps (<[n := slot]> (pollset ps)) in
    let ps := set_nelts ps (Int.u32 (nelts ps + 1)) in
    (APR_SUCCESS, ps).

(** The inner loop of [apr_pollset_remove],
    [for (i++; i < old_nelts; i++)]: [k] iterations are left, [i] is the
    index read and [dst] the index written. *)
Fixpoint remove_rest (k i dst : nat) (descriptor : apr_pollfd_t)
    (ps : apr_pollset_t) : apr_pollset_t :=
  match k with
  | O => ps
  | S k' =>
      let ps :=
        if same_desc descriptor (query_set ps !!! i)
        then set_nelts ps (Int.u32 (nelts ps - 1))
        else
          let ps := set_pollset ps (<[dst := pollset ps !!! i]> (pollset ps)) in
          set_query_set ps (<[dst := query_set ps !!! i]> (query_set ps)) in
      remove_rest k' (S i) dst descriptor ps
  end.

(** The outer loop, [for (i = 0; i < pollset->nelts; i++)]. *)
Fixpoint remove_from (k i : nat) (descriptor : apr_pollfd_t)
    (ps : apr_pollset_t) : Z * apr_pollset_t :=
  match k with
  | O => (APR_NOTFOUND, ps)
  | S k' =>
      if same_desc descriptor (query_set ps !!! i)
      then
        let dst := i in
        let old_nelts := nelts ps in
        let ps := set_nelts ps (Int.u32 (nelts ps - 1)) in
        (APR_SUCCESS,
         remove_rest (Z.to_nat old_nelts - S i) (S i) dst descriptor ps)
      else remove_from k' (S i) descriptor ps
  end.

Definition apr_pollset_remove (ps : apr_pollset_t) (descriptor : apr_pollfd_t)
  : Z * apr_pollset_t :=
  remove_from (Z.to_nat (nelts ps)) 0 descriptor ps.

(** The loop of [apr_pollset_poll] that fills [result_set]; it yields the
    final [j]. *)
Fixpoint collect (k i j : nat) (ps : apr_pollset_t) : nat * apr_pollset_t :=
  match k with
  | O => (j, ps)
  | S k' =>
      if revents (pollset ps !!! i) =? 0
      then collect k' (S i) j ps
      else
        let ps := set_result_set ps (<[j := query_set ps !!! i]> (result_set ps)) in
        let ps := set_result_set ps
                    (<[j := set_rtnevents (result_set ps !!! j)
                              (get_revent (revents (pollset ps !!! i)))]>
                       (result_set ps)) in
        collect k' (S i) (S j) ps
  end.

(** [poll] writes the [revents] member of the first [nfds] elements. *)
Definition after_poll (ans : poll_answer) (nfds : Z) (l : list pollfd) : list pollfd :=
  imap (fun i q => if Z.of_nat i <? nfds then set_revents q (poll_revents ans i) else q) l.

(** [apr_pollset_poll]: the status, [*num], [*descriptors] ([None] where
    the call does not assign it) and the pollset as the call leaves it. *)
Definition apr_pollset_poll (ps : apr_pollset_t) (timeout : Z)
  : native (Z * Z * option (list apr_pollfd_t) * apr_pollset_t) :=
  let timeout := poll_timeout timeout in
  CallPoll (map (fun q => (fd q, events q)) (pollset ps)) (nelts ps)
    (Int.int timeout)
    (fun ans =>
       let ps := set_pollset ps (after_poll ans (nelts ps) (pollset ps)) in
       let rv := poll_rv ans in
       let num := rv in
       if rv <? 0 then Return (poll_errno ans, num, None, ps)
       else if rv =? 0 then Return (APR_TIMEUP, num, None, ps)
       else
         let ps := snd (collect (Z.to_nat (nelts ps)) 0 0 ps) in
         Return (APR_SUCCESS, num, Some (result_set ps), ps)).

End WithTarget.

End EventList.

(** ** The build without [HAVE_POLL]: the bitmap back end *)

Module Bitmap.
Import Common.

Record apr_pollset_t : Type := mk_pollset {
  nelts : Z;                        (* apr_uint32_t *)
  nalloc : Z;                       (* apr_uint32_t *)
  readset : fd_set;
  writeset : fd_set;
  exceptset : fd_set;
  maxfd : Z;                        (* int *)
  query_set : list apr_pollfd_t;
  result_set : list apr_pollfd_t;
  pool : Z
}.

Definition set_nelts (ps : apr_pollset_t) (n : Z) : apr_pollset_t :=
  {| nelts := n; nalloc := nalloc ps; readset := readset ps;
     writeset := writeset ps; exceptset := exceptset ps; maxfd := maxfd ps;
     query_set := query_set ps; result_set := result_set ps; pool := pool ps |}.

Definition set_sets (ps : apr_pollset_t) (r w e : fd_set) (m : Z) : apr_pollset_t :=
  {| nelts := nelts ps; nalloc := nalloc ps; readset := r;
     writeset := w; exceptset := e; maxfd := m;
     query_set := query_set ps; result_set := result_set ps; pool := pool ps |}.

Definition set_query_set (ps : apr_pollset_t) (l : list apr_pollfd_t) : apr_pollset_t :=
  {| nelts := nelts ps; nalloc := nalloc ps; readset := readset ps;
     writeset := writeset ps; exceptset := exceptset ps; maxfd := maxfd ps;
     query_set := l; result_set := result_set ps; pool := pool ps |}.

Definition set_result_set (ps : apr_pollset_t) (l : list apr_pollfd_t) : apr_pollset_t :=
  {| nelts := nelts ps; nalloc := nalloc ps; readset := readset ps;
     writeset := writeset ps; exceptset := exceptset ps; maxfd := maxfd ps;
     query_set := query_set ps; result_set := l; pool := pool ps |}.

(** The locals of the first loop of [apr_poll]. *)
Record request : Type := mk_request {
  rq_read : fd_set;
  rq_write : fd_set;
  rq_except : fd_set;
  rq_maxfd : Z;
  rq_is_pipe : bool
}.

Section WithTarget.
Context `{!target}.

(** The handle of a record, or the status the function returns in its
    place: [APR_EBADF] for a file under [WIN32]. *)
Definition handle_of (a : apr_pollfd_t) : Z + Z :=
  match desc_type a with
  | APR_POLL_SOCKET => inr (des (desc a))
  | APR_POLL_FILE => if WIN32 then inl APR_EBADF else inr (des (desc a))
  end.

(** The first loop of [apr_poll], [for (i = 0; i < num; i++)]. *)
Fixpoint fill (aprset : list apr_pollfd_t) (rq : request) : Z + request :=
  match aprset with
  | [] => inr rq
  | a :: rest =>
      match handle_of a with
      | inl status => inl status
      | inr h =>
          let pipe :=
            match desc_type a with
            | APR_POLL_SOCKET => rq_is_pipe rq
            | APR_POLL_FILE => if NETWARE then is_pipe (desc a) else rq_is_pipe rq
            end in
          let r := set_if (reqevents a) APR_POLLIN h (rq_read rq) in
          let w := set_if (reqevents a) APR_POLLOUT h (rq_write rq) in
          let e := set_if (reqevents a) except_mask h (rq_except rq) in
          let m := if rq_maxfd rq <? Int.int h then Int.int h else rq_maxfd rq in
          fill rest (mk_request r w e m pipe)
      end
  end.

(** The second loop of [apr_poll]: the status of an early return, if any,
    and the array as the loop leaves it. *)
Fixpoint read_back (aprset : list apr_pollfd_t) (r w e : fd_set)
  : option Z * list apr_pollfd_t :=
  match aprset with
  | [] => (None, [])
  | a :: rest =>
      match handle_of a with
      | inl status => (Some status, a :: rest)
      | inr h =>
          let a := set_rtnevents a 0 in
          let a := set_rtnevents a (select_rtnevents h r w e) in
          let '(st, rest) := read_back rest r w e in
          (st, a :: rest)
      end
  end.

(** [apr_poll]: the status, [*nsds] ([None] where the call does not assign
    it) and the array as the call leaves it. *)
Definition apr_poll (aprset : list apr_pollfd_t) (timeout : Z)
  : native (Z * option Z * list apr_pollfd_t) :=
  let tvptr := select_timeout timeout in
  match fill aprset (mk_request FD_ZERO FD_ZERO FD_ZERO (-1) false) with
  | inl status => Return (status, None, aprset)
  | inr rq =>
      CallSelect (NETWARE && rq_is_pipe rq) (rq_maxfd rq + 1)
        (rq_read rq) (rq_write rq) (rq_except rq) tvptr
        (fun ans =>
           let nsds := select_rv ans in
           if nsds =? 0 then Return (APR_TIMEUP, Some nsds, aprset)
           else if nsds <? 0 then Return (select_errno ans, Some nsds, aprset)
           else
             match read_back aprset (select_read ans) (select_write ans)
                     (select_except ans) with
             | (Some status, aprset) => Return (status, Some nsds, aprset)
             | (None, aprset) => Return (APR_SUCCESS, Some nsds, aprset)
             end)
  end.

Definition apr_pollset_create (size : Z) (p : Z) : Z * apr_pollset_t :=
  (APR_SUCCESS,
   {| nelts := 0; nalloc := size;
      readset := FD_ZERO; writeset := FD_ZERO; exceptset := FD_ZERO;
      maxfd := 0;
      query_set := replicate (Z.to_nat size) fresh_pollfd_t;
      result_set := replicate (Z.to_nat size) fresh_pollfd_t;
      pool := p |}).

Definition apr_pollset_destroy (ps : apr_pollset_t) : Z * apr_pollset_t :=
  (APR_SUCCESS, ps).

Definition apr_pollset_add (ps : apr_pollset_t) (descriptor : apr_pollfd_t)
  : Z * apr_pollset_t :=
  if nelts ps =? nalloc ps then (APR_ENOMEM, ps)
  else
    let n := Z.to_nat (nelts ps) in
    let ps := set_query_set ps (<[n := descriptor]> (query_set ps)) in
    match handle_of descriptor with
    | inl status => (status, ps)
    | inr h =>
        let r := set_if (reqevents descriptor) APR_POLLIN h (readset ps) in
        let w := set_if (reqevents descriptor) APR_POLLOUT h (writeset ps) in
        let e := set_if (reqevents descriptor) except_mask h (exceptset ps) in
        let m := if maxfd ps <? Int.int h then Int.int h else maxfd ps in
        let ps := set_sets ps r w e m in
        let ps := set_nelts ps (Int.u32 (nelts ps + 1)) in
        (APR_SUCCESS, ps)
    end.

(** The inner loop of [apr_pollset_remove],
    [for (i++; i < old_nelts; i++)]. *)
Fixpoint remove_rest (k i dst : nat) (descriptor : apr_pollfd_t)
    (ps : apr_pollset_t) : apr_pollset_t :=
  match k with
  | O => ps
  | S k' =>
      let ps :=
        if same_desc descriptor (query_set ps !!! i)
        then set_nelts ps (Int.u32 (nelts ps - 1))
        else set_query_set ps (<[dst := query_set ps !!! i]> (query_set ps)) in
      remove_rest k' (S i) dst descriptor ps
  end.

(** The outer loop; [h] is the [fd] read from the descriptor before it. *)
Fixpoint remove_from (k i : nat) (h : Z) (descriptor : apr_pollfd_t)
    (ps : apr_pollset_t) : Z * apr_pollset_t :=
  match k with
  | O => (APR_NOTFOUND, ps)
  | S k' =>
      if same_desc descriptor (query_set ps !!! i)
      then
        let dst := i in
        let old_nelts := nelts ps in
        let ps := set_nelts ps (Int.u32 (nelts ps - 1)) in
        let ps := remove_rest (Z.to_nat old_nelts - S i) (S i) dst descriptor ps in
        let r := FD_CLR h (readset ps) in
        let w := FD_CLR h (writeset ps) in
        let e := FD_CLR h (exceptset ps) in
        let m := if (Int.int h =? maxfd ps) && (0 <? maxfd ps)
                 then Int.int (maxfd ps - 1) else maxfd ps in
        (APR_SUCCESS, set_sets ps r w e m)
      else remove_from k' (S i) h descriptor ps
  end.

Definition apr_pollset_remove (ps : apr_pollset_t) (descriptor : apr_pollfd_t)
  : Z * apr_pollset_t :=
  let h := handle descriptor in
  remove_from (Z.to_nat (nelts ps)) 0 h descriptor ps.

(** The loop of [apr_pollset_poll] over the three sets [select] left: the
    status of an early return, if any, the final [j] and the pollset. *)
Fixpoint collect (k i j : nat) (r w e : fd_set) (ps : apr_pollset_t)
  : option Z * nat * apr_pollset_t :=
  match k with
  | O => (None, j, ps)
  | S k' =>
      match handle_of (query_set ps !!! i) with
      | inl status => (Some status, j, ps)
      | inr h =>
          if FD_ISSET h r || FD_ISSET h w || FD_ISSET h e
          then
            let ps := set_result_set ps (<[j := query_set ps !!! i]> (result_set ps)) in
            let ps := set_result_set ps
                        (<[j := set_rtnevents (result_set ps !!! j) 0]> (result_set ps)) in
            let ps := set_result_set ps
                        (<[j := set_rtnevents (result_set ps !!! j)
                                  (select_rtnevents h r w e)]> (result_set ps)) in
            collect k' (S i) (S j) r w e ps
          else collect k' (S i) j r w e ps
      end
  end.

(** [apr_pollset_poll]: the status, [*num], [*descriptors] ([None]: this
    build never assigns it) and the pollset as the call leaves it. *)
Definition apr_pollset_poll (ps : apr_pollset_t) (timeout : Z)
  : native (Z * Z * option (list apr_pollfd_t) * apr_pollset_t) :=
  let tvptr := select_timeout timeout in
  CallSelect false (maxfd ps + 1) (readset ps) (writeset ps) (exceptset ps) tvptr
    (fun ans =>
       let rv := select_rv ans in
       let num := rv in
       if rv <? 0 then Return (select_errno ans, num, None, ps)
       else if rv =? 0 then Return (APR_TIMEUP, num, None, ps)
       else
         match collect (Z.to_nat (nelts ps)) 0 0 (select_read ans)
                 (select_write ans) (select_except ans) ps with
         | (Some status, _, ps) => Return (status, num, None, ps)
         | (None, _, ps) => Return (APR_SUCCESS, num, None, ps)
         end).

End WithTarget.

End Bitmap.


(** ** threadproc/netware/thread.c: thread attributes and thread records

    The functions of thread.c that do not start a thread.
    [apr_thread_create] is left out: its source names an undeclared [ttr]
    and has no meaning to embed; [dummy_worker], [apr_thread_yield] and
    [apr_os_thread_current] only call into NetWare, and
    [apr_thread_data_get] and [apr_thread_data_set] into the pool's user
    data. *)

Module Thread.

(** The constants thread.c takes from apr_errno.h, apr_thread_proc.h and
    apr_arch_threadproc.h; the headers are not in the sources. *)
Class consts := {
  APR_SUCCESS : Z;
  APR_ENOMEM : Z;
  APR_ENOTIMPL : Z;
  APR_EINVAL : Z;
  APR_ENOTHREAD : Z;
  APR_ENOPOOL : Z;
  APR_DETACH : Z;
  APR_NOTDETACH : Z;
  APR_DEFAULT_STACK_SIZE : Z
}.

(** [apr_threadattr_t] and [apr_thread_t], with the members thread.c uses.
    Pointers are addresses, [None] the null pointer. *)
Record apr_threadattr_t : Type := mk_attr {
  attr_pool : Z;
  stack_size : Z;
  detach : Z;                     (* apr_int32_t *)
  attr_thread_name : option Z
}.

Record apr_thread_t : Type := mk_thread {
  pool : Z;
  td : Z;                         (* NXThreadId_t *)
  data : Z;
  func : Z;
  exitval : Z;
  detached : Z;
  thread_name : Z;
  ctx : Z
}.

Definition set_detached (thd : apr_thread_t) (v : Z) : apr_thread_t :=
  {| pool := pool thd; td := td thd; data := data thd; func := func thd;
     exitval := exitval thd; detached := v; thread_name := thread_name thd;
     ctx := ctx thd |}.

Definition set_exitval (thd : apr_thread_t) (v : Z) : apr_thread_t :=
  {| pool := pool thd; td := td thd; data := data thd; func := func thd;
     exitval := v; detached := detached thd; thread_name := thread_name thd;
     ctx := ctx thd |}.

Definition set_td (thd : apr_thread_t) (v : Z) : apr_thread_t :=
  {| pool := pool thd; td := v; data := data thd; func := func thd;
     exitval := exitval thd; detached := detached thd;
     thread_name := thread_name thd; ctx := ctx thd |}.

(** The calls into the pool and into NetWare that the functions below make,
    in the order they make them. *)
Inductive effect : Type :=
| NXThreadJoin (td : Z)
| NXThreadExit
| apr_pool_destroy (p : Z).

(** [apr_thread_once_t]: the word [atomic_xchg] works on. *)
Record apr_thread_once_t : Type := mk_once { value : Z }.

Section WithConsts.
Context `{!consts}.

(** [apr_threadattr_create]; [mem] tells whether [apr_palloc] returned a
    block.  The result is the status and [*new]. *)
Definition apr_threadattr_create (mem : bool) (pool : Z)
  : Z * option apr_threadattr_t :=
  if mem
  then (APR_SUCCESS,
        Some {| attr_pool := pool; stack_size := APR_DEFAULT_STACK_SIZE;
                detach := 0; attr_thread_name := None |})
  else (APR_ENOMEM, None).

Definition apr_threadattr_detach_set (attr : apr_threadattr_t) (on : Z)
  : Z * apr_threadattr_t :=
  (APR_SUCCESS,
   {| attr_pool := attr_pool attr; stack_size := stack_size attr;
      detach := on; attr_thread_name := attr_thread_name attr |}).

Definition apr_threadattr_detach_get (attr : apr_threadattr_t) : Z :=
  if detach attr =? 1 then APR_DETACH else APR_NOTDETACH.

Definition apr_threadattr_stacksize_set (attr : apr_threadattr_t) (stacksize : Z)
  : Z * apr_threadattr_t :=
  (APR_SUCCESS,
   {| attr_pool := attr_pool attr; stack_size := stacksize;
      detach := detach attr; attr_thread_name := attr_thread_name attr |}).

Definition apr_threadattr_guardsize_set (attr : apr_threadattr_t) (size : Z)
  : Z * apr_threadattr_t :=
  (APR_ENOTIMPL, attr).

Definition apr_os_thread_equal (tid1 tid2 : Z) : Z :=
  if tid1 =? tid2 then 1 else 0.

(** [apr_thread_exit]: the record and the calls made; [NXThreadExit] does
    not return. *)
Definition apr_thread_exit (thd : apr_thread_t) (retval : Z)
  : apr_thread_t * list effect :=
  let thd := set_exitval thd retval in
  (thd,
   (if detached thd =? 0 then [] else [apr_pool_destroy (pool thd)])
   ++ [NXThreadExit]).

(** [apr_thread_join]; [join] is what [NXThreadJoin] returns for a thread
    id.  The result is the status, [*retval] ([None] where it is not
    assigned) and the calls made. *)
Definition apr_thread_join (join : Z -> Z) (thd : apr_thread_t)
  : Z * option Z * list effect :=
  if detached thd =? 0
  then
    let stat := join (td thd) in
    if stat =? 0
    then (APR_SUCCESS, Some (exitval thd),
          [NXThreadJoin (td thd); apr_pool_destroy (pool thd)])
    else (stat, None, [NXThreadJoin (td thd)])
  else (APR_EINVAL, None, []).

Definition apr_thread_detach (thd : apr_thread_t) : Z * apr_thread_t :=
  if detached thd =? 0
  then (APR_SUCCESS, set_detached thd 1)
  else (APR_EINVAL, thd).

(** [apr_os_thread_get]: the status and [*thethd], the thread id the
    pointer stored there leads to. *)
Definition apr_os_thread_get (thd : option apr_thread_t) : Z * option Z :=
  match thd with
  | None => (APR_ENOTHREAD, None)
  | Some t => (APR_SUCCESS, Some (td t))
  end.

(** [apr_os_thread_put]; [fresh] is the block [apr_palloc] returns, as it
    is before the function writes to it.  The result is the status and
    [*thd]. *)
Definition apr_os_thread_put (fresh : apr_thread_t) (thd : option apr_thread_t)
    (thethd : Z) (pool : option Z) : Z * option apr_thread_t :=
  match pool with
  | None => (APR_ENOPOOL, thd)
  | Some p =>
      let t := match thd with
               | Some t => t
               | None =>
                   {| pool := p; td := td fresh; data := data fresh;
                      func := func fresh; exitval := exitval fresh;
                      detached := detached fresh;
                      thread_name := thread_name fresh; ctx := ctx fresh |}
               end in
      (APR_SUCCESS, Some (set_td t thethd))
  end.

(** [apr_thread_once_init]: [apr_pcalloc] hands out zeroed memory. *)
Definition apr_thread_once_init (p : Z) : Z * apr_thread_once_t :=
  (APR_SUCCESS, {| value := 0 |}).

(** [apr_thread_once], run by one thread: [atomic_xchg] stores 1 and yields
    the old value.  [func] acts on a state [W] of the caller's. *)
Definition apr_thread_once {W : Type} (control : apr_thread_once_t)
    (func : W -> W) (w : W) : Z * apr_thread_once_t * W :=
  let old := value control in
  let control := {| value := 1 |} in
  if old =? 0 then (APR_SUCCESS, control, func w)
  else (APR_SUCCESS, control, w).

End WithConsts.

End Thread.
(** * Vocabulary of the properties *)

Import Common.

(** ** The event-flag translator *)

#[global] Instance event_eq_dec : EqDecision event.
Proof. solve_decision. Defined.

Definition all_events : list event :=
  [Readable; Priority; Writable; Error; HangUp; Invalid].

(** The bitmask of a set of events under an encoding [f]. *)
Definition mask (f : event -> Z) (S : list event) : Z :=
  foldr (fun e m => Z.lor (f e) m) 0 S.

Fixpoint member (e : event) (l : list event) : bool :=
  match l with
  | [] => false
  | a :: l' => bool_decide (a = e) || member e l'
  end.

(** An encoding is usable when its six masks are nonzero, fit the positive
    range of an [apr_int16_t], and no two of them share a bit. *)
Definition well_formed (f : event -> Z) : bool :=
  forallb (fun e =>
    (0 <? f e) && (f e <? 2 ^ 15) &&
    forallb (fun e' => bool_decide (e = e') || (Z.land (f e) (f e') =? 0))
      all_events) all_events.

(** Both functions of poll.c are one chain of tests, from one encoding to
    the other. *)
Definition translate (f g : event -> Z) (ev : Z) : Z :=
  foldl (fun rv e => or_if ev (f e) (g e) rv) 0 all_events.


(** The chain of tests without the stores to a 16-bit variable. *)
Definition translate_spec (f g : event -> Z) (ev : Z) : Z :=
  foldl (fun rv e => if Z.land ev (f e) =? 0 then rv else Z.lor rv (g e)) 0 all_events.


(** ** Builds used in the examples

    A Unix build and a Windows build with the usual values of the header
    constants. *)

Definition unix_target : target :=
  {| WIN32 := false; NETWARE := false; LONG_BIT := 64;
     APR_POLLIN := 1; APR_POLLPRI := 2; APR_POLLOUT := 4;
     APR_POLLERR := 16; APR_POLLHUP := 32; APR_POLLNVAL := 64;
     POLLIN := 1; POLLPRI := 2; POLLOUT := 4;
     POLLERR := 8; POLLHUP := 16; POLLNVAL := 32;
     APR_SUCCESS := 0; APR_TIMEUP := 70007; APR_ENOMEM := 12;
     APR_NOTFOUND := 70015; APR_EBADF := 9 |}.

Definition win32_target : target :=
  {| WIN32 := true; NETWARE := false; LONG_BIT := 32;
     APR_POLLIN := 1; APR_POLLPRI := 2; APR_POLLOUT := 4;
     APR_POLLERR := 16; APR_POLLHUP := 32; APR_POLLNVAL := 64;
     POLLIN := 1; POLLPRI := 2; POLLOUT := 4;
     POLLERR := 8; POLLHUP := 16; POLLNVAL := 32;
     APR_SUCCESS := 0; APR_TIMEUP := 70007; APR_ENOMEM := 12;
     APR_NOTFOUND := 70015; APR_EBADF := 9 |}.

(** ** Observing the native wait *)

(** The timeout argument of the first native wait of a computation: the
    integer handed to [poll], or the [tvptr] handed to [select]; [None]
    when the computation ends without a wait. *)
Definition wait_timeout {A : Type} (m : native A) : option (Z + option timeval) :=
  match m with
  | Return _ => None
  | CallPoll _ _ t _ => Some (inl t)
  | CallSelect _ _ _ _ _ tv _ => Some (inr tv)
  end.

(** What the callers of a wait are promised: [nsds] is the value the native
    call returned; a negative value gives the status [errno], zero gives
    [APR_TIMEUP], a positive value [APR_SUCCESS]. *)
Definition wait_outcome `{!target} (rv errno status nsds : Z) : Prop :=
  nsds = rv /\
  (rv < 0 -> status = errno) /\
  (rv = 0 -> status = APR_TIMEUP) /\
  (0 < rv -> status = APR_SUCCESS).

(** The records a pollset has registered: the first [nelts] of [query_set]. *)
Definition registered (nelts : Z) (query_set : list apr_pollfd_t) : list apr_pollfd_t :=
  take (Z.to_nat nelts) query_set.

(** Under [WIN32] the bitmap build registers sockets only
    ([apr_pollset_add] turns files away). *)
Definition sockets_only `{!target} (l : list apr_pollfd_t) : Prop :=
  WIN32 = true -> Forall (fun a => desc_type a = APR_POLL_SOCKET) l.

(** ** Records and pollsets used in the examples *)

Definition socket (o h ev : Z) : apr_pollfd_t :=
  {| p := 0; desc_type := APR_POLL_SOCKET; reqevents := ev; rtnevents := 0;
     desc := mk_desc o h false; client_data := 0 |}.

Definition file (o h ev : Z) : apr_pollfd_t :=
  {| p := 0; desc_type := APR_POLL_FILE; reqevents := ev; rtnevents := 0;
     desc := mk_desc o h false; client_data := 0 |}.

(** Three sockets at distinct addresses, with handles 3, 4 and 5, all asking
    for [APR_POLLIN]. *)
Definition sockA : apr_pollfd_t := socket 1000 3 1.
Definition sockB : apr_pollfd_t := socket 2000 4 1.
Definition sockC : apr_pollfd_t := socket 3000 5 1.
Definition sockD : apr_pollfd_t := socket 4000 6 1.

(** ** Invariants of a pollset *)

(** [0 <= count <= capacity], within the range of an [apr_uint32_t]. *)
Definition count_inv (nelts nalloc : Z) : Prop :=
  0 <= nelts <= nalloc /\ nalloc < 2 ^ 32.

(** The arrays have the size they were allocated with. *)
Definition sized {A : Type} (nalloc : Z) (l : list A) : Prop :=
  length l = Z.to_nat nalloc.

Definition eventlist_inv (ps : EventList.apr_pollset_t) : Prop :=
  count_inv (EventList.nelts ps) (EventList.nalloc ps) /\
  sized (EventList.nalloc ps) (EventList.pollset ps) /\
  sized (EventList.nalloc ps) (EventList.query_set ps) /\
  sized (EventList.nalloc ps) (EventList.result_set ps).

Definition bitmap_inv (ps : Bitmap.apr_pollset_t) : Prop :=
  count_inv (Bitmap.nelts ps) (Bitmap.nalloc ps) /\
  sized (Bitmap.nalloc ps) (Bitmap.query_set ps) /\
  sized (Bitmap.nalloc ps) (Bitmap.result_set ps).

(** A Windows pollset of capacity one, empty and then full. *)
Definition win32_empty : Bitmap.apr_pollset_t :=
  snd (@Bitmap.apr_pollset_create win32_target 1 0).

Definition win32_full : Bitmap.apr_pollset_t :=
  snd (@Bitmap.apr_pollset_add win32_target win32_empty sockA).

Definition fileF : apr_pollfd_t := file 7000 9 1.

(** ** Counting the matches of a removal *)

(** How many of the [k] slots from index [i] on hold a record of the same
    descriptor as [d]. *)
Fixpoint count_match (d : apr_pollfd_t) (qs : list apr_pollfd_t) (i k : nat) : Z :=
  match k with
  | O => 0
  | S k' => (if same_desc d (qs !!! i) then 1 else 0) + count_match d qs (S i) k'
  end.

(** The matches among the registered records. *)
Definition matches (d : apr_pollfd_t) (nelts : Z) (qs : list apr_pollfd_t) : Z :=
  count_match d qs 0 (Z.to_nat nelts).

(** What a removal should leave registered: the records of other
    descriptors, in their order. *)
Definition survivors (d : apr_pollfd_t) (l : list apr_pollfd_t) : list apr_pollfd_t :=
  filter (fun a => same_desc d a = false) l.

(** ** Pollsets used in the examples *)

(** A pollset of capacity [cap] after registering the records of [l]. *)
Definition eventlist_of `{!target} (cap : Z) (l : list apr_pollfd_t)
  : EventList.apr_pollset_t :=
  foldl (fun ps a => snd (EventList.apr_pollset_add ps a))
    (snd (EventList.apr_pollset_create cap 0)) l.

Definition bitmap_of `{!target} (cap : Z) (l : list apr_pollfd_t)
  : Bitmap.apr_pollset_t :=
  foldl (fun ps a => snd (Bitmap.apr_pollset_add ps a))
    (snd (Bitmap.apr_pollset_create cap 0)) l.

(** An operating system where nothing is ever ready. *)
Definition idle_os : os :=
  {| os_poll := fun _ _ _ => mk_poll_answer 0 0 (fun _ => 0);
     os_select := fun _ _ _ _ _ _ => mk_select_answer 0 0 0 0 0 |}.

(** ** The ready subset *)

(** What [apr_pollset_poll] of the event-list build makes of slot [i]:
    nothing when the native result [rev i] is zero, else the registered
    record with the translated result as its [rtnevents]. *)
Definition eventlist_ready_at `{!target} (qs : list apr_pollfd_t) (rev : nat -> Z)
    (i : nat) : option apr_pollfd_t :=
  if rev i =? 0 then None
  else Some (set_rtnevents (qs !!! i) (get_revent (rev i))).

(** The ready records among the first [n], in registration order. *)
Definition eventlist_ready `{!target} (qs : list apr_pollfd_t) (rev : nat -> Z)
    (n : nat) : list apr_pollfd_t :=
  omap (eventlist_ready_at qs rev) (seq 0 n).

(** The same for the bitmap build: slot [i] is ready when its handle is in
    one of the three sets [select] left. *)
Definition bitmap_ready_at `{!target} (qs : list apr_pollfd_t) (r w e : fd_set)
    (i : nat) : option apr_pollfd_t :=
  let a := qs !!! i in
  let h := des (desc a) in
  if FD_ISSET h r || FD_ISSET h w || FD_ISSET h e
  then Some (set_rtnevents a (select_rtnevents h r w e))
  else None.

Definition bitmap_ready `{!target} (qs : list apr_pollfd_t) (r w e : fd_set)
    (n : nat) : list apr_pollfd_t :=
  omap (bitmap_ready_at qs r w e) (seq 0 n).

(** The contract of [poll]: a positive return value is the number of array
    elements, among the [nfds] it was given, whose [revents] is not zero. *)
Definition poll_contract (nfds : Z) (ans : poll_answer) : Prop :=
  poll_rv ans =
  Z.of_nat (length (filter (fun i => poll_revents ans i <> 0) (seq 0 (Z.to_nat nfds)))).

(** The contract of [select]: the sets it leaves are within those it was
    given, and a positive return value is the number of bits set in the
    three sets together. *)
Definition bits_set (nfds : Z) (s : fd_set) : Z :=
  Z.of_nat (length (filter (fun h => Z.testbit s (Z.of_nat h) = true)
                      (seq 0 (Z.to_nat nfds)))).

Definition select_contract (nfds : Z) (r w e : fd_set) (ans : select_answer) : Prop :=
  Z.land (select_read ans) r = select_read ans /\
  Z.land (select_write ans) w = select_write ans /\
  Z.land (select_except ans) e = select_except ans /\
  select_rv ans =
    bits_set nfds (select_read ans) + bits_set nfds (select_write ans)
    + bits_set nfds (select_except ans).

(** [poll] finds the first and the third array element readable. *)
Definition first_and_third : poll_answer :=
  mk_poll_answer 2 0 (fun i => match i with 0%nat | 2%nat => 1 | _ => 0 end).

(** [select] finds handle 3 readable, and nothing else. *)
Definition handle3_readable : select_answer := mk_select_answer 1 0 8 0 0.

Definition handle3_os : os :=
  {| os_poll := os_poll idle_os;
     os_select := fun _ _ _ _ _ _ => handle3_readable |}.

(** [select] finds handle 3 readable and writable. *)
Definition handle3_both : select_answer := mk_select_answer 2 0 8 8 0.

Definition handle3_both_os : os :=
  {| os_poll := os_poll idle_os;
     os_select := fun _ _ _ _ _ _ => handle3_both |}.

(** A socket with handle 3 that asks for [APR_POLLIN] and [APR_POLLOUT]. *)
Definition sockRW : apr_pollfd_t := socket 1000 3 5.

(** [poll] finds its first array element readable and writable ([POLLIN]
    and [POLLOUT] of the Unix build), and counts one element. *)
Definition first_both : poll_answer :=
  mk_poll_answer 1 0 (fun i => match i with 0%nat => 5 | _ => 0 end).

Definition first_both_os : os :=
  {| os_poll := fun _ _ _ => first_both;
     os_select := os_select idle_os |}.

(** ** What the bitmap build can report *)

(** The three flags the bitmap build ever sets: [APR_POLLIN] for the read
    set, [APR_POLLOUT] for the write set, [APR_POLLERR] for the exception
    set. *)
Definition three_flags_of `{!target} (br bw be : bool) : Z :=
  Z.lor (Z.lor (if br then APR_POLLIN else 0) (if bw then APR_POLLOUT else 0))
        (if be then APR_POLLERR else 0).

(** A record written after [select] left the sets [r], [w], [e]: its
    [rtnevents] are the three flags of its handle, and hold none of
    [APR_POLLPRI], [APR_POLLHUP], [APR_POLLNVAL]. *)
Definition reports_rwe `{!target} (r w e : fd_set) (a : apr_pollfd_t) : Prop :=
  rtnevents a = three_flags_of (FD_ISSET (des (desc a)) r)
                  (FD_ISSET (des (desc a)) w) (FD_ISSET (des (desc a)) e) /\
  Z.land (rtnevents a) APR_POLLPRI = 0 /\
  Z.land (rtnevents a) APR_POLLHUP = 0 /\
  Z.land (rtnevents a) APR_POLLNVAL = 0.

(** [select] finds handle 3 readable and in an exceptional condition. *)
Definition handle3_urgent : select_answer := mk_select_answer 2 0 8 0 8.

(** * Vocabulary of the further properties *)

(** The events whose flag, under the encoding [f], has a bit in [ev]. *)
Definition events_in (f : event -> Z) (ev : Z) : list event :=
  List.filter (fun e => negb (Z.land ev (f e) =? 0)) all_events.

(** A record without its [rtnevents]: what a wait must leave alone. *)
Definition forget_rtnevents (a : apr_pollfd_t) : apr_pollfd_t := set_rtnevents a 0.

Definition is_file (a : apr_pollfd_t) : Prop := desc_type a = APR_POLL_FILE.



(** Registering the records of [l] one after the other: the statuses of the
    calls, and the pollset at the end. *)
Fixpoint eventlist_add_all `{!target} (ps : EventList.apr_pollset_t)
    (l : list apr_pollfd_t) : list Z * EventList.apr_pollset_t :=
  match l with
  | [] => ([], ps)
  | a :: l' =>
      let '(st, ps') := EventList.apr_pollset_add ps a in
      let '(sts, ps'') := eventlist_add_all ps' l' in
      (st :: sts, ps'')
  end.

Fixpoint bitmap_add_all `{!target} (ps : Bitmap.apr_pollset_t)
    (l : list apr_pollfd_t) : list Z * Bitmap.apr_pollset_t :=
  match l with
  | [] => ([], ps)
  | a :: l' =>
      let '(st, ps') := Bitmap.apr_pollset_add ps a in
      let '(sts, ps'') := bitmap_add_all ps' l' in
      (st :: sts, ps'')
  end.

(** The native array of the event-list build mirrors the registry: slot
    [i] of [pollset] holds the handle and the translated request of slot
    [i] of [query_set], for the first [n] slots. *)
Definition aligned_upto `{!target} (n : nat) (ps : EventList.apr_pollset_t) : Prop :=
  forall i, (i < n)%nat ->
    fd (EventList.pollset ps !!! i) = handle (EventList.query_set ps !!! i) /\
    events (EventList.pollset ps !!! i)
      = get_event (reqevents (EventList.query_set ps !!! i)).

Definition aligned `{!target} (ps : EventList.apr_pollset_t) : Prop :=
  aligned_upto (Z.to_nat (EventList.nelts ps)) ps.

(** What [poll] is to be asked about a record. *)
Definition poll_entry `{!target} (a : apr_pollfd_t) : Z * Z :=
  (handle a, get_event (reqevents a)).

(** The first slot among the [k] from index [i] on that holds a record of
    the descriptor of [d]. *)
Fixpoint first_match (d : apr_pollfd_t) (qs : list apr_pollfd_t) (i k : nat)
  : option nat :=
  match k with
  | O => None
  | S k' => if same_desc d (qs !!! i) then Some i else first_match d qs (S i) k'
  end.

(** The last slot among the [k] from index [i] on that holds a record of
    another descriptor. *)
Fixpoint last_survivor (d : apr_pollfd_t) (qs : list apr_pollfd_t) (i k : nat)
  : option nat :=
  match k with
  | O => None
  | S k' =>
      match last_survivor d qs (S i) k' with
      | Some j => Some j
      | None => if same_desc d (qs !!! i) then None else Some i
      end
  end.

(** The array a removal leaves: slot [i0], the first match, now holds the
    last surviving record behind it, if there is one; no other slot is
    written. *)
Definition overwritten {A : Type} `{!Inhabited A} (l : list A) (i0 : nat)
    (j : option nat) : list A :=
  match j with
  | Some j => <[i0 := l !!! j]> l
  | None => l
  end.


(** ** thread.c *)

(** The header constants with the values APR gives them. *)
Definition netware_consts : Thread.consts :=
  {| Thread.APR_SUCCESS := 0; Thread.APR_ENOMEM := 12;
     Thread.APR_ENOTIMPL := 70023; Thread.APR_EINVAL := 22;
     Thread.APR_ENOTHREAD := 20004; Thread.APR_ENOPOOL := 20002;
     Thread.APR_DETACH := 70010; Thread.APR_NOTDETACH := 70011;
     Thread.APR_DEFAULT_STACK_SIZE := 65536 |}.

(** How often a list of calls destroys the pool [p]. *)
Definition destroys (p : Z) (l : list Thread.effect) : nat :=
  length (List.filter (fun e => match e with
                                | Thread.apr_pool_destroy q => q =? p
                                | _ => false
                                end) l).

(** [n] calls of [apr_thread_once] on the same control, one after the
    other. *)
Fixpoint once_times `{!Thread.consts} {W : Type} (n : nat)
    (control : Thread.apr_thread_once_t) (func : W -> W) (w : W)
  : Thread.apr_thread_once_t * W :=
  match n with
  | O => (control, w)
  | S n' =>
      let '(_, control', w') := Thread.apr_thread_once control func w in
      once_times n' control' func w'
  end.

Definition joinable_thread : Thread.apr_thread_t :=
  Thread.mk_thread 500 7 0 0 (-1) 0 0 0.
(** * Properties *)

(** ** Machine integers and bit-vectors *)

Lemma int16_small z : 0 <= z < 2 ^ 15 -> Int.int16 z = z.
Proof.
  intros Hz. unfold Int.int16, Int.wrap_signed.
  change (2 ^ (16 - 1)) with 32768. change (2 ^ 16) with 65536.
  change (2 ^ 15) with 32768 in Hz.
  rewrite Z.mod_small; lia.
Qed.

(** The cast [(int)fd] changes nothing on a handle that is an [int]. *)
Lemma int_small z : - 2 ^ 31 <= z < 2 ^ 31 -> Int.int z = z.
Proof.
  intros Hz. unfold Int.int, Int.wrap_signed.
  change (2 ^ (32 - 1)) with 2147483648. change (2 ^ 32) with 4294967296.
  change (2 ^ 31) with 2147483648 in Hz.
  rewrite Z.mod_small; lia.
Qed.

Lemma u32_small z : 0 <= z < 2 ^ 32 -> Int.u32 z = z.
Proof. intros Hz. unfold Int.u32, Int.wrap_unsigned. apply Z.mod_small, Hz. Qed.

Lemma lor_range15 a b :
  0 <= a < 2 ^ 15 -> 0 <= b < 2 ^ 15 -> 0 <= Z.lor a b < 2 ^ 15.
Proof.
  intros Ha Hb. split; [apply Z.lor_nonneg; lia|].
  destruct (Z.eq_dec a 0) as [->|Na]; [rewrite Z.lor_0_l; lia|].
  destruct (Z.eq_dec b 0) as [->|Nb]; [rewrite Z.lor_0_r; lia|].
  assert (0 < Z.lor a b).
  { assert (0 <= Z.lor a b) by (apply Z.lor_nonneg; lia).
    assert (Z.lor a b <> 0) by (rewrite Z.lor_eq_0_iff; lia). lia. }
  apply Z.log2_lt_pow2; [lia|].
  rewrite Z.log2_lor by lia.
  apply Z.max_lub_lt; apply Z.log2_lt_pow2; lia.
Qed.

(** ** Arrays *)

(** Writing slot [j] of a buffer whose first [j] slots are kept. *)
Lemma take_insert_next {A : Type} (rs : list A) j x :
  (j < length rs)%nat -> take (S j) (<[j := x]> rs) = take j rs ++ [x].
Proof.
  intros Hj. rewrite (take_S_r _ _ x) by (apply list_lookup_insert_eq, Hj).
  rewrite take_insert_ge by lia. reflexivity.
Qed.

Section Translator.
Context `{!target}.

Lemma get_event_translate ev : get_event ev = translate apr_bit native_bit ev.
Proof. reflexivity. Qed.

Lemma get_revent_translate ev : get_revent ev = translate native_bit apr_bit ev.
Proof. reflexivity. Qed.

End Translator.

Lemma in_all_events e : In e all_events.
Proof. destruct e; simpl; tauto. Qed.

Lemma well_formed_range f e : well_formed f = true -> 0 < f e < 2 ^ 15.
Proof.
  unfold well_formed. rewrite forallb_forall. intros H.
  specialize (H e (in_all_events e)).
  rewrite !andb_true_iff in H. destruct H as [[H1 H2] _].
  apply Z.ltb_lt in H1, H2. lia.
Qed.

Lemma well_formed_disjoint f e e' :
  well_formed f = true -> e <> e' -> Z.land (f e) (f e') = 0.
Proof.
  unfold well_formed. rewrite forallb_forall. intros H Hne.
  specialize (H e (in_all_events e)).
  rewrite !andb_true_iff in H. destruct H as [_ H].
  rewrite forallb_forall in H. specialize (H e' (in_all_events e')).
  apply orb_true_iff in H. destruct H as [H|H].
  - apply bool_decide_eq_true in H. contradiction.
  - apply Z.eqb_eq in H. exact H.
Qed.

(** Testing a mask against one flag tells whether the event is in the set. *)
Lemma mask_test f S e :
  well_formed f = true ->
  (Z.land (mask f S) (f e) =? 0) = negb (member e S).
Proof.
  intros Hf. induction S as [|a S IH]; simpl.
  - reflexivity.
  - rewrite Z.land_lor_distr_l.
    destruct (decide (a = e)) as [->|Hne].
    + rewrite Z.land_diag, (bool_decide_eq_true_2 (e = e)) by reflexivity.
      simpl. apply Z.eqb_neq. rewrite Z.lor_eq_0_iff.
      pose proof (well_formed_range f e Hf). lia.
    + rewrite (well_formed_disjoint f a e Hf Hne), Z.lor_0_l, IH.
      rewrite (bool_decide_eq_false_2 (a = e)) by exact Hne. reflexivity.
Qed.

Lemma mask_bits f S n :
  Z.testbit (mask f S) n = existsb (fun e => Z.testbit (f e) n) S.
Proof.
  induction S as [|a S IH]; simpl; [apply Z.bits_0|].
  rewrite Z.lor_spec, IH. reflexivity.
Qed.

Lemma translate_no_wrap f g ev :
  well_formed g = true -> translate f g ev = translate_spec f g ev.
Proof.
  intros Hg. unfold translate, translate_spec.
  assert (Hgen : forall l rv, 0 <= rv < 2 ^ 15 ->
    foldl (fun rv e => or_if ev (f e) (g e) rv) rv l =
    foldl (fun rv e => if Z.land ev (f e) =? 0 then rv else Z.lor rv (g e)) rv l).
  { induction l as [|e l IH]; intros rv Hrv; simpl; [reflexivity|].
    unfold or_if at 2. destruct (Z.land ev (f e) =? 0); [apply IH, Hrv|].
    pose proof (well_formed_range g e Hg) as Hge.
    assert (0 <= Z.lor rv (g e) < 2 ^ 15) as Hr by (apply lor_range15; lia).
    rewrite (int16_small _ Hr). apply IH, Hr. }
  apply Hgen. lia.
Qed.

Lemma translate_spec_bits f g ev n :
  Z.testbit (translate_spec f g ev) n =
  existsb (fun e => negb (Z.land ev (f e) =? 0) && Z.testbit (g e) n) all_events.
Proof.
  unfold translate_spec.
  assert (Hgen : forall l rv,
    Z.testbit (foldl (fun rv e => if Z.land ev (f e) =? 0 then rv else Z.lor rv (g e)) rv l) n =
    Z.testbit rv n || existsb (fun e => negb (Z.land ev (f e) =? 0) && Z.testbit (g e) n) l).
  { induction l as [|e l IH]; intros rv; simpl; [rewrite orb_false_r; reflexivity|].
    rewrite IH. destruct (Z.land ev (f e) =? 0); simpl; [reflexivity|].
    rewrite Z.lor_spec, orb_assoc. reflexivity. }
  rewrite Hgen, Z.bits_0. reflexivity.
Qed.

Lemma existsb_member (S : list event) (g : event -> bool) :
  existsb (fun e => member e S && g e) all_events = existsb g S.
Proof.
  induction S as [|a S IH]; simpl.
  - reflexivity.
  - rewrite <- IH. clear IH.
    destruct a; simpl;
      destruct (g Readable), (g Priority), (g Writable), (g Error),
        (g HangUp), (g Invalid); simpl;
      repeat match goal with |- context [member ?e S] => destruct (member e S) end;
      reflexivity.
Qed.

(** Translating the mask of a set yields the mask of the same set. *)
Lemma translate_mask f g S :
  well_formed f = true -> well_formed g = true ->
  translate f g (mask f S) = mask g S.
Proof.
  intros Hf Hg. rewrite (translate_no_wrap f g _ Hg).
  apply Z.bits_inj'. intros n _.
  rewrite translate_spec_bits, mask_bits.
  rewrite <- (existsb_member S (fun e => Z.testbit (g e) n)).
  unfold all_events, existsb.
  rewrite !(mask_test f S _ Hf), !negb_involutive. reflexivity.
Qed.

(** Bits that belong to none of the six source flags do not reach the
    result. *)
Lemma translate_ignores f g ev x :
  (forall e, Z.land x (f e) = 0) ->
  translate f g (Z.lor ev x) = translate f g ev.
Proof.
  intros Hx. unfold translate.
  assert (Hgen : forall l rv,
    foldl (fun rv e => or_if (Z.lor ev x) (f e) (g e) rv) rv l =
    foldl (fun rv e => or_if ev (f e) (g e) rv) rv l).
  { induction l as [|e l IH]; intros rv; simpl; [reflexivity|].
    rewrite IH. unfold or_if. rewrite Z.land_lor_distr_l, Hx, Z.lor_0_r.
    reflexivity. }
  apply Hgen.
Qed.


Section FlagRoundTrip.
Context `{!target}.

(** C5.  For every set [S] of the six portable events, translating its mask
    to the native encoding and back gives the mask again; so does the trip
    from the native mask of [S]; and native bits that belong to none of the
    six native flags are dropped by [get_revent].  The encodings are
    [well_formed]: six nonzero masks within sixteen bits, no bit shared. *)
Theorem flag_round_trip (S : list event) :
  well_formed apr_bit = true -> well_formed native_bit = true ->
  get_event (mask apr_bit S) = mask native_bit S /\
  get_revent (get_event (mask apr_bit S)) = mask apr_bit S /\
  get_event (get_revent (mask native_bit S)) = mask native_bit S /\
  (forall x, (forall e, Z.land x (native_bit e) = 0) ->
             get_revent (Z.lor (mask native_bit S) x) = mask apr_bit S).
Proof.
  intros Ha Hn.
  rewrite !get_event_translate.
  assert (Hto : translate apr_bit native_bit (mask apr_bit S) = mask native_bit S)
    by (apply translate_mask; assumption).
  assert (Hfrom : translate native_bit apr_bit (mask native_bit S) = mask apr_bit S)
    by (apply translate_mask; assumption).
  repeat split.
  - exact Hto.
  - rewrite Hto, get_revent_translate. exact Hfrom.
  - rewrite get_revent_translate, Hfrom. exact Hto.
  - intros x Hx. rewrite get_revent_translate, translate_ignores by exact Hx.
    exact Hfrom.
Qed.

End FlagRoundTrip.

Lemma flag_round_trip_witness :
  @get_revent unix_target
     (@get_event unix_target (mask (@apr_bit unix_target) [Readable; Error; Invalid]))
  = 81
  /\ @get_revent unix_target 1024 = 0.
Proof.
  destruct (@flag_round_trip unix_target [Readable; Error; Invalid]
              eq_refl eq_refl) as (_ & Hrt & _ & Hdrop).
  split.
  - exact Hrt.
  - apply (@flag_round_trip unix_target [] eq_refl eq_refl).
    intros e. destruct e; reflexivity.
Defined.

(** ** Timeouts *)

Lemma wrap_signed_small w z :
  0 < w -> - 2 ^ (w - 1) <= z < 2 ^ (w - 1) -> Int.wrap_signed w z = z.
Proof.
  intros Hw Hz. unfold Int.wrap_signed.
  assert (Hp : 2 ^ w = 2 * 2 ^ (w - 1)).
  { replace w with (Z.succ (w - 1)) at 1 by lia. apply Z.pow_succ_r. lia. }
  rewrite Hp, Z.mod_small; lia.
Qed.

Section Timeouts.
Context `{!target}.

Lemma poll_timeout_pos t : 0 < t -> poll_timeout t = t / 1000.
Proof.
  intros Ht. unfold poll_timeout.
  destruct (Z.ltb_spec 0 t); [|lia]. apply Z.quot_div_nonneg; lia.
Qed.

Lemma poll_timeout_neg t : t < 0 -> poll_timeout t = t.
Proof. intros Ht. unfold poll_timeout. destruct (Z.ltb_spec 0 t); [lia|reflexivity]. Qed.

Lemma long_small z : 32 <= LONG_BIT -> 0 <= z < 2 ^ 31 -> long z = z.
Proof.
  intros Hl Hz. apply wrap_signed_small; [lia|].
  assert (2 ^ 31 <= 2 ^ (LONG_BIT - 1)) by (apply Z.pow_le_mono_r; lia). lia.
Qed.

Lemma select_timeout_pos t :
  32 <= LONG_BIT -> 0 <= t ->
  select_timeout t =
    Some {| tv_sec := long (t / 1000000); tv_usec := t mod 1000000 |}.
Proof.
  intros Hl Ht. unfold select_timeout, apr_time_sec, apr_time_usec, APR_USEC_PER_SEC.
  destruct (Z.ltb_spec t 0); [lia|].
  rewrite Z.quot_div_nonneg, Z.rem_mod_nonneg by lia.
  rewrite (long_small (t mod 1000000)); [reflexivity|exact Hl|].
  pose proof (Z.mod_pos_bound t 1000000). change (2 ^ 31) with 2147483648. lia.
Qed.

Lemma select_timeout_neg t : t < 0 -> select_timeout t = None.
Proof. intros Ht. unfold select_timeout. destruct (Z.ltb_spec t 0); [reflexivity|lia]. Qed.

Lemma int_of_quotient t : 0 < t -> t / 1000 < 2 ^ 31 -> Int.int (t / 1000) = t / 1000.
Proof.
  intros Ht Hfit. apply int_small.
  assert (0 <= t / 1000) by (apply Z.div_pos; lia). lia.
Qed.

(** On an array the build accepts (under [WIN32]: of sockets) the first
    loop of [apr_poll] runs to its end. *)
Lemma fill_sockets_only l rq :
  sockets_only l -> exists rq', Bitmap.fill l rq = inr rq'.
Proof.
  revert rq. induction l as [|a l IH]; intros rq Hs; [eexists; reflexivity|].
  assert (Ha : Bitmap.handle_of a = inr (des (desc a))).
  { unfold Bitmap.handle_of. destruct (desc_type a) eqn:Hd; [reflexivity|].
    destruct WIN32 eqn:Hw; [|reflexivity].
    pose proof (Hs Hw) as HF. inversion HF; congruence. }
  cbn [Bitmap.fill]. rewrite Ha. apply IH.
  intros Hw. pose proof (Hs Hw) as HF. inversion HF; assumption.
Qed.

Lemma bitmap_poll_wait_timeout aprset t :
  sockets_only aprset ->
  wait_timeout (Bitmap.apr_poll aprset t) = Some (inr (select_timeout t)).
Proof.
  intros Hs. unfold Bitmap.apr_poll.
  destruct (fill_sockets_only aprset
              (Bitmap.mk_request FD_ZERO FD_ZERO FD_ZERO (-1) false) Hs) as [rq Hrq].
  rewrite Hrq. reflexivity.
Qed.

(** C6, as the code has it.  A positive timeout [t], in microseconds, is divided by
    1000 and handed to [poll], whose parameter is an [int]: [poll] receives
    [t / 1000] converted to [int], which is [t / 1000] itself whenever that
    is below [2 ^ 31].  The bitmap build hands [select] the pair of
    [t / 1000000] seconds, cast to [long], and [t mod 1000000]
    microseconds, which add up to [t] again when the seconds fit a [long];
    [apr_poll] does so on every array the build accepts (under [WIN32]: of
    sockets).  A negative timeout reaches [select] as a NULL pointer, and
    [poll] converted to [int]: unchanged, hence negative, whenever it is at
    least [- 2 ^ 31]. *)
Theorem timeout_conversion (aprset : list apr_pollfd_t)
    (ps : EventList.apr_pollset_t) (psb : Bitmap.apr_pollset_t) (t : Z) :
  32 <= LONG_BIT ->
  (0 < t ->
     let tv := {| tv_sec := long (t / 1000000); tv_usec := t mod 1000000 |} in
     wait_timeout (EventList.apr_poll aprset t) = Some (inl (Int.int (t / 1000))) /\
     wait_timeout (EventList.apr_pollset_poll ps t) = Some (inl (Int.int (t / 1000))) /\
     (t / 1000 < 2 ^ 31 ->
      wait_timeout (EventList.apr_poll aprset t) = Some (inl (t / 1000)) /\
      wait_timeout (EventList.apr_pollset_poll ps t) = Some (inl (t / 1000))) /\
     wait_timeout (Bitmap.apr_pollset_poll psb t) = Some (inr (Some tv)) /\
     (sockets_only aprset ->
      wait_timeout (Bitmap.apr_poll aprset t) = Some (inr (Some tv))) /\
     (t / 1000000 < 2 ^ (LONG_BIT - 1) ->
      tv_sec tv * 1000000 + tv_usec tv = t)) /\
  (t < 0 ->
     wait_timeout (EventList.apr_poll aprset t) = Some (inl (Int.int t)) /\
     wait_timeout (EventList.apr_pollset_poll ps t) = Some (inl (Int.int t)) /\
     (- 2 ^ 31 <= t ->
      wait_timeout (EventList.apr_poll aprset t) = Some (inl t) /\
      wait_timeout (EventList.apr_pollset_poll ps t) = Some (inl t)) /\
     wait_timeout (Bitmap.apr_pollset_poll psb t) = Some (inr None) /\
     (sockets_only aprset ->
      wait_timeout (Bitmap.apr_poll aprset t) = Some (inr None))).
Proof.
  intros Hl.
  assert (He : wait_timeout (EventList.apr_poll aprset t)
               = Some (inl (Int.int (poll_timeout t)))) by reflexivity.
  assert (Hp : wait_timeout (EventList.apr_pollset_poll ps t)
               = Some (inl (Int.int (poll_timeout t)))) by reflexivity.
  assert (Hb : wait_timeout (Bitmap.apr_pollset_poll psb t)
               = Some (inr (select_timeout t))) by reflexivity.
  rewrite He, Hp, Hb. split; intros Ht.
  - cbn zeta. rewrite poll_timeout_pos, select_timeout_pos by lia.
    split; [reflexivity|]. split; [reflexivity|]. split.
    { intros Hfit. rewrite int_of_quotient by assumption. auto. }
    split; [reflexivity|]. split.
    { intros Hs. rewrite (bitmap_poll_wait_timeout aprset t Hs).
      rewrite select_timeout_pos by lia. reflexivity. }
    intros Hfit. simpl.
    assert (0 <= t / 1000000) by (apply Z.div_pos; lia).
    assert (0 < 2 ^ (LONG_BIT - 1)) by (apply Z.pow_pos_nonneg; lia).
    unfold long. rewrite wrap_signed_small by lia.
    pose proof (Z.div_mod t 1000000). lia.
  - rewrite poll_timeout_neg, select_timeout_neg by exact Ht.
    split; [reflexivity|]. split; [reflexivity|]. split.
    { intros Hfit. rewrite int_small by lia. auto. }
    split; [reflexivity|].
    intros Hs. rewrite (bitmap_poll_wait_timeout aprset t Hs).
    rewrite select_timeout_neg by exact Ht. reflexivity.
Qed.

End Timeouts.

Lemma timeout_conversion_witness :
  wait_timeout (@EventList.apr_poll unix_target [sockA] 1002500) = Some (inl 1002) /\
  wait_timeout (@Bitmap.apr_poll unix_target [sockA] 1002500)
    = Some (inr (Some {| tv_sec := 1; tv_usec := 2500 |})) /\
  wait_timeout (@EventList.apr_poll unix_target [sockA] (-1)) = Some (inl (-1)) /\
  wait_timeout (@Bitmap.apr_poll unix_target [sockA] (-1)) = Some (inr None).
Proof.
  assert (Hs : @sockets_only unix_target [sockA]) by (intros Hw; discriminate Hw).
  pose proof (@timeout_conversion unix_target [sockA]
                (snd (@EventList.apr_pollset_create unix_target 1 0))
                (snd (@Bitmap.apr_pollset_create unix_target 1 0))
                1002500 ltac:(simpl; lia)) as [Hpos _].
  pose proof (@timeout_conversion unix_target [sockA]
                (snd (@EventList.apr_pollset_create unix_target 1 0))
                (snd (@Bitmap.apr_pollset_create unix_target 1 0))
                (-1) ltac:(simpl; lia)) as [_ Hneg].
  destruct (Hpos ltac:(lia)) as (_ & _ & H1 & _ & H2 & _).
  destruct (Hneg ltac:(lia)) as (_ & _ & H3 & _ & H4).
  destruct (H1 ltac:(vm_compute; reflexivity)) as [H1' _].
  destruct (H3 ltac:(vm_compute; discriminate)) as [H3' _].
  split; [exact H1'|]. split; [exact (H2 Hs)|]. split; [exact H3'|exact (H4 Hs)].
Defined.

(** C6 as stated fails beyond the range of an [int].  A timeout
    of 2147483648000 microseconds is 2147483648 milliseconds, and [poll]
    receives -2147483648; a timeout of -4294967296 microseconds reaches
    [poll] as 0.  Where [long] has 32 bits, the seconds of
    2147483648000000 microseconds reach [select] as -2147483648.  Under
    [WIN32], [apr_poll] given a file hands no timeout to any wait. *)
Lemma timeout_beyond_int :
  2147483648000 / 1000 = 2147483648 /\
  wait_timeout (@EventList.apr_poll unix_target [sockA] 2147483648000)
    = Some (inl (-2147483648)) /\
  wait_timeout (@EventList.apr_pollset_poll unix_target
                  (@eventlist_of unix_target 1 [sockA]) 2147483648000)
    = Some (inl (-2147483648)) /\
  wait_timeout (@EventList.apr_poll unix_target [sockA] (-4294967296))
    = Some (inl 0) /\
  wait_timeout (@Bitmap.apr_pollset_poll win32_target win32_full 2147483648000000)
    = Some (inr (Some {| tv_sec := -2147483648; tv_usec := 0 |})) /\
  wait_timeout (@Bitmap.apr_poll win32_target [fileF] 1002500) = None.
Proof. repeat split; vm_compute; reflexivity. Qed.

(** ** The outcome of a wait *)

Section Waits.
Context `{!target}.

Lemma wait_outcome_intro rv errno :
  wait_outcome rv errno
    (if rv <? 0 then errno else if rv =? 0 then APR_TIMEUP else APR_SUCCESS) rv.
Proof.
  unfold wait_outcome.
  destruct (Z.ltb_spec rv 0), (Z.eqb_spec rv 0); repeat split; intros; lia || reflexivity.
Qed.

Lemma fill_handles l rq rq' :
  Bitmap.fill l rq = inr rq' -> Forall (fun a => exists h, Bitmap.handle_of a = inr h) l.
Proof.
  revert rq. induction l as [|a l IH]; intros rq Hf; [constructor|].
  simpl in Hf. destruct (Bitmap.handle_of a) as [st|h] eqn:Ha; [discriminate|].
  constructor; [exists h; exact Ha|]. eapply IH, Hf.
Qed.

Lemma read_back_complete l r w e :
  Forall (fun a => exists h, Bitmap.handle_of a = inr h) l ->
  fst (Bitmap.read_back l r w e) = None.
Proof.
  induction 1 as [|a l [h Ha] _ IH]; [reflexivity|].
  simpl. rewrite Ha. destruct (Bitmap.read_back l r w e) as [st l']. exact IH.
Qed.

Lemma handle_of_socket a :
  desc_type a = APR_POLL_SOCKET -> Bitmap.handle_of a = inr (des (desc a)).
Proof. intros Ha. unfold Bitmap.handle_of. rewrite Ha. reflexivity. Qed.

Lemma handle_of_not_win32 a :
  WIN32 = false -> Bitmap.handle_of a = inr (des (desc a)).
Proof. intros Hw. unfold Bitmap.handle_of. rewrite Hw. destruct (desc_type a); reflexivity. Qed.

(** Every slot a loop over the registered records reads has a handle. *)
Lemma sockets_only_handle n (qs : list apr_pollfd_t) i :
  sockets_only (registered n qs) -> (i < Z.to_nat n)%nat ->
  Bitmap.handle_of (qs !!! i) = inr (des (desc (qs !!! i))).
Proof.
  intros Hs Hi. destruct WIN32 eqn:Hw; [|apply handle_of_not_win32, Hw].
  apply handle_of_socket. rewrite list_lookup_total_alt.
  destruct (qs !! i) as [a|] eqn:Hq; simpl; [|reflexivity].
  specialize (Hs Hw). rewrite Forall_lookup in Hs. apply (Hs i).
  unfold registered. rewrite lookup_take_lt by exact Hi. exact Hq.
Qed.

Lemma bitmap_collect_query_set k i j r w e ps :
  Bitmap.query_set (snd (Bitmap.collect k i j r w e ps)) = Bitmap.query_set ps /\
  Bitmap.nelts (snd (Bitmap.collect k i j r w e ps)) = Bitmap.nelts ps /\
  Bitmap.nalloc (snd (Bitmap.collect k i j r w e ps)) = Bitmap.nalloc ps.
Proof.
  revert i j ps. induction k as [|k IH]; intros i j ps; simpl; [auto|].
  destruct (Bitmap.handle_of _); [auto|].
  destruct (_ || _); [|apply IH].
  match goal with
  | |- context [Bitmap.collect k (S i) (S j) r w e ?q] =>
      destruct (IH (S i) (S j) q) as (H1 & H2 & H3)
  end.
  simpl in *. auto.
Qed.

Lemma bitmap_collect_complete k i j r w e ps :
  (forall i', (i <= i' < i + k)%nat ->
     exists h, Bitmap.handle_of (Bitmap.query_set ps !!! i') = inr h) ->
  fst (fst (Bitmap.collect k i j r w e ps)) = None.
Proof.
  revert i j ps. induction k as [|k IH]; intros i j ps Hh; simpl; [reflexivity|].
  destruct (Hh i ltac:(lia)) as [h Hi]. rewrite Hi.
  destruct (_ || _); apply IH; intros i' Hi'; simpl; apply Hh; lia.
Qed.


End Waits.


(** C4.  In the bitmap build the count [apr_poll] reports is the return
    value of [select], which counts a descriptor once for every set it is
    ready in, and not the number of ready descriptors.  For one socket that
    asked for reading and writing and is ready for both, [select] returns
    two (its answer keeps the contract of [select]) and [apr_poll] succeeds
    with [*nsds = 2], one record being ready.  The event-list build reports
    one for the same record: there [poll] counts array elements. *)
Theorem bitmap_poll_counts_sets :
  let res := run handle3_both_os (@Bitmap.apr_poll unix_target [sockRW] (-1)) in
  let sibling := run first_both_os (@EventList.apr_poll unix_target [sockRW] (-1)) in
  (calls handle3_both_os (@Bitmap.apr_poll unix_target [sockRW] (-1))
     = [SelectCall false 4 8 8 0 None] /\
   select_contract 4 8 8 0 handle3_both /\
   res = (@APR_SUCCESS unix_target, Some 2, [set_rtnevents sockRW 5]) /\
   length (filter (fun a => rtnevents a <> 0) (snd res)) = 1%nat) /\
  (calls first_both_os (@EventList.apr_poll unix_target [sockRW] (-1))
     = [PollCall [(3, 5)] 1 (-1)] /\
   poll_contract 1 first_both /\
   sibling = (@APR_SUCCESS unix_target, 1, [set_rtnevents sockRW 5])).
Proof.
  cbn zeta. split.
  - split; [vm_compute; reflexivity|]. split; [vm_compute; repeat split|].
    split; vm_compute; reflexivity.
  - split; [vm_compute; reflexivity|]. split; vm_compute; reflexivity.
Qed.

(** ** Registering a record *)

Section Add.
Context `{!target}.

Lemma handle_of_file_win32 a :
  WIN32 = true -> desc_type a = APR_POLL_FILE -> Bitmap.handle_of a = inl APR_EBADF.
Proof. intros Hw Ha. unfold Bitmap.handle_of. rewrite Ha, Hw. reflexivity. Qed.

Lemma fill_rejects_file l rq :
  WIN32 = true -> Exists (fun a => desc_type a = APR_POLL_FILE) l ->
  Bitmap.fill l rq = inl APR_EBADF.
Proof.
  intros Hw Hex. revert rq. induction Hex as [a l Ha|a l _ IH]; intros rq; simpl.
  - rewrite (handle_of_file_win32 a Hw Ha). reflexivity.
  - destruct (Bitmap.handle_of a) as [st|h] eqn:Hh; [|apply IH].
    unfold Bitmap.handle_of in Hh. rewrite Hw in Hh.
    destruct (desc_type a); congruence.
Qed.

(** C7, as the code has it.  In the bitmap build under [WIN32], [apr_poll]
    returns [APR_EBADF] without waiting, and without touching the array or
    [*nsds], whenever a record of the array is a file; [apr_pollset_add]
    returns [APR_EBADF] for a file and leaves the count as it was, provided
    the pollset is not full (a full pollset answers [APR_ENOMEM] first). *)
Theorem file_not_supported (aprset : list apr_pollfd_t) (timeout : Z)
    (ps : Bitmap.apr_pollset_t) (d : apr_pollfd_t) :
  WIN32 = true ->
  (Exists (fun a => desc_type a = APR_POLL_FILE) aprset ->
   Bitmap.apr_poll aprset timeout = Return (APR_EBADF, None, aprset)) /\
  (desc_type d = APR_POLL_FILE -> Bitmap.nelts ps <> Bitmap.nalloc ps ->
   fst (Bitmap.apr_pollset_add ps d) = APR_EBADF /\
   Bitmap.nelts (snd (Bitmap.apr_pollset_add ps d)) = Bitmap.nelts ps) /\
  (desc_type d = APR_POLL_FILE -> Bitmap.nelts ps = Bitmap.nalloc ps ->
   Bitmap.apr_pollset_add ps d = (APR_ENOMEM, ps)).
Proof.
  intros Hw. split; [|split].
  - intros Hex. unfold Bitmap.apr_poll.
    rewrite (fill_rejects_file _ _ Hw Hex). reflexivity.
  - intros Hd Hroom. unfold Bitmap.apr_pollset_add.
    destruct (Z.eqb_spec (Bitmap.nelts ps) (Bitmap.nalloc ps)); [contradiction|].
    rewrite (handle_of_file_win32 d Hw Hd). split; reflexivity.
  - intros _ Hfull. unfold Bitmap.apr_pollset_add.
    rewrite (proj2 (Z.eqb_eq _ _) Hfull). reflexivity.
Qed.

Lemma FD_SET_ISSET h s : 0 <= h -> FD_ISSET h (FD_SET h s) = true.
Proof. intros Hh. unfold FD_ISSET, FD_SET. apply Z.setbit_eq, Hh. Qed.

Lemma set_if_ISSET reqev flag h s :
  Z.land reqev flag <> 0 -> 0 <= h -> FD_ISSET h (set_if reqev flag h s) = true.
Proof.
  intros Hf Hh. unfold set_if.
  destruct (Z.eqb_spec (Z.land reqev flag) 0); [contradiction|].
  apply FD_SET_ISSET, Hh.
Qed.

Lemma count_inv_succ n a : count_inv n a -> n < a -> Int.u32 (n + 1) = n + 1.
Proof. intros [Hn Ha] Hlt. apply u32_small. lia. Qed.

(** C3, as the code has it.  On a full pollset [apr_pollset_add] returns
    [APR_ENOMEM] and changes nothing.  With [nelts < nalloc] it stores the
    record at index [nelts] of [query_set], builds the native entry (the
    [pollfd] slot with the handle and the translated events; or the handle
    set in the read, write and exception sets as requested and [maxfd]
    raised to the handle if that is larger), increments [nelts] and returns
    [APR_SUCCESS]; except that the bitmap build under [WIN32] returns
    [APR_EBADF] for a file, with the count unchanged. *)
Theorem add_capacity (ps : EventList.apr_pollset_t) (psb : Bitmap.apr_pollset_t)
    (d : apr_pollfd_t) :
  eventlist_inv ps -> bitmap_inv psb ->
  let n := Z.to_nat (EventList.nelts ps) in
  let nb := Z.to_nat (Bitmap.nelts psb) in
  let r := EventList.apr_pollset_add ps d in
  let rb := Bitmap.apr_pollset_add psb d in
  let h := des (desc d) in
  (EventList.nelts ps = EventList.nalloc ps -> r = (APR_ENOMEM, ps)) /\
  (Bitmap.nelts psb = Bitmap.nalloc psb -> rb = (APR_ENOMEM, psb)) /\
  (EventList.nelts ps < EventList.nalloc ps ->
     fst r = APR_SUCCESS /\
     EventList.nelts (snd r) = EventList.nelts ps + 1 /\
     EventList.nalloc (snd r) = EventList.nalloc ps /\
     EventList.query_set (snd r) = <[n := d]> (EventList.query_set ps) /\
     EventList.query_set (snd r) !! n = Some d /\
     EventList.pollset (snd r) !! n =
       Some {| fd := h; events := get_event (reqevents d);
               revents := revents (EventList.pollset ps !!! n) |}) /\
  (Bitmap.nelts psb < Bitmap.nalloc psb ->
     ~ (WIN32 = true /\ desc_type d = APR_POLL_FILE) ->
     fst rb = APR_SUCCESS /\
     Bitmap.nelts (snd rb) = Bitmap.nelts psb + 1 /\
     Bitmap.nalloc (snd rb) = Bitmap.nalloc psb /\
     Bitmap.query_set (snd rb) = <[nb := d]> (Bitmap.query_set psb) /\
     Bitmap.query_set (snd rb) !! nb = Some d /\
     Bitmap.readset (snd rb) = set_if (reqevents d) APR_POLLIN h (Bitmap.readset psb) /\
     Bitmap.writeset (snd rb) = set_if (reqevents d) APR_POLLOUT h (Bitmap.writeset psb) /\
     Bitmap.exceptset (snd rb) = set_if (reqevents d) except_mask h (Bitmap.exceptset psb) /\
     (0 <= h ->
        (Z.land (reqevents d) APR_POLLIN <> 0 -> FD_ISSET h (Bitmap.readset (snd rb)) = true) /\
        (Z.land (reqevents d) APR_POLLOUT <> 0 -> FD_ISSET h (Bitmap.writeset (snd rb)) = true) /\
        (Z.land (reqevents d) except_mask <> 0 -> FD_ISSET h (Bitmap.exceptset (snd rb)) = true)) /\
     Bitmap.maxfd (snd rb) = Z.max (Bitmap.maxfd psb) (Int.int h)) /\
  (Bitmap.nelts psb < Bitmap.nalloc psb ->
     WIN32 = true -> desc_type d = APR_POLL_FILE ->
     fst rb = APR_EBADF /\ Bitmap.nelts (snd rb) = Bitmap.nelts psb).
Proof.
  intros (Hc & Hp & Hq & Hr) (Hcb & Hqb & Hrb). cbn zeta.
  split; [|split; [|split; [|split]]].
  - intros Hfull. unfold EventList.apr_pollset_add.
    rewrite (proj2 (Z.eqb_eq _ _) Hfull). reflexivity.
  - intros Hfull. unfold Bitmap.apr_pollset_add.
    rewrite (proj2 (Z.eqb_eq _ _) Hfull). reflexivity.
  - intros Hlt. unfold EventList.apr_pollset_add.
    destruct (Z.eqb_spec (EventList.nelts ps) (EventList.nalloc ps)); [lia|].
    assert (Hn : (Z.to_nat (EventList.nelts ps) < Z.to_nat (EventList.nalloc ps))%nat)
      by (destruct Hc; lia).
    cbn [fst snd EventList.nelts EventList.nalloc EventList.query_set
         EventList.pollset EventList.set_nelts EventList.set_pollset
         EventList.set_query_set fd events revents].
    repeat split.
    + apply (count_inv_succ _ _ Hc Hlt).
    + apply list_lookup_insert_eq. rewrite Hq. exact Hn.
    + rewrite list_lookup_insert_eq by (rewrite Hp; exact Hn).
      unfold handle. destruct (desc_type d); reflexivity.
  - intros Hlt Hnot. unfold Bitmap.apr_pollset_add.
    destruct (Z.eqb_spec (Bitmap.nelts psb) (Bitmap.nalloc psb)); [lia|].
    assert (Hn : (Z.to_nat (Bitmap.nelts psb) < Z.to_nat (Bitmap.nalloc psb))%nat)
      by (destruct Hcb; lia).
    assert (Hh : Bitmap.handle_of d = inr (des (desc d))).
    { unfold Bitmap.handle_of. destruct (desc_type d); [reflexivity|].
      destruct WIN32; [exfalso; apply Hnot; split; reflexivity|reflexivity]. }
    rewrite Hh.
    cbn [fst snd Bitmap.nelts Bitmap.nalloc Bitmap.query_set Bitmap.readset
         Bitmap.writeset Bitmap.exceptset Bitmap.maxfd Bitmap.set_nelts
         Bitmap.set_sets Bitmap.set_query_set].
    split; [reflexivity|]. split; [apply (count_inv_succ _ _ Hcb Hlt)|].
    split; [reflexivity|]. split; [reflexivity|].
    split; [apply list_lookup_insert_eq; rewrite Hqb; exact Hn|].
    split; [reflexivity|]. split; [reflexivity|]. split; [reflexivity|].
    split.
    + intros Hpos. repeat split; intros Hf; apply set_if_ISSET; assumption.
    + destruct (Z.ltb_spec (Bitmap.maxfd psb) (Int.int (des (desc d)))); lia.
  - intros Hlt Hw Hd. unfold Bitmap.apr_pollset_add.
    destruct (Z.eqb_spec (Bitmap.nelts psb) (Bitmap.nalloc psb)); [lia|].
    rewrite (handle_of_file_win32 d Hw Hd). split; reflexivity.
Qed.

End Add.

Lemma file_not_supported_witness :
  @Bitmap.apr_poll win32_target [sockA; fileF] 0 = Return (9, None, [sockA; fileF]) /\
  fst (@Bitmap.apr_pollset_add win32_target win32_empty fileF) = 9.
Proof.
  destruct (@file_not_supported win32_target [sockA; fileF] 0 win32_empty fileF eq_refl)
    as (Hpoll & Hadd & _).
  split.
  - apply Hpoll. right. left. reflexivity.
  - apply Hadd; [reflexivity|]. simpl. lia.
Defined.

(** C7 as stated fails on a full pollset: the file is turned away there with
    [APR_ENOMEM], the capacity error, and not with [APR_EBADF]. *)
Lemma file_on_full_pollset :
  desc_type fileF = APR_POLL_FILE /\
  @WIN32 win32_target = true /\
  fst (@Bitmap.apr_pollset_add win32_target win32_full fileF) = @APR_ENOMEM win32_target /\
  fst (@Bitmap.apr_pollset_add win32_target win32_full fileF) <> @APR_EBADF win32_target.
Proof. repeat split. vm_compute. discriminate. Qed.

Lemma add_capacity_witness :
  eventlist_inv (snd (@EventList.apr_pollset_create unix_target 2 0)) /\
  bitmap_inv (snd (@Bitmap.apr_pollset_create unix_target 2 0)) /\
  fst (@EventList.apr_pollset_add unix_target
         (snd (@EventList.apr_pollset_create unix_target 2 0)) sockA) = 0 /\
  Bitmap.nelts (snd (@Bitmap.apr_pollset_add unix_target
         (snd (@Bitmap.apr_pollset_create unix_target 2 0)) sockA)) = 1.
Proof.
  assert (He : eventlist_inv (snd (@EventList.apr_pollset_create unix_target 2 0))).
  { repeat split; simpl; lia. }
  assert (Hb : bitmap_inv (snd (@Bitmap.apr_pollset_create unix_target 2 0))).
  { repeat split; simpl; lia. }
  destruct (@add_capacity unix_target _ _ sockA He Hb) as (_ & _ & Hev & Hbm & _).
  split; [exact He|]. split; [exact Hb|]. split.
  - apply Hev. simpl. lia.
  - apply Hbm; [simpl; lia|]. intros [Hw _]. discriminate Hw.
Defined.

(** C3 as stated fails in the bitmap build under [WIN32]: the pollset has
    room, and yet a file is not registered. *)
Lemma add_file_below_capacity :
  @bitmap_inv win32_empty /\
  Bitmap.nelts win32_empty < Bitmap.nalloc win32_empty /\
  fst (@Bitmap.apr_pollset_add win32_target win32_empty fileF) <> @APR_SUCCESS win32_target /\
  Bitmap.nelts (snd (@Bitmap.apr_pollset_add win32_target win32_empty fileF))
    = Bitmap.nelts win32_empty.
Proof.
  split; [repeat split; simpl; lia|]. split; [simpl; lia|].
  split; [vm_compute; discriminate|reflexivity].
Qed.

(** ** Removing a descriptor *)

Lemma count_match_bounds d qs i k : 0 <= count_match d qs i k <= Z.of_nat k.
Proof.
  revert i. induction k as [|k IH]; intros i; simpl count_match; [lia|].
  specialize (IH (S i)). destruct (same_desc d (qs !!! i)); lia.
Qed.

Lemma count_match_insert d (qs : list apr_pollfd_t) dst x i k :
  (dst < i)%nat -> count_match d (<[dst := x]> qs) i k = count_match d qs i k.
Proof.
  revert i. induction k as [|k IH]; intros i Hlt; simpl; [reflexivity|].
  rewrite list_lookup_total_insert_ne by lia. rewrite IH by lia. reflexivity.
Qed.

Section Remove.
Context `{!target}.

Lemma eventlist_remove_rest_count k i dst d ps :
  (dst < i)%nat -> Z.of_nat k <= EventList.nelts ps < 2 ^ 32 ->
  EventList.nelts (EventList.remove_rest k i dst d ps)
    = EventList.nelts ps - count_match d (EventList.query_set ps) i k /\
  EventList.nalloc (EventList.remove_rest k i dst d ps) = EventList.nalloc ps.
Proof.
  revert i ps. induction k as [|k IH]; intros i ps Hlt Hn; simpl; [split; lia|].
  destruct (same_desc d (EventList.query_set ps !!! i)) eqn:Hm.
  - destruct (IH (S i) (EventList.set_nelts ps (Int.u32 (EventList.nelts ps - 1))))
      as [H1 H2]; [lia|simpl; rewrite u32_small; lia|].
    rewrite H1, H2. simpl. rewrite u32_small by lia. split; [lia|reflexivity].
  - match goal with
    | |- context [EventList.remove_rest k (S i) dst d ?q] =>
        destruct (IH (S i) q) as [H1 H2]; [lia|simpl; lia|]
    end.
    rewrite H1, H2. simpl. rewrite count_match_insert by lia. split; [lia|reflexivity].
Qed.

Lemma bitmap_remove_rest_count k i dst d ps :
  (dst < i)%nat -> Z.of_nat k <= Bitmap.nelts ps < 2 ^ 32 ->
  Bitmap.nelts (Bitmap.remove_rest k i dst d ps)
    = Bitmap.nelts ps - count_match d (Bitmap.query_set ps) i k /\
  Bitmap.nalloc (Bitmap.remove_rest k i dst d ps) = Bitmap.nalloc ps.
Proof.
  revert i ps. induction k as [|k IH]; intros i ps Hlt Hn; simpl; [split; lia|].
  destruct (same_desc d (Bitmap.query_set ps !!! i)) eqn:Hm.
  - destruct (IH (S i) (Bitmap.set_nelts ps (Int.u32 (Bitmap.nelts ps - 1))))
      as [H1 H2]; [lia|simpl; rewrite u32_small; lia|].
    rewrite H1, H2. simpl. rewrite u32_small by lia. split; [lia|reflexivity].
  - match goal with
    | |- context [Bitmap.remove_rest k (S i) dst d ?q] =>
        destruct (IH (S i) q) as [H1 H2]; [lia|simpl; lia|]
    end.
    rewrite H1, H2. simpl. rewrite count_match_insert by lia. split; [lia|reflexivity].
Qed.

Lemma eventlist_remove_from k i d ps :
  (i + k)%nat = Z.to_nat (EventList.nelts ps) ->
  count_inv (EventList.nelts ps) (EventList.nalloc ps) ->
  let r := EventList.remove_from k i d ps in
  let m := count_match d (EventList.query_set ps) i k in
  EventList.nalloc (snd r) = EventList.nalloc ps /\
  EventList.nelts (snd r) = EventList.nelts ps - m /\
  (m = 0 -> r = (APR_NOTFOUND, ps)) /\
  (0 < m -> fst r = APR_SUCCESS).
Proof.
  revert i. induction k as [|k IH]; intros i Hik [Hn Ha]; cbn zeta; simpl.
  - repeat split; lia.
  - pose proof (count_match_bounds d (EventList.query_set ps) (S i) k) as Hb.
    destruct (same_desc d (EventList.query_set ps !!! i)) eqn:Hm.
    + replace (Z.to_nat (EventList.nelts ps) - S i)%nat with k by lia.
      destruct (eventlist_remove_rest_count k (S i) i d
                  (EventList.set_nelts ps (Int.u32 (EventList.nelts ps - 1))))
        as [H1 H2]; [lia|simpl; rewrite u32_small; lia|].
      cbn [snd fst EventList.nalloc EventList.nelts].
      rewrite H1, H2. cbn [EventList.nelts EventList.nalloc EventList.query_set EventList.set_nelts].
      rewrite u32_small by lia.
      repeat split; lia.
    + destruct (IH (S i)) as (H1 & H2 & H3 & H4); [lia|split; assumption|].
      cbn zeta in *. rewrite H1, H2. repeat split; try lia.
      intros H0. apply H3. lia.
Qed.

Lemma bitmap_remove_from k i h d ps :
  (i + k)%nat = Z.to_nat (Bitmap.nelts ps) ->
  count_inv (Bitmap.nelts ps) (Bitmap.nalloc ps) ->
  let r := Bitmap.remove_from k i h d ps in
  let m := count_match d (Bitmap.query_set ps) i k in
  Bitmap.nalloc (snd r) = Bitmap.nalloc ps /\
  Bitmap.nelts (snd r) = Bitmap.nelts ps - m /\
  (m = 0 -> r = (APR_NOTFOUND, ps)) /\
  (0 < m -> fst r = APR_SUCCESS).
Proof.
  revert i. induction k as [|k IH]; intros i Hik [Hn Ha]; cbn zeta; simpl.
  - repeat split; lia.
  - pose proof (count_match_bounds d (Bitmap.query_set ps) (S i) k) as Hb.
    destruct (same_desc d (Bitmap.query_set ps !!! i)) eqn:Hm.
    + replace (Z.to_nat (Bitmap.nelts ps) - S i)%nat with k by lia.
      destruct (bitmap_remove_rest_count k (S i) i d
                  (Bitmap.set_nelts ps (Int.u32 (Bitmap.nelts ps - 1))))
        as [H1 H2]; [lia|simpl; rewrite u32_small; lia|].
      cbn [snd fst Bitmap.nalloc Bitmap.nelts Bitmap.set_sets].
      rewrite H1, H2. cbn [Bitmap.nelts Bitmap.nalloc Bitmap.query_set Bitmap.set_nelts].
      rewrite u32_small by lia.
      repeat split; lia.
    + destruct (IH (S i)) as (H1 & H2 & H3 & H4); [lia|split; assumption|].
      cbn zeta in *. rewrite H1, H2. repeat split; try lia.
      intros H0. apply H3. lia.
Qed.

(** A removal that finds no registered record of the descriptor returns
    [APR_NOTFOUND] and changes nothing; one that finds a record returns
    [APR_SUCCESS]. *)
Lemma eventlist_remove_status ps d :
  count_inv (EventList.nelts ps) (EventList.nalloc ps) ->
  (matches d (EventList.nelts ps) (EventList.query_set ps) = 0 ->
   EventList.apr_pollset_remove ps d = (APR_NOTFOUND, ps)) /\
  (0 < matches d (EventList.nelts ps) (EventList.query_set ps) ->
   fst (EventList.apr_pollset_remove ps d) = APR_SUCCESS).
Proof.
  intros Hc. unfold EventList.apr_pollset_remove, matches.
  destruct (eventlist_remove_from (Z.to_nat (EventList.nelts ps)) 0 d ps)
    as (_ & _ & H3 & H4); [lia|exact Hc|].
  split; assumption.
Qed.

Lemma bitmap_remove_status ps d :
  count_inv (Bitmap.nelts ps) (Bitmap.nalloc ps) ->
  (matches d (Bitmap.nelts ps) (Bitmap.query_set ps) = 0 ->
   Bitmap.apr_pollset_remove ps d = (APR_NOTFOUND, ps)) /\
  (0 < matches d (Bitmap.nelts ps) (Bitmap.query_set ps) ->
   fst (Bitmap.apr_pollset_remove ps d) = APR_SUCCESS).
Proof.
  intros Hc. unfold Bitmap.apr_pollset_remove, matches.
  destruct (bitmap_remove_from (Z.to_nat (Bitmap.nelts ps)) 0 (handle d) d ps)
    as (_ & _ & H3 & H4); [lia|exact Hc|].
  split; assumption.
Qed.

Lemma eventlist_collect_frame k i j ps :
  EventList.nelts (snd (EventList.collect k i j ps)) = EventList.nelts ps /\
  EventList.nalloc (snd (EventList.collect k i j ps)) = EventList.nalloc ps /\
  EventList.query_set (snd (EventList.collect k i j ps)) = EventList.query_set ps /\
  EventList.pollset (snd (EventList.collect k i j ps)) = EventList.pollset ps.
Proof.
  revert i j ps. induction k as [|k IH]; intros i j ps; simpl; [auto|].
  destruct (_ =? 0); [apply IH|].
  match goal with
  | |- context [EventList.collect k (S i) (S j) ?q] =>
      destruct (IH (S i) (S j) q) as (H1 & H2 & H3 & H4)
  end.
  simpl in *. auto.
Qed.

Lemma eventlist_create_count size p :
  0 <= size < 2 ^ 32 ->
  let c := snd (EventList.apr_pollset_create size p) in
  EventList.nelts c = 0 /\ EventList.nalloc c = size /\
  count_inv (EventList.nelts c) (EventList.nalloc c).
Proof. intros Hs. simpl. unfold count_inv. lia. Qed.

Lemma eventlist_add_count ps d :
  count_inv (EventList.nelts ps) (EventList.nalloc ps) ->
  let a := snd (EventList.apr_pollset_add ps d) in
  count_inv (EventList.nelts a) (EventList.nalloc a) /\
  EventList.nalloc a = EventList.nalloc ps /\
  (EventList.nelts a = EventList.nelts ps \/
   (EventList.nelts ps < EventList.nalloc ps /\ EventList.nelts a = EventList.nelts ps + 1)).
Proof.
  intros Hc. cbn zeta. unfold EventList.apr_pollset_add.
  destruct (Z.eqb_spec (EventList.nelts ps) (EventList.nalloc ps)); [solve [auto]|].
  simpl. destruct Hc as [Hn Ha]. rewrite u32_small by lia.
  unfold count_inv. lia.
Qed.

Lemma eventlist_remove_count ps d :
  count_inv (EventList.nelts ps) (EventList.nalloc ps) ->
  let r := snd (EventList.apr_pollset_remove ps d) in
  let m := matches d (EventList.nelts ps) (EventList.query_set ps) in
  count_inv (EventList.nelts r) (EventList.nalloc r) /\
  EventList.nalloc r = EventList.nalloc ps /\
  0 <= m <= EventList.nelts ps /\
  EventList.nelts r = EventList.nelts ps - m.
Proof.
  intros Hc. cbn zeta. unfold EventList.apr_pollset_remove, matches.
  match goal with
  | |- context [EventList.remove_from ?k 0 d ps] =>
      destruct (eventlist_remove_from k 0 d ps) as (H1 & H2 & _); [lia|exact Hc|]
  end.
  cbn zeta in H1, H2. rewrite H1, H2.
  pose proof (count_match_bounds d (EventList.query_set ps) 0 (Z.to_nat (EventList.nelts ps))).
  destruct Hc as [Hn Ha]. unfold count_inv. lia.
Qed.

Lemma bitmap_create_count size p :
  0 <= size < 2 ^ 32 ->
  let c := snd (Bitmap.apr_pollset_create size p) in
  Bitmap.nelts c = 0 /\ Bitmap.nalloc c = size /\
  count_inv (Bitmap.nelts c) (Bitmap.nalloc c).
Proof. intros Hs. simpl. unfold count_inv. lia. Qed.

Lemma bitmap_add_count ps d :
  count_inv (Bitmap.nelts ps) (Bitmap.nalloc ps) ->
  let a := snd (Bitmap.apr_pollset_add ps d) in
  count_inv (Bitmap.nelts a) (Bitmap.nalloc a) /\
  Bitmap.nalloc a = Bitmap.nalloc ps /\
  (Bitmap.nelts a = Bitmap.nelts ps \/
   (Bitmap.nelts ps < Bitmap.nalloc ps /\ Bitmap.nelts a = Bitmap.nelts ps + 1)).
Proof.
  intros Hc. cbn zeta. unfold Bitmap.apr_pollset_add.
  destruct (Z.eqb_spec (Bitmap.nelts ps) (Bitmap.nalloc ps)); [solve [auto]|].
    destruct (Bitmap.handle_of d); [solve [auto]|].
  simpl. destruct Hc as [Hn Ha]. rewrite u32_small by lia.
  unfold count_inv. lia.
Qed.

Lemma bitmap_remove_count ps d :
  count_inv (Bitmap.nelts ps) (Bitmap.nalloc ps) ->
  let r := snd (Bitmap.apr_pollset_remove ps d) in
  let m := matches d (Bitmap.nelts ps) (Bitmap.query_set ps) in
  count_inv (Bitmap.nelts r) (Bitmap.nalloc r) /\
  Bitmap.nalloc r = Bitmap.nalloc ps /\
  0 <= m <= Bitmap.nelts ps /\
  Bitmap.nelts r = Bitmap.nelts ps - m.
Proof.
  intros Hc. cbn zeta. unfold Bitmap.apr_pollset_remove, matches.
  match goal with
  | |- context [Bitmap.remove_from ?k 0 ?h d ps] =>
      destruct (bitmap_remove_from k 0 h d ps) as (H1 & H2 & _); [lia|exact Hc|]
  end.
  cbn zeta in H1, H2. rewrite H1, H2.
  pose proof (count_match_bounds d (Bitmap.query_set ps) 0 (Z.to_nat (Bitmap.nelts ps))).
  destruct Hc as [Hn Ha]. unfold count_inv. lia.
Qed.

Lemma eventlist_poll_count sys ps timeout :
  let q := snd (run sys (EventList.apr_pollset_poll ps timeout)) in
  EventList.nelts q = EventList.nelts ps /\ EventList.nalloc q = EventList.nalloc ps.
Proof.
  simpl. destruct (_ <? 0); [auto|]. destruct (_ =? 0); [auto|].
  simpl.
  match goal with
  | |- context [EventList.collect ?k ?i ?j ?q] =>
      destruct (eventlist_collect_frame k i j q) as (H1 & H2 & _)
  end.
  rewrite H1, H2. auto.
Qed.

Lemma bitmap_poll_count sys ps timeout :
  let q := snd (run sys (Bitmap.apr_pollset_poll ps timeout)) in
  Bitmap.nelts q = Bitmap.nelts ps /\ Bitmap.nalloc q = Bitmap.nalloc ps.
Proof.
  simpl. destruct (_ <? 0); [auto|]. destruct (_ =? 0); [auto|].
  match goal with
  | |- context [Bitmap.collect ?k ?i ?j ?r ?w ?e ps] =>
      pose proof (bitmap_collect_query_set k i j r w e ps) as (_ & H2 & H3);
      destruct (Bitmap.collect k i j r w e ps) as [[[st|] j'] q]
  end; simpl in *; auto.
Qed.

(** C9.  [0 <= nelts <= nalloc] is kept by every operation of both builds:
    [apr_pollset_create] starts with [nelts = 0]; [apr_pollset_add] adds
    one only where [nelts < nalloc] held; [apr_pollset_remove] subtracts the
    number of registered records that match, once each;
    [apr_pollset_poll] and [apr_pollset_destroy] leave [nelts] and [nalloc]
    alone. *)
Theorem count_invariant (ps : EventList.apr_pollset_t) (psb : Bitmap.apr_pollset_t)
    (d : apr_pollfd_t) (size p timeout : Z) (sys : os) :
  count_inv (EventList.nelts ps) (EventList.nalloc ps) ->
  count_inv (Bitmap.nelts psb) (Bitmap.nalloc psb) ->
  0 <= size < 2 ^ 32 ->
  (let c := snd (EventList.apr_pollset_create size p) in
   EventList.nelts c = 0 /\ EventList.nalloc c = size /\
   count_inv (EventList.nelts c) (EventList.nalloc c)) /\
  (let a := snd (EventList.apr_pollset_add ps d) in
   count_inv (EventList.nelts a) (EventList.nalloc a) /\
   EventList.nalloc a = EventList.nalloc ps /\
   (EventList.nelts a = EventList.nelts ps \/
    (EventList.nelts ps < EventList.nalloc ps /\ EventList.nelts a = EventList.nelts ps + 1))) /\
  (let r := snd (EventList.apr_pollset_remove ps d) in
   let m := matches d (EventList.nelts ps) (EventList.query_set ps) in
   count_inv (EventList.nelts r) (EventList.nalloc r) /\
   EventList.nalloc r = EventList.nalloc ps /\
   0 <= m <= EventList.nelts ps /\
   EventList.nelts r = EventList.nelts ps - m) /\
  (let q := snd (run sys (EventList.apr_pollset_poll ps timeout)) in
   EventList.nelts q = EventList.nelts ps /\ EventList.nalloc q = EventList.nalloc ps) /\
  snd (EventList.apr_pollset_destroy ps) = ps /\
  (let c := snd (Bitmap.apr_pollset_create size p) in
   Bitmap.nelts c = 0 /\ Bitmap.nalloc c = size /\
   count_inv (Bitmap.nelts c) (Bitmap.nalloc c)) /\
  (let a := snd (Bitmap.apr_pollset_add psb d) in
   count_inv (Bitmap.nelts a) (Bitmap.nalloc a) /\
   Bitmap.nalloc a = Bitmap.nalloc psb /\
   (Bitmap.nelts a = Bitmap.nelts psb \/
    (Bitmap.nelts psb < Bitmap.nalloc psb /\ Bitmap.nelts a = Bitmap.nelts psb + 1))) /\
  (let r := snd (Bitmap.apr_pollset_remove psb d) in
   let m := matches d (Bitmap.nelts psb) (Bitmap.query_set psb) in
   count_inv (Bitmap.nelts r) (Bitmap.nalloc r) /\
   Bitmap.nalloc r = Bitmap.nalloc psb /\
   0 <= m <= Bitmap.nelts psb /\
   Bitmap.nelts r = Bitmap.nelts psb - m) /\
  (let q := snd (run sys (Bitmap.apr_pollset_poll psb timeout)) in
   Bitmap.nelts q = Bitmap.nelts psb /\ Bitmap.nalloc q = Bitmap.nalloc psb) /\
  snd (Bitmap.apr_pollset_destroy psb) = psb.
Proof.
  intros He Hb Hsize.
  split; [apply eventlist_create_count, Hsize|].
  split; [apply eventlist_add_count, He|].
  split; [apply eventlist_remove_count, He|].
  split; [apply eventlist_poll_count|].
  split; [reflexivity|].
  split; [apply bitmap_create_count, Hsize|].
  split; [apply bitmap_add_count, Hb|].
  split; [apply bitmap_remove_count, Hb|].
  split; [apply bitmap_poll_count|].
  reflexivity.
Qed.

End Remove.

Lemma count_invariant_witness :
  count_inv 2 3 /\
  EventList.nelts (snd (@EventList.apr_pollset_remove unix_target
                          (@eventlist_of unix_target 3 [sockA; sockB]) sockA)) = 1 /\
  Bitmap.nelts (snd (@Bitmap.apr_pollset_add unix_target
                       (@bitmap_of unix_target 3 [sockA; sockB]) sockC)) = 3.
Proof.
  assert (Hc : count_inv 2 3) by (unfold count_inv; lia).
  destruct (@count_invariant unix_target
              (@eventlist_of unix_target 3 [sockA; sockB])
              (@bitmap_of unix_target 3 [sockA; sockB])
              sockA 3 0 0 idle_os Hc Hc ltac:(lia))
    as (_ & _ & (_ & _ & _ & Hrem) & _).
  destruct (@count_invariant unix_target
              (@eventlist_of unix_target 3 [sockA; sockB])
              (@bitmap_of unix_target 3 [sockA; sockB])
              sockC 3 0 0 idle_os Hc Hc ltac:(lia))
    as (_ & _ & _ & _ & _ & _ & (_ & _ & [Hadd|[_ Hadd]]) & _).
  - split; [exact Hc|]. split; [exact Hrem|]. discriminate Hadd.
  - split; [exact Hc|]. split; [exact Hrem|]. exact Hadd.
Defined.

(** C1.  The compaction of [apr_pollset_remove] never advances [dst]: every
    survivor after the first match is copied to the slot of the first match,
    one over the other.  Removing [sockA] from the registry
    [sockA; sockB; sockC] leaves [sockC; sockB]: the count drops by one, the
    order of the survivors is lost.  Removing it from
    [sockA; sockB; sockA; sockC; sockD] leaves [sockD; sockB; sockA]: the
    count drops by two, but the second copy of [sockA] stays registered and
    [sockC] is gone, where [survivors] would be [sockB; sockC; sockD].  The
    bitmap build does the same. *)
Theorem remove_does_not_compact :
  let ps3 := @eventlist_of unix_target 3 [sockA; sockB; sockC] in
  let ps5 := @eventlist_of unix_target 5 [sockA; sockB; sockA; sockC; sockD] in
  let pb5 := @bitmap_of unix_target 5 [sockA; sockB; sockA; sockC; sockD] in
  let r3 := @EventList.apr_pollset_remove unix_target ps3 sockA in
  let r5 := @EventList.apr_pollset_remove unix_target ps5 sockA in
  let b5 := @Bitmap.apr_pollset_remove unix_target pb5 sockA in
  registered (EventList.nelts ps3) (EventList.query_set ps3) = [sockA; sockB; sockC] /\
  fst r3 = @APR_SUCCESS unix_target /\
  registered (EventList.nelts (snd r3)) (EventList.query_set (snd r3)) = [sockC; sockB] /\
  survivors sockA [sockA; sockB; sockC] = [sockB; sockC] /\
  registered (EventList.nelts ps5) (EventList.query_set ps5)
    = [sockA; sockB; sockA; sockC; sockD] /\
  fst r5 = @APR_SUCCESS unix_target /\
  registered (EventList.nelts (snd r5)) (EventList.query_set (snd r5))
    = [sockD; sockB; sockA] /\
  map (fun q => fd q) (take 3 (EventList.pollset (snd r5))) = [6; 4; 3] /\
  registered (Bitmap.nelts (snd b5)) (Bitmap.query_set (snd b5)) = [sockD; sockB; sockA] /\
  survivors sockA [sockA; sockB; sockA; sockC; sockD] = [sockB; sockC; sockD] /\
  fst (@EventList.apr_pollset_remove unix_target (snd r5) sockA) = @APR_SUCCESS unix_target.
Proof. vm_compute. repeat split. Qed.

(** ** The registry of the bitmap build

    Whatever holds of all registered records still holds after a removal,
    and the registry of a [WIN32] build never takes in a file: every
    pollset built with [apr_pollset_create], [apr_pollset_add] and
    [apr_pollset_remove] satisfies [sockets_only]. *)

Section Registry.
Context `{!target}.

Lemma bitmap_remove_rest_keeps (P : apr_pollfd_t -> Prop) k i dst d ps N :
  (dst < i)%nat -> (i + k <= N <= length (Bitmap.query_set ps))%nat ->
  Forall P (take N (Bitmap.query_set ps)) ->
  Forall P (take N (Bitmap.query_set (Bitmap.remove_rest k i dst d ps))).
Proof.
  revert i ps. induction k as [|k IH]; intros i ps Hd Hn HP; [exact HP|].
  cbn [Bitmap.remove_rest].
  destruct (same_desc d (Bitmap.query_set ps !!! i)).
  - apply IH; [lia|simpl; lia|exact HP].
  - apply IH; [lia|simpl; rewrite length_insert; lia|].
    cbn [Bitmap.query_set Bitmap.set_query_set].
    rewrite take_insert_lt by lia. apply Forall_insert; [exact HP|].
    rewrite <- (lookup_total_take_lt _ N) by lia.
    apply Forall_lookup_total_1; [exact HP|].
    rewrite length_take. lia.
Qed.

Lemma bitmap_remove_from_keeps (P : apr_pollfd_t -> Prop) k i h d ps :
  (i + k)%nat = Z.to_nat (Bitmap.nelts ps) ->
  (Z.to_nat (Bitmap.nelts ps) <= length (Bitmap.query_set ps))%nat ->
  Forall P (take (Z.to_nat (Bitmap.nelts ps)) (Bitmap.query_set ps)) ->
  Forall P (take (Z.to_nat (Bitmap.nelts ps))
              (Bitmap.query_set (snd (Bitmap.remove_from k i h d ps)))).
Proof.
  revert i. induction k as [|k IH]; intros i Hik Hlen HP; [exact HP|].
  cbn [Bitmap.remove_from].
  destruct (same_desc d (Bitmap.query_set ps !!! i)); [|apply IH; [lia|lia|exact HP]].
  cbn [snd Bitmap.query_set Bitmap.set_sets].
  apply bitmap_remove_rest_keeps; [lia|simpl; lia|exact HP].
Qed.

Lemma bitmap_remove_keeps (P : apr_pollfd_t -> Prop) ps d :
  bitmap_inv ps ->
  let ps' := snd (Bitmap.apr_pollset_remove ps d) in
  Forall P (registered (Bitmap.nelts ps) (Bitmap.query_set ps)) ->
  Forall P (registered (Bitmap.nelts ps') (Bitmap.query_set ps')).
Proof.
  intros (Hc & Hq & _) ps' HP. unfold registered in *. unfold sized in Hq.
  destruct (bitmap_remove_count ps d Hc) as (_ & _ & Hm & Hn).
  cbn zeta in Hm, Hn. fold ps' in Hn.
  assert (Hle : (Z.to_nat (Bitmap.nelts ps') <= Z.to_nat (Bitmap.nelts ps))%nat) by lia.
  rewrite <- (Nat.min_l _ _ Hle), <- take_take. apply Forall_take.
  unfold ps', Bitmap.apr_pollset_remove.
  apply bitmap_remove_from_keeps; [lia| |exact HP].
  destruct Hc as [Hc1 Hc2]. lia.
Qed.

Lemma bitmap_create_sockets_only size p :
  let ps := snd (Bitmap.apr_pollset_create size p) in
  sockets_only (registered (Bitmap.nelts ps) (Bitmap.query_set ps)).
Proof. intros ps _. constructor. Qed.

Lemma bitmap_add_sockets_only ps d :
  bitmap_inv ps ->
  let ps' := snd (Bitmap.apr_pollset_add ps d) in
  sockets_only (registered (Bitmap.nelts ps) (Bitmap.query_set ps)) ->
  sockets_only (registered (Bitmap.nelts ps') (Bitmap.query_set ps')).
Proof.
  intros ([[Hn0 Hn] Ha] & Hq & _) ps' Hs Hw. specialize (Hs Hw).
  unfold sized in Hq. unfold ps', Bitmap.apr_pollset_add, registered in *.
  destruct (Z.eqb_spec (Bitmap.nelts ps) (Bitmap.nalloc ps)); [exact Hs|].
  destruct (Bitmap.handle_of d) as [st|h] eqn:Hh.
  - cbn [snd Bitmap.nelts Bitmap.query_set Bitmap.set_query_set].
    rewrite take_insert_ge by lia. exact Hs.
  - cbn [snd Bitmap.nelts Bitmap.query_set Bitmap.set_query_set Bitmap.set_sets
         Bitmap.set_nelts].
    rewrite u32_small by lia.
    replace (Z.to_nat (Bitmap.nelts ps + 1)) with (S (Z.to_nat (Bitmap.nelts ps))) by lia.
    rewrite take_insert_next by lia.
    apply Forall_app. split; [exact Hs|]. constructor; [|constructor].
    unfold Bitmap.handle_of in Hh. rewrite Hw in Hh.
    destruct (desc_type d); [reflexivity|discriminate].
Qed.

Lemma bitmap_remove_sockets_only ps d :
  bitmap_inv ps ->
  let ps' := snd (Bitmap.apr_pollset_remove ps d) in
  sockets_only (registered (Bitmap.nelts ps) (Bitmap.query_set ps)) ->
  sockets_only (registered (Bitmap.nelts ps') (Bitmap.query_set ps')).
Proof.
  intros Hinv ps' Hs Hw. apply (bitmap_remove_keeps _ ps d Hinv), Hs, Hw.
Qed.

End Registry.

(** ** Collecting the ready records *)

Section Collect.
Context `{!target}.

Lemma set_rtnevents_twice a u v : set_rtnevents (set_rtnevents a u) v = set_rtnevents a v.
Proof. reflexivity. Qed.

Lemma omap_seq_S {A : Type} (f : nat -> option A) i k :
  omap f (seq i (S k)) =
  match f i with
  | Some y => y :: omap f (seq (S i) k)
  | None => omap f (seq (S i) k)
  end.
Proof. reflexivity. Qed.

Lemma eventlist_collect_spec k i j ps :
  (j <= i)%nat -> (i + k <= length (EventList.result_set ps))%nat ->
  let out := omap (eventlist_ready_at (EventList.query_set ps)
                     (fun i' => revents (EventList.pollset ps !!! i'))) (seq i k) in
  fst (EventList.collect k i j ps) = (j + length out)%nat /\
  EventList.result_set (snd (EventList.collect k i j ps))
    = take j (EventList.result_set ps) ++ out
      ++ drop (j + length out) (EventList.result_set ps).
Proof.
  revert i j ps. induction k as [|k IH]; intros i j ps Hji Hlen; cbn zeta.
  - simpl. rewrite Nat.add_0_r, take_drop. split; reflexivity.
  - rewrite omap_seq_S. cbn [EventList.collect].
    destruct (eventlist_ready_at (EventList.query_set ps)
                (fun i' => revents (EventList.pollset ps !!! i')) i) as [x|] eqn:Hf;
      unfold eventlist_ready_at in Hf;
      destruct (revents (EventList.pollset ps !!! i) =? 0) eqn:Hz;
      try discriminate Hf.
    2: apply (IH (S i) j ps); lia.
    + injection Hf as Hx.
      assert (Hj : (j < length (EventList.result_set ps))%nat) by lia.
      cbn [EventList.query_set EventList.pollset EventList.result_set
           EventList.set_result_set].
      rewrite list_lookup_total_insert_eq by exact Hj.
      rewrite list_insert_insert_eq, Hx.
      match goal with
      | |- context [EventList.collect k (S i) (S j) ?q] =>
          destruct (IH (S i) (S j) q) as [H1 H2];
            [lia|simpl; rewrite length_insert; lia|]
      end.
      cbn [EventList.query_set EventList.pollset EventList.result_set
           EventList.set_result_set] in H1, H2.
      rewrite H1, H2.
      set (out := omap _ (seq (S i) k)).
      cbn [length].
      split; [lia|].
      rewrite take_insert_next by exact Hj.
      rewrite drop_insert_lt by lia.
      rewrite <- app_assoc. cbn [app].
      replace (S j + length out)%nat with (j + S (length out))%nat by lia.
      reflexivity.
Qed.

Lemma bitmap_collect_spec k i j r w e ps :
  (j <= i)%nat -> (i + k <= length (Bitmap.result_set ps))%nat ->
  (forall i', (i <= i' < i + k)%nat ->
     Bitmap.handle_of (Bitmap.query_set ps !!! i')
       = inr (des (desc (Bitmap.query_set ps !!! i')))) ->
  let out := omap (bitmap_ready_at (Bitmap.query_set ps) r w e) (seq i k) in
  fst (Bitmap.collect k i j r w e ps) = (None, (j + length out)%nat) /\
  Bitmap.result_set (snd (Bitmap.collect k i j r w e ps))
    = take j (Bitmap.result_set ps) ++ out
      ++ drop (j + length out) (Bitmap.result_set ps).
Proof.
  revert i j ps. induction k as [|k IH]; intros i j ps Hji Hlen Hh; cbn zeta.
  - simpl. rewrite Nat.add_0_r, take_drop. split; reflexivity.
  - rewrite omap_seq_S. cbn [Bitmap.collect]. rewrite (Hh i) by lia.
    destruct (bitmap_ready_at (Bitmap.query_set ps) r w e i) as [x|] eqn:Hf;
      unfold bitmap_ready_at in Hf; cbv zeta in Hf;
      destruct (FD_ISSET (des (desc (Bitmap.query_set ps !!! i))) r
                || FD_ISSET (des (desc (Bitmap.query_set ps !!! i))) w
                || FD_ISSET (des (desc (Bitmap.query_set ps !!! i))) e) eqn:Hz;
      try discriminate Hf.
    2: apply (IH (S i) j ps); [lia|lia|intros i' Hi'; apply Hh; lia].
    + injection Hf as Hx.
      assert (Hj : (j < length (Bitmap.result_set ps))%nat) by lia.
      cbn [Bitmap.query_set Bitmap.result_set Bitmap.set_result_set].
      rewrite list_lookup_total_insert_eq by exact Hj.
      rewrite list_insert_insert_eq.
      rewrite list_lookup_total_insert_eq by exact Hj.
      rewrite list_insert_insert_eq, set_rtnevents_twice, Hx.
      match goal with
      | |- context [Bitmap.collect k (S i) (S j) r w e ?q] =>
          destruct (IH (S i) (S j) q) as [H1 H2];
            [lia|simpl; rewrite length_insert; lia
            |intros i' Hi'; simpl; apply Hh; lia|]
      end.
      cbn [Bitmap.query_set Bitmap.result_set Bitmap.set_result_set] in H1, H2.
      rewrite H1, H2.
      set (out := omap _ (seq (S i) k)).
      cbn [length].
      split; [f_equal; lia|].
      rewrite take_insert_next by exact Hj.
      rewrite drop_insert_lt by lia.
      rewrite <- app_assoc. cbn [app].
      replace (S j + length out)%nat with (j + S (length out))%nat by lia.
      reflexivity.
Qed.

Lemma omap_seq_ext {A : Type} (f g : nat -> option A) i k :
  (forall i', (i <= i' < i + k)%nat -> f i' = g i') ->
  omap f (seq i k) = omap g (seq i k).
Proof.
  revert i. induction k as [|k IH]; intros i Hfg; [reflexivity|].
  rewrite !omap_seq_S, (Hfg i) by lia. rewrite (IH (S i)); [reflexivity|].
  intros i' Hi'. apply Hfg. lia.
Qed.

Lemma after_poll_revents ans nfds (l : list pollfd) i :
  (i < Z.to_nat nfds)%nat -> (i < length l)%nat ->
  revents (EventList.after_poll ans nfds l !!! i) = poll_revents ans i.
Proof.
  intros Hn Hl. unfold EventList.after_poll.
  destruct (lookup_lt_is_Some_2 l i Hl) as [q Hq].
  rewrite (list_lookup_total_correct _ i
             (if Z.of_nat i <? nfds then set_revents q (poll_revents ans i) else q)).
  - destruct (Z.ltb_spec (Z.of_nat i) nfds); [reflexivity|lia].
  - rewrite list_lookup_imap, Hq. reflexivity.
Qed.

Lemma eventlist_ready_length qs rev (l : list nat) :
  length (omap (eventlist_ready_at qs rev) l)
    = length (filter (fun i => rev i <> 0) l).
Proof.
  induction l as [|a l IH]; [reflexivity|].
  rewrite filter_cons. cbn [omap list_omap]. unfold eventlist_ready_at at 1.
  destruct (Z.eqb_spec (rev a) 0) as [Hz|Hz].
  - rewrite decide_False by (intros Hn; apply Hn, Hz). exact IH.
  - rewrite decide_True by exact Hz. cbn [length]. f_equal. exact IH.
Qed.

Lemma bitmap_pollset_poll_ready (psb : Bitmap.apr_pollset_t) (timeout : Z) :
  bitmap_inv psb ->
  sockets_only (registered (Bitmap.nelts psb) (Bitmap.query_set psb)) ->
  exists pipe nfds r w e tv k,
    Bitmap.apr_pollset_poll psb timeout = CallSelect pipe nfds r w e tv k /\
    forall ans, 0 < select_rv ans ->
      let ready := bitmap_ready (Bitmap.query_set psb) (select_read ans)
                     (select_write ans) (select_except ans)
                     (Z.to_nat (Bitmap.nelts psb)) in
      exists ps',
        k ans = Return (APR_SUCCESS, select_rv ans, None, ps') /\
        Bitmap.result_set ps'
          = ready ++ drop (length ready) (Bitmap.result_set psb) /\
        Bitmap.query_set ps' = Bitmap.query_set psb.
Proof.
  intros ([[Hbn0 Hbn] Hba] & Hbq & Hbr) Hsock. unfold sized in *.
  eexists _, _, _, _, _, _, _. split; [reflexivity|].
  intros ans Hrv. cbn beta zeta.
  destruct (Z.ltb_spec (select_rv ans) 0); [lia|].
  destruct (Z.eqb_spec (select_rv ans) 0); [lia|].
  destruct (bitmap_collect_spec (Z.to_nat (Bitmap.nelts psb)) 0 0
              (select_read ans) (select_write ans) (select_except ans) psb)
    as [H1 H2]; [lia|lia| |].
  { intros i' Hi'. apply (sockets_only_handle _ _ _ Hsock). lia. }
  destruct (bitmap_collect_query_set (Z.to_nat (Bitmap.nelts psb)) 0 0
              (select_read ans) (select_write ans) (select_except ans) psb)
    as (H3 & _).
  destruct (Bitmap.collect _ _ _ _ _ _ psb) as [[st j] ps'].
  cbn [fst snd] in *. injection H1 as -> _.
  eexists. split; [reflexivity|]. split; [exact H2|exact H3].
Qed.

(** What [apr_pollset_poll] leaves after a positive return of the native
    wait.  It succeeds and the first slots of [result_set] hold, in
    registration order, exactly the registered records whose native result
    is not zero, each with the translated result as its [rtnevents]; the
    slots behind them and [query_set] are untouched.  The count it reports
    is the value the native call returned: in the event-list build that is
    the number of slots filled whenever [poll] keeps its contract. *)
Lemma ready_subset (ps : EventList.apr_pollset_t) (psb : Bitmap.apr_pollset_t)
    (timeout : Z) :
  eventlist_inv ps -> bitmap_inv psb ->
  sockets_only (registered (Bitmap.nelts psb) (Bitmap.query_set psb)) ->
  (exists fds t k,
     EventList.apr_pollset_poll ps timeout = CallPoll fds (EventList.nelts ps) t k /\
     forall ans, 0 < poll_rv ans ->
       let ready := eventlist_ready (EventList.query_set ps) (poll_revents ans)
                      (Z.to_nat (EventList.nelts ps)) in
       exists ps',
         k ans = Return (APR_SUCCESS, poll_rv ans, Some (EventList.result_set ps'), ps') /\
         EventList.result_set ps'
           = ready ++ drop (length ready) (EventList.result_set ps) /\
         EventList.query_set ps' = EventList.query_set ps /\
         (poll_contract (EventList.nelts ps) ans ->
          poll_rv ans = Z.of_nat (length ready))) /\
  (exists pipe nfds r w e tv k,
     Bitmap.apr_pollset_poll psb timeout = CallSelect pipe nfds r w e tv k /\
     forall ans, 0 < select_rv ans ->
       let ready := bitmap_ready (Bitmap.query_set psb) (select_read ans)
                      (select_write ans) (select_except ans)
                      (Z.to_nat (Bitmap.nelts psb)) in
       exists ps',
         k ans = Return (APR_SUCCESS, select_rv ans, None, ps') /\
         Bitmap.result_set ps'
           = ready ++ drop (length ready) (Bitmap.result_set psb) /\
         Bitmap.query_set ps' = Bitmap.query_set psb).
Proof.
  intros ([[Hn0 Hn] Ha] & Hp & Hq & Hr) ([[Hbn0 Hbn] Hba] & Hbq & Hbr) Hsock.
  unfold sized in *. split.
  - eexists _, _, _. split; [reflexivity|].
    intros ans Hrv. cbn beta zeta.
    destruct (Z.ltb_spec (poll_rv ans) 0); [lia|].
    destruct (Z.eqb_spec (poll_rv ans) 0); [lia|].
    set (ps1 := EventList.set_pollset ps
                  (EventList.after_poll ans (EventList.nelts ps) (EventList.pollset ps))).
    destruct (eventlist_collect_spec (Z.to_nat (EventList.nelts ps)) 0 0 ps1)
      as [_ H2]; [lia|simpl; lia|].
    destruct (eventlist_collect_frame (Z.to_nat (EventList.nelts ps)) 0 0 ps1)
      as (_ & _ & H3 & _).
    cbn zeta in H2. cbn [take app Nat.add] in H2.
    assert (Hout : omap (eventlist_ready_at (EventList.query_set ps1)
                     (fun i' => revents (EventList.pollset ps1 !!! i')))
                     (seq 0 (Z.to_nat (EventList.nelts ps)))
                   = eventlist_ready (EventList.query_set ps) (poll_revents ans)
                       (Z.to_nat (EventList.nelts ps))).
    { unfold eventlist_ready. apply omap_seq_ext. intros i' Hi'.
      unfold eventlist_ready_at. simpl.
      rewrite after_poll_revents by lia. reflexivity. }
    rewrite Hout in H2.
    eexists. split; [reflexivity|]. split; [exact H2|]. split; [exact H3|].
    intros Hc. rewrite Hc. unfold eventlist_ready.
    rewrite eventlist_ready_length. reflexivity.
  - apply bitmap_pollset_poll_ready; [|exact Hsock].
    split; [split; [split|]|split]; assumption.
Qed.

End Collect.

(** Invariants of a concrete pollset, by computation. *)
Ltac concrete_inv :=
  repeat split; vm_compute; solve [reflexivity | discriminate | intros; discriminate].

Example ready_subset_first_and_third :
  eventlist_inv (@eventlist_of unix_target 3 [sockA; sockB; sockC]) /\
  exists fds t k ps',
    @EventList.apr_pollset_poll unix_target
      (@eventlist_of unix_target 3 [sockA; sockB; sockC]) (-1) = CallPoll fds 3 t k /\
    k first_and_third = Return (0, 2, Some (EventList.result_set ps'), ps') /\
    take 2 (EventList.result_set ps')
      = [set_rtnevents sockA 1; set_rtnevents sockC 1].
Proof.
  assert (He : eventlist_inv (@eventlist_of unix_target 3 [sockA; sockB; sockC])).
  { concrete_inv. }
  assert (Hb : bitmap_inv (@bitmap_of unix_target 3 [sockA; sockB; sockC])).
  { concrete_inv. }
  assert (Hs : @sockets_only unix_target
                 (registered (Bitmap.nelts (@bitmap_of unix_target 3 [sockA; sockB; sockC]))
                    (Bitmap.query_set (@bitmap_of unix_target 3 [sockA; sockB; sockC])))).
  { intros Hw. discriminate Hw. }
  split; [exact He|].
  destruct (@ready_subset unix_target _ _ (-1) He Hb Hs)
    as [(fds & t & k & Hk & Hans) _].
  destruct (Hans first_and_third ltac:(simpl; lia)) as (ps' & Hret & Hrs & _).
  exists fds, t, k, ps'. split; [exact Hk|]. split; [exact Hret|].
  rewrite Hrs. reflexivity.
Defined.

(** C2.  In the bitmap build the count [apr_pollset_poll] reports is the
    return value of [select], not the number of [result_set] slots it
    filled, and [*descriptors] is never assigned.  With the same socket
    registered twice and its handle readable, [select] returns one, two
    slots are filled and one is reported.  With one socket that asked for
    reading and writing and is ready for both, [select] returns two, one
    slot is filled and two are reported.  Both answers keep the contract of
    [select]. *)
Theorem bitmap_count_is_not_slots :
  let twice := @bitmap_of unix_target 2 [sockA; sockA] in
  let res2 := run handle3_os (@Bitmap.apr_pollset_poll unix_target twice (-1)) in
  let once := @bitmap_of unix_target 1 [sockRW] in
  let res1 := run handle3_both_os (@Bitmap.apr_pollset_poll unix_target once (-1)) in
  (bitmap_inv twice /\
   calls handle3_os (@Bitmap.apr_pollset_poll unix_target twice (-1))
     = [SelectCall false 4 8 0 0 None] /\
   select_contract 4 8 0 0 handle3_readable /\
   res2 = (@APR_SUCCESS unix_target, 1, None, snd res2) /\
   Bitmap.result_set (snd res2) = [set_rtnevents sockA 1; set_rtnevents sockA 1] /\
   @bitmap_ready unix_target (Bitmap.query_set twice) 8 0 0 2
     = [set_rtnevents sockA 1; set_rtnevents sockA 1]) /\
  (bitmap_inv once /\
   calls handle3_both_os (@Bitmap.apr_pollset_poll unix_target once (-1))
     = [SelectCall false 4 8 8 0 None] /\
   select_contract 4 8 8 0 handle3_both /\
   res1 = (@APR_SUCCESS unix_target, 2, None, snd res1) /\
   Bitmap.result_set (snd res1) = [set_rtnevents sockRW 5] /\
   @bitmap_ready unix_target (Bitmap.query_set once) 8 8 0 1
     = [set_rtnevents sockRW 5]).
Proof.
  cbn zeta. split.
  - split; [concrete_inv|]. split; [vm_compute; reflexivity|].
    split; [vm_compute; repeat split|].
    repeat (split; [vm_compute; reflexivity|]). vm_compute; reflexivity.
  - split; [concrete_inv|]. split; [vm_compute; reflexivity|].
    split; [vm_compute; repeat split|].
    repeat (split; [vm_compute; reflexivity|]). vm_compute; reflexivity.
Qed.

(** ** What the bitmap build reports *)

Section ThreeFlags.
Context `{!target}.
Hypothesis apr_ok : well_formed apr_bit = true.

Lemma apr_flag_range e : 0 <= apr_bit e < 2 ^ 15.
Proof. pose proof (well_formed_range apr_bit e apr_ok). lia. Qed.

Lemma or_set_spec h s bit rv :
  0 <= rv < 2 ^ 15 -> 0 <= bit < 2 ^ 15 ->
  or_set h s bit rv = Z.lor rv (if FD_ISSET h s then bit else 0) /\
  0 <= or_set h s bit rv < 2 ^ 15.
Proof.
  intros Hrv Hbit. unfold or_set. destruct (FD_ISSET h s).
  - pose proof (lor_range15 rv bit Hrv Hbit) as Hr.
    rewrite int16_small by exact Hr. split; [reflexivity|exact Hr].
  - rewrite Z.lor_0_r. split; [reflexivity|exact Hrv].
Qed.

Lemma select_rtnevents_spec h r w e :
  select_rtnevents h r w e
    = three_flags_of (FD_ISSET h r) (FD_ISSET h w) (FD_ISSET h e).
Proof.
  unfold select_rtnevents, three_flags_of.
  pose proof (apr_flag_range Readable) as Hin.
  pose proof (apr_flag_range Writable) as Hout.
  pose proof (apr_flag_range Error) as Herr.
  cbn [apr_bit] in Hin, Hout, Herr.
  destruct (or_set_spec h r APR_POLLIN 0 ltac:(lia) Hin) as [E1 R1].
  destruct (or_set_spec h w APR_POLLOUT _ R1 Hout) as [E2 R2].
  destruct (or_set_spec h e APR_POLLERR _ R2 Herr) as [E3 _].
  rewrite E3, E2, E1, Z.lor_0_l. reflexivity.
Qed.

Lemma three_flags_disjoint br bw be e :
  e <> Readable -> e <> Writable -> e <> Error ->
  Z.land (three_flags_of br bw be) (apr_bit e) = 0.
Proof.
  intros Hr Hw He. unfold three_flags_of.
  change APR_POLLIN with (apr_bit Readable).
  change APR_POLLOUT with (apr_bit Writable).
  change APR_POLLERR with (apr_bit Error).
  rewrite !Z.land_lor_distr_l.
  assert (Hp : forall (b : bool) e', e' <> e ->
            Z.land (if b then apr_bit e' else 0) (apr_bit e) = 0).
  { intros b e' Hne. destruct b; [|apply Z.land_0_l].
    apply well_formed_disjoint; assumption. }
  rewrite (Hp br Readable), (Hp bw Writable), (Hp be Error) by congruence.
  reflexivity.
Qed.

Lemma set_rtnevents_reports a h r w e :
  h = des (desc a) ->
  reports_rwe r w e (set_rtnevents a (select_rtnevents h r w e)).
Proof.
  intros ->. unfold reports_rwe. cbn [rtnevents set_rtnevents desc].
  rewrite select_rtnevents_spec. split; [reflexivity|].
  split; [|split].
  - apply (three_flags_disjoint _ _ _ Priority); discriminate.
  - apply (three_flags_disjoint _ _ _ HangUp); discriminate.
  - apply (three_flags_disjoint _ _ _ Invalid); discriminate.
Qed.

Lemma handle_of_inr a h : Bitmap.handle_of a = inr h -> h = des (desc a).
Proof.
  unfold Bitmap.handle_of. destruct (desc_type a); [congruence|].
  destruct WIN32; congruence.
Qed.

Lemma read_back_reports l r w e :
  Forall (fun a => exists h, Bitmap.handle_of a = inr h) l ->
  Bitmap.read_back l r w e
    = (None, map (fun a => set_rtnevents a
                    (select_rtnevents (des (desc a)) r w e)) l) /\
  Forall (reports_rwe r w e) (snd (Bitmap.read_back l r w e)).
Proof.
  induction 1 as [|a l [h Ha] _ [IH1 IH2]]; [split; [reflexivity|constructor]|].
  cbn [Bitmap.read_back]. rewrite Ha, IH1 in *.
  pose proof (handle_of_inr a h Ha) as ->.
  split; [reflexivity|]. cbn [snd map] in *.
  constructor; [|exact IH2]. apply set_rtnevents_reports. reflexivity.
Qed.

Lemma bitmap_ready_reports qs r w e (l : list nat) :
  Forall (reports_rwe r w e) (omap (bitmap_ready_at qs r w e) l).
Proof.
  induction l as [|i l IH]; [constructor|].
  cbn [omap list_omap].
  destruct (bitmap_ready_at qs r w e i) as [x|] eqn:Hx; [|exact IH].
  constructor; [|exact IH].
  unfold bitmap_ready_at in Hx. cbv zeta in Hx.
  destruct (_ || _) in Hx; [|discriminate].
  injection Hx as <-. apply set_rtnevents_reports. reflexivity.
Qed.

(** C10.  In the bitmap build a wait writes [rtnevents] only after a
    positive return of [select], and what it writes is made of
    [APR_POLLIN], [APR_POLLOUT] and [APR_POLLERR] alone, one for each of the
    read, write and exception set that holds the handle: [APR_POLLPRI],
    [APR_POLLHUP] and [APR_POLLNVAL] are in no record [apr_poll] leaves and
    in no record [apr_pollset_poll] puts into [result_set], whatever was
    requested. *)
Theorem bitmap_reports_three_flags (aprset : list apr_pollfd_t)
    (psb : Bitmap.apr_pollset_t) (timeout : Z) :
  bitmap_inv psb ->
  sockets_only (registered (Bitmap.nelts psb) (Bitmap.query_set psb)) ->
  (forall pipe nfds r w e tv k,
     Bitmap.apr_poll aprset timeout = CallSelect pipe nfds r w e tv k ->
     forall ans,
       (select_rv ans <= 0 ->
        exists status, k ans = Return (status, Some (select_rv ans), aprset)) /\
       (0 < select_rv ans ->
        exists aprset',
          k ans = Return (APR_SUCCESS, Some (select_rv ans), aprset') /\
          aprset' = map (fun a => set_rtnevents a
                           (select_rtnevents (des (desc a)) (select_read ans)
                              (select_write ans) (select_except ans))) aprset /\
          Forall (reports_rwe (select_read ans) (select_write ans)
                    (select_except ans)) aprset')) /\
  (exists pipe nfds r w e tv k,
     Bitmap.apr_pollset_poll psb timeout = CallSelect pipe nfds r w e tv k /\
     forall ans,
       (select_rv ans <= 0 ->
        exists status, k ans = Return (status, select_rv ans, None, psb)) /\
       (0 < select_rv ans ->
        exists ps' ready,
          k ans = Return (APR_SUCCESS, select_rv ans, None, ps') /\
          take (length ready) (Bitmap.result_set ps') = ready /\
          drop (length ready) (Bitmap.result_set ps')
            = drop (length ready) (Bitmap.result_set psb) /\
          Forall (reports_rwe (select_read ans) (select_write ans)
                    (select_except ans)) ready)).
Proof.
  intros Hinv Hsock. split.
  - intros pipe nfds r w e tv k Hk ans. unfold Bitmap.apr_poll in Hk.
    destruct (Bitmap.fill aprset _) as [st|rq] eqn:Hfill; [discriminate|].
    inversion Hk; subst; clear Hk. cbn beta zeta. split; intros Hrv.
    + destruct (Z.eqb_spec (select_rv ans) 0); [eexists; reflexivity|].
      destruct (Z.ltb_spec (select_rv ans) 0); [eexists; reflexivity|lia].
    + destruct (Z.eqb_spec (select_rv ans) 0); [lia|].
      destruct (Z.ltb_spec (select_rv ans) 0); [lia|].
      destruct (read_back_reports aprset (select_read ans) (select_write ans)
                  (select_except ans) (fill_handles _ _ _ Hfill)) as [H1 H2].
      rewrite H1 in *. eexists. split; [reflexivity|]. split; [reflexivity|exact H2].
  - destruct (bitmap_pollset_poll_ready psb timeout Hinv Hsock)
      as (pipe & nfds & r & w & e & tv & k & Hk & Hans).
    exists pipe, nfds, r, w, e, tv, k. split; [exact Hk|].
    intros ans. split; intros Hrv.
    + unfold Bitmap.apr_pollset_poll in Hk. inversion Hk; subst; clear Hk.
      cbn beta zeta.
      destruct (Z.ltb_spec (select_rv ans) 0); [eexists; reflexivity|].
      destruct (Z.eqb_spec (select_rv ans) 0); [eexists; reflexivity|lia].
    + destruct (Hans ans Hrv) as (ps' & Hret & Hrs & _).
      eexists ps', _. split; [exact Hret|]. rewrite Hrs.
      split; [|split].
      * rewrite take_app_length. reflexivity.
      * rewrite drop_app_length. reflexivity.
      * apply bitmap_ready_reports.
Qed.

End ThreeFlags.

Lemma bitmap_reports_three_flags_witness :
  well_formed (@apr_bit unix_target) = true /\
  bitmap_inv (@bitmap_of unix_target 3 [socket 1000 3 3; sockB]) /\
  exists pipe nfds r w e tv k ps' ready,
    @Bitmap.apr_pollset_poll unix_target
      (@bitmap_of unix_target 3 [socket 1000 3 3; sockB]) 0
      = CallSelect pipe nfds r w e tv k /\
    k handle3_urgent = Return (0, 2, None, ps') /\
    take (length ready) (Bitmap.result_set ps') = ready /\
    Forall (@reports_rwe unix_target 8 0 8) ready.
Proof.
  assert (Hb : bitmap_inv (@bitmap_of unix_target 3 [socket 1000 3 3; sockB])).
  { concrete_inv. }
  assert (Hs : @sockets_only unix_target
                 (registered
                    (Bitmap.nelts (@bitmap_of unix_target 3 [socket 1000 3 3; sockB]))
                    (Bitmap.query_set (@bitmap_of unix_target 3 [socket 1000 3 3; sockB])))).
  { intros Hw. discriminate Hw. }
  split; [reflexivity|]. split; [exact Hb|].
  destruct (@bitmap_reports_three_flags unix_target eq_refl [sockA] _ 0 Hb Hs)
    as [_ (pipe & nfds & r & w & e & tv & k & Hk & Hans)].
  destruct (Hans handle3_urgent) as [_ Hpos].
  destruct (Hpos ltac:(simpl; lia)) as (ps' & ready & Hret & Htake & _ & Hall).
  exists pipe, nfds, r, w, e, tv, k, ps', ready.
  split; [exact Hk|]. split; [exact Hret|]. split; [exact Htake|exact Hall].
Defined.

(** * Further properties of poll.c *)

(** ** The translator on arbitrary bit patterns *)

Lemma existsb_filter {A : Type} (keep g : A -> bool) (l : list A) :
  existsb g (List.filter keep l) = existsb (fun x => keep x && g x) l.
Proof.
  induction l as [|x l IH]; [reflexivity|].
  simpl. destruct (keep x); simpl; rewrite IH; reflexivity.
Qed.

Lemma translate_any f g ev :
  well_formed g = true -> translate f g ev = mask g (events_in f ev).
Proof.
  intros Hg. rewrite (translate_no_wrap f g ev Hg).
  apply Z.bits_inj'. intros n _.
  rewrite translate_spec_bits, mask_bits. unfold events_in.
  rewrite existsb_filter. reflexivity.
Qed.

Section TranslatorAny.
Context `{!target}.

(** X1.  Whatever sixteen-bit pattern it is given, [get_event] returns the
    native mask of exactly those portable events whose flag has a bit in
    the input, and [get_revent] the portable mask of exactly those events
    whose native flag has a bit in the input: bits outside the six flags
    never reach the result, and zero is translated to zero.  Only the target
    encoding needs to be well formed. *)
Theorem translator_total (ev : Z) :
  (well_formed native_bit = true ->
   get_event ev = mask native_bit (events_in apr_bit ev)) /\
  (well_formed apr_bit = true ->
   get_revent ev = mask apr_bit (events_in native_bit ev)) /\
  get_event 0 = 0 /\ get_revent 0 = 0.
Proof.
  split; [|split; [|split]].
  - intros Hn. rewrite get_event_translate. apply translate_any, Hn.
  - intros Ha. rewrite get_revent_translate. apply translate_any, Ha.
  - reflexivity.
  - reflexivity.
Qed.

End TranslatorAny.

Lemma translator_total_witness :
  @get_event unix_target 1027 = 3 /\ @get_revent unix_target 24 = 48.
Proof.
  destruct (@translator_total unix_target 1027) as (H1 & _).
  destruct (@translator_total unix_target 24) as (_ & H2 & _).
  split; [exact (H1 eq_refl)|exact (H2 eq_refl)].
Defined.

(** ** What [apr_poll] touches and how often it waits *)

Lemma forget_imap (g : nat -> Z) (l : list apr_pollfd_t) :
  map forget_rtnevents (imap (fun i a => set_rtnevents a (g i)) l)
    = map forget_rtnevents l.
Proof.
  revert g. induction l as [|a l IH]; intros g; [reflexivity|].
  simpl. f_equal. apply (IH (g ∘ S)).
Qed.

Section OneShot.
Context `{!target}.

Lemma forget_read_back l r w e :
  map forget_rtnevents (snd (Bitmap.read_back l r w e)) = map forget_rtnevents l.
Proof.
  induction l as [|a l IH]; [reflexivity|].
  simpl. destruct (Bitmap.handle_of a); [reflexivity|].
  destruct (Bitmap.read_back l r w e) as [st l']. simpl in *.
  rewrite IH. reflexivity.
Qed.

Lemma fill_status l rq st :
  Bitmap.fill l rq = inl st ->
  WIN32 = true /\ Exists is_file l /\ st = APR_EBADF.
Proof.
  revert rq. induction l as [|a l IH]; intros rq Hf; [discriminate|].
  simpl in Hf. destruct (Bitmap.handle_of a) as [s|h] eqn:Ha.
  - unfold Bitmap.handle_of in Ha.
    destruct (desc_type a) eqn:Hd; [discriminate|].
    destruct WIN32; [|discriminate].
    injection Ha as <-. injection Hf as <-.
    split; [reflexivity|]. split; [left; exact Hd|reflexivity].
  - destruct (IH _ Hf) as (Hw & Hex & Hst).
    split; [exact Hw|]. split; [right; exact Hex|exact Hst].
Qed.

(** X2.  [apr_poll] writes nothing but [rtnevents]: whatever the native
    call answers, and on every path out of the function, the array has the
    length it had and every record keeps its pool, kind, requested events,
    descriptor and [client_data].  This holds in both builds. *)
Theorem apr_poll_writes_rtnevents_only (sys : os) (aprset : list apr_pollfd_t)
    (timeout : Z) :
  map forget_rtnevents (snd (run sys (EventList.apr_poll aprset timeout)))
    = map forget_rtnevents aprset /\
  map forget_rtnevents (snd (run sys (Bitmap.apr_poll aprset timeout)))
    = map forget_rtnevents aprset.
Proof.
  split.
  - simpl. destruct (_ <? 0); [apply forget_imap|].
    destruct (_ =? 0); apply forget_imap.
  - unfold Bitmap.apr_poll. destruct (Bitmap.fill aprset _); [reflexivity|].
    simpl. destruct (_ =? 0); [reflexivity|]. destruct (_ <? 0); [reflexivity|].
    match goal with
    | |- context [Bitmap.read_back aprset ?r ?w ?e] =>
        pose proof (forget_read_back aprset r w e) as Hrb;
        destruct (Bitmap.read_back aprset r w e) as [[st|] l']
    end; exact Hrb.
Qed.

(** X3.  Every call waits at most once.  [apr_poll] and [apr_pollset_poll]
    of the event-list build and [apr_pollset_poll] of the bitmap build
    issue exactly one native wait.  [apr_poll] of the bitmap build issues
    exactly one, except under [WIN32] with a file in the array, where it
    returns without waiting. *)
Theorem one_wait_per_call (sys : os) (aprset : list apr_pollfd_t)
    (ps : EventList.apr_pollset_t) (psb : Bitmap.apr_pollset_t) (timeout : Z) :
  length (calls sys (EventList.apr_poll aprset timeout)) = 1%nat /\
  length (calls sys (EventList.apr_pollset_poll ps timeout)) = 1%nat /\
  length (calls sys (Bitmap.apr_pollset_poll psb timeout)) = 1%nat /\
  (calls sys (Bitmap.apr_poll aprset timeout) = [] <->
   WIN32 = true /\ Exists is_file aprset) /\
  (length (calls sys (Bitmap.apr_poll aprset timeout)) <= 1)%nat.
Proof.
  split; [|split; [|split; [|split]]].
  - simpl. destruct (_ <? 0); [reflexivity|]. destruct (_ =? 0); reflexivity.
  - simpl. destruct (_ <? 0); [reflexivity|]. destruct (_ =? 0); reflexivity.
  - simpl. destruct (_ <? 0); [reflexivity|]. destruct (_ =? 0); [reflexivity|].
    destruct (Bitmap.collect _ _ _ _ _ _ _) as [[[st|] j] q]; reflexivity.
  - unfold Bitmap.apr_poll.
    destruct (Bitmap.fill aprset _) as [st|rq] eqn:Hfill.
    + split; [intros _|reflexivity].
      destruct (fill_status _ _ _ Hfill) as (Hw & Hex & _). split; assumption.
    + split; [discriminate|]. intros [Hw Hex].
      rewrite (fill_rejects_file _ _ Hw Hex) in Hfill. discriminate.
  - unfold Bitmap.apr_poll. destruct (Bitmap.fill aprset _); [simpl; lia|].
    simpl. destruct (_ =? 0); [simpl; lia|]. destruct (_ <? 0); [simpl; lia|].
    destruct (Bitmap.read_back _ _ _ _) as [[st|] l']; simpl; lia.
Qed.

End OneShot.

(** ** The request [apr_poll] hands to [select] *)

Section SelectRequest.
Context `{!target}.

Lemma set_if_bit reqev flag n s h :
  0 <= n ->
  FD_ISSET h (set_if reqev flag n s)
    = ((n =? h) && negb (Z.land reqev flag =? 0)) || FD_ISSET h s.
Proof.
  intros Hn. unfold set_if, FD_ISSET, FD_SET.
  destruct (Z.land reqev flag =? 0); simpl.
  - rewrite andb_false_r. reflexivity.
  - rewrite andb_true_r. apply Z.setbit_eqb, Hn.
Qed.




End SelectRequest.


(** ** Short timeouts *)

Section ShortTimeouts.
Context `{!target}.

(** X5.  A timeout of zero, or of less than a millisecond, reaches [poll]
    as zero: the event-list build then checks once and does not block.  The
    bitmap build hands [select] zero seconds and the same microseconds, so
    it does wait for a positive timeout below a millisecond. *)
Theorem short_timeout (aprset : list apr_pollfd_t)
    (ps : EventList.apr_pollset_t) (psb : Bitmap.apr_pollset_t) (t : Z) :
  0 <= t < 1000 -> 32 <= LONG_BIT ->
  wait_timeout (EventList.apr_poll aprset t) = Some (inl 0) /\
  wait_timeout (EventList.apr_pollset_poll ps t) = Some (inl 0) /\
  wait_timeout (Bitmap.apr_pollset_poll psb t)
    = Some (inr (Some {| tv_sec := 0; tv_usec := t |})).
Proof.
  intros Ht Hl.
  assert (Hp : poll_timeout t = 0).
  { unfold poll_timeout. destruct (Z.ltb_spec 0 t); [|lia].
    apply Z.quot_small. lia. }
  assert (Hs : select_timeout t = Some {| tv_sec := 0; tv_usec := t |}).
  { rewrite select_timeout_pos by lia.
    rewrite Z.div_small, Z.mod_small by lia.
    rewrite long_small by (change (2 ^ 31) with 2147483648; lia). reflexivity. }
  simpl. rewrite Hp, Hs. repeat split.
Qed.

End ShortTimeouts.

Lemma short_timeout_witness :
  wait_timeout (@EventList.apr_poll unix_target [sockA] 999) = Some (inl 0) /\
  wait_timeout (@Bitmap.apr_pollset_poll unix_target
                  (@bitmap_of unix_target 1 [sockA]) 999)
    = Some (inr (Some {| tv_sec := 0; tv_usec := 999 |})).
Proof.
  destruct (@short_timeout unix_target [sockA]
              (@eventlist_of unix_target 1 [sockA])
              (@bitmap_of unix_target 1 [sockA]) 999
              ltac:(lia) ltac:(simpl; lia)) as (H1 & _ & H3).
  split; [exact H1|exact H3].
Defined.

(** ** The arrays never change size *)

Section Sizes.
Context `{!target}.

Lemma eventlist_remove_rest_sizes k i dst d ps :
  length (EventList.pollset (EventList.remove_rest k i dst d ps))
    = length (EventList.pollset ps) /\
  length (EventList.query_set (EventList.remove_rest k i dst d ps))
    = length (EventList.query_set ps) /\
  EventList.result_set (EventList.remove_rest k i dst d ps) = EventList.result_set ps.
Proof.
  revert i ps. induction k as [|k IH]; intros i ps; [auto|].
  cbn [EventList.remove_rest].
  destruct (same_desc d (EventList.query_set ps !!! i)).
  - destruct (IH (S i) (EventList.set_nelts ps (Int.u32 (EventList.nelts ps - 1))))
      as (H1 & H2 & H3). auto.
  - match goal with
    | |- context [EventList.remove_rest k (S i) dst d ?q] =>
        destruct (IH (S i) q) as (H1 & H2 & H3)
    end.
    rewrite H1, H2, H3. simpl. rewrite !length_insert. auto.
Qed.

Lemma eventlist_remove_sizes ps d :
  length (EventList.pollset (snd (EventList.apr_pollset_remove ps d)))
    = length (EventList.pollset ps) /\
  length (EventList.query_set (snd (EventList.apr_pollset_remove ps d)))
    = length (EventList.query_set ps) /\
  EventList.result_set (snd (EventList.apr_pollset_remove ps d))
    = EventList.result_set ps.
Proof.
  unfold EventList.apr_pollset_remove.
  generalize (Z.to_nat (EventList.nelts ps)) as k. generalize 0%nat as i.
  intros i k. revert i. induction k as [|k IH]; intros i; [auto|].
  cbn [EventList.remove_from].
  destruct (same_desc d (EventList.query_set ps !!! i)); [|apply IH].
  cbn [snd].
  match goal with
  | |- context [EventList.remove_rest ?k' (S i) i d ?q] =>
      destruct (eventlist_remove_rest_sizes k' (S i) i d q) as (H1 & H2 & H3)
  end.
  rewrite H1, H2, H3. auto.
Qed.

Lemma bitmap_remove_rest_sizes k i dst d ps :
  length (Bitmap.query_set (Bitmap.remove_rest k i dst d ps))
    = length (Bitmap.query_set ps) /\
  Bitmap.result_set (Bitmap.remove_rest k i dst d ps) = Bitmap.result_set ps /\
  Bitmap.readset (Bitmap.remove_rest k i dst d ps) = Bitmap.readset ps /\
  Bitmap.writeset (Bitmap.remove_rest k i dst d ps) = Bitmap.writeset ps /\
  Bitmap.exceptset (Bitmap.remove_rest k i dst d ps) = Bitmap.exceptset ps /\
  Bitmap.maxfd (Bitmap.remove_rest k i dst d ps) = Bitmap.maxfd ps.
Proof.
  revert i ps. induction k as [|k IH]; intros i ps; [repeat split|].
  cbn [Bitmap.remove_rest].
  destruct (same_desc d (Bitmap.query_set ps !!! i)).
  - apply (IH (S i) (Bitmap.set_nelts ps (Int.u32 (Bitmap.nelts ps - 1)))).
  - match goal with
    | |- context [Bitmap.remove_rest k (S i) dst d ?q] =>
        destruct (IH (S i) q) as (H1 & H2 & H3 & H4 & H5 & H6)
    end.
    rewrite H1, H2, H3, H4, H5, H6. simpl. rewrite length_insert. repeat split.
Qed.

Lemma bitmap_remove_sizes ps d :
  length (Bitmap.query_set (snd (Bitmap.apr_pollset_remove ps d)))
    = length (Bitmap.query_set ps) /\
  Bitmap.result_set (snd (Bitmap.apr_pollset_remove ps d)) = Bitmap.result_set ps.
Proof.
  unfold Bitmap.apr_pollset_remove.
  generalize (Z.to_nat (Bitmap.nelts ps)) as k. generalize 0%nat as i.
  intros i k. revert i. induction k as [|k IH]; intros i; [auto|].
  cbn [Bitmap.remove_from].
  destruct (same_desc d (Bitmap.query_set ps !!! i)); [|apply IH].
  cbn [snd Bitmap.query_set Bitmap.result_set Bitmap.set_sets].
  match goal with
  | |- context [Bitmap.remove_rest ?k' (S i) i d ?q] =>
      destruct (bitmap_remove_rest_sizes k' (S i) i d q) as (H1 & H2 & _)
  end.
  rewrite H1, H2. auto.
Qed.

Lemma eventlist_collect_size k i j ps :
  length (EventList.result_set (snd (EventList.collect k i j ps)))
    = length (EventList.result_set ps).
Proof.
  revert i j ps. induction k as [|k IH]; intros i j ps; [reflexivity|].
  cbn [EventList.collect]. destruct (_ =? 0); [apply IH|].
  rewrite IH. simpl. rewrite !length_insert. reflexivity.
Qed.

Lemma bitmap_collect_size k i j r w e ps :
  length (Bitmap.result_set (snd (Bitmap.collect k i j r w e ps)))
    = length (Bitmap.result_set ps).
Proof.
  revert i j ps. induction k as [|k IH]; intros i j ps; [reflexivity|].
  cbn [Bitmap.collect]. destruct (Bitmap.handle_of _); [reflexivity|].
  destruct (_ || _); [|apply IH].
  rewrite IH. simpl. rewrite !length_insert. reflexivity.
Qed.

Lemma eventlist_create_inv size p :
  0 <= size < 2 ^ 32 -> eventlist_inv (snd (EventList.apr_pollset_create size p)).
Proof.
  intros Hs. split; [apply eventlist_create_count, Hs|].
  unfold sized. simpl. rewrite !length_replicate. auto.
Qed.

Lemma bitmap_create_inv size p :
  0 <= size < 2 ^ 32 -> bitmap_inv (snd (Bitmap.apr_pollset_create size p)).
Proof.
  intros Hs. split; [apply bitmap_create_count, Hs|].
  unfold sized. simpl. rewrite !length_replicate. auto.
Qed.

Lemma eventlist_add_inv ps d :
  eventlist_inv ps -> eventlist_inv (snd (EventList.apr_pollset_add ps d)).
Proof.
  intros (Hc & Hp & Hq & Hr).
  destruct (eventlist_add_count ps d Hc) as (Hc' & Ha & _). cbn zeta in Hc', Ha.
  split; [exact Hc'|]. unfold sized in *. rewrite Ha.
  unfold EventList.apr_pollset_add.
  destruct (_ =? _); [auto|]. simpl. rewrite !length_insert. auto.
Qed.

Lemma bitmap_add_inv ps d :
  bitmap_inv ps -> bitmap_inv (snd (Bitmap.apr_pollset_add ps d)).
Proof.
  intros (Hc & Hq & Hr).
  destruct (bitmap_add_count ps d Hc) as (Hc' & Ha & _). cbn zeta in Hc', Ha.
  split; [exact Hc'|]. unfold sized in *. rewrite Ha.
  unfold Bitmap.apr_pollset_add.
  destruct (_ =? _); [auto|].
  destruct (Bitmap.handle_of d); simpl; rewrite !length_insert; auto.
Qed.

Lemma eventlist_remove_inv ps d :
  eventlist_inv ps -> eventlist_inv (snd (EventList.apr_pollset_remove ps d)).
Proof.
  intros (Hc & Hp & Hq & Hr).
  destruct (eventlist_remove_count ps d Hc) as (Hc' & Ha & _). cbn zeta in Hc', Ha.
  destruct (eventlist_remove_sizes ps d) as (H1 & H2 & H3).
  split; [exact Hc'|]. unfold sized in *. rewrite Ha, H1, H2, H3. auto.
Qed.

Lemma bitmap_remove_inv ps d :
  bitmap_inv ps -> bitmap_inv (snd (Bitmap.apr_pollset_remove ps d)).
Proof.
  intros (Hc & Hq & Hr).
  destruct (bitmap_remove_count ps d Hc) as (Hc' & Ha & _). cbn zeta in Hc', Ha.
  destruct (bitmap_remove_sizes ps d) as (H1 & H2).
  split; [exact Hc'|]. unfold sized in *. rewrite Ha, H1, H2. auto.
Qed.

Lemma eventlist_poll_inv sys ps timeout :
  eventlist_inv ps ->
  eventlist_inv (snd (run sys (EventList.apr_pollset_poll ps timeout))).
Proof.
  intros ((Hn & Ha) & Hp & Hq & Hr).
  destruct (eventlist_poll_count sys ps timeout) as [E1 E2]. cbn zeta in E1, E2.
  split; [rewrite E1, E2; split; assumption|].
  unfold sized in *. rewrite E2. simpl.
  destruct (_ <? 0); [simpl; unfold EventList.after_poll; rewrite length_imap; auto|].
  destruct (_ =? 0); [simpl; unfold EventList.after_poll; rewrite length_imap; auto|].
  cbn [snd run].
  match goal with
  | |- context [EventList.collect ?k ?i ?j ?q] =>
      destruct (eventlist_collect_frame k i j q) as (_ & _ & F3 & F4);
      pose proof (eventlist_collect_size k i j q) as F5
  end.
  rewrite F3, F4, F5. simpl. unfold EventList.after_poll. rewrite length_imap. auto.
Qed.

Lemma bitmap_poll_inv sys ps timeout :
  bitmap_inv ps ->
  bitmap_inv (snd (run sys (Bitmap.apr_pollset_poll ps timeout))).
Proof.
  intros ((Hn & Ha) & Hq & Hr).
  destruct (bitmap_poll_count sys ps timeout) as [E1 E2]. cbn zeta in E1, E2.
  split; [rewrite E1, E2; split; assumption|].
  unfold sized in *. rewrite E2. simpl.
  destruct (_ <? 0); [auto|]. destruct (_ =? 0); [auto|].
  match goal with
  | |- context [Bitmap.collect ?k ?i ?j ?r ?w ?e ps] =>
      destruct (bitmap_collect_query_set k i j r w e ps) as (F1 & _);
      pose proof (bitmap_collect_size k i j r w e ps) as F2;
      destruct (Bitmap.collect k i j r w e ps) as [[[st|] j'] q]
  end; simpl in *; rewrite F1, F2; auto.
Qed.

(** X6.  The pollset keeps its shape.  A pollset from
    [apr_pollset_create] has [nelts = 0 <= nalloc] and three (two, in the
    bitmap build) arrays of [nalloc] slots; [apr_pollset_add],
    [apr_pollset_remove] and [apr_pollset_poll] keep
    [0 <= nelts <= nalloc] and never change the length of an array, so no
    slot index below [nalloc] ever falls outside the arrays. *)
Theorem shape_kept (ps : EventList.apr_pollset_t) (psb : Bitmap.apr_pollset_t)
    (d : apr_pollfd_t) (size p timeout : Z) (sys : os) :
  (0 <= size < 2 ^ 32 ->
   eventlist_inv (snd (EventList.apr_pollset_create size p)) /\
   bitmap_inv (snd (Bitmap.apr_pollset_create size p))) /\
  (eventlist_inv ps ->
   eventlist_inv (snd (EventList.apr_pollset_add ps d)) /\
   eventlist_inv (snd (EventList.apr_pollset_remove ps d)) /\
   eventlist_inv (snd (run sys (EventList.apr_pollset_poll ps timeout)))) /\
  (bitmap_inv psb ->
   bitmap_inv (snd (Bitmap.apr_pollset_add psb d)) /\
   bitmap_inv (snd (Bitmap.apr_pollset_remove psb d)) /\
   bitmap_inv (snd (run sys (Bitmap.apr_pollset_poll psb timeout)))).
Proof.
  split; [|split].
  - intros Hs. split; [apply eventlist_create_inv|apply bitmap_create_inv]; exact Hs.
  - intros Hi. split; [apply eventlist_add_inv, Hi|].
    split; [apply eventlist_remove_inv, Hi|apply eventlist_poll_inv, Hi].
  - intros Hi. split; [apply bitmap_add_inv, Hi|].
    split; [apply bitmap_remove_inv, Hi|apply bitmap_poll_inv, Hi].
Qed.

End Sizes.

Lemma shape_kept_witness :
  eventlist_inv (@eventlist_of unix_target 2 [sockA]) /\
  eventlist_inv (snd (@EventList.apr_pollset_add unix_target
                        (@eventlist_of unix_target 2 [sockA]) sockB)) /\
  bitmap_inv (snd (@Bitmap.apr_pollset_remove unix_target
                     (@bitmap_of unix_target 2 [sockA]) sockA)).
Proof.
  assert (He : eventlist_inv (@eventlist_of unix_target 2 [sockA])) by concrete_inv.
  assert (Hb : bitmap_inv (@bitmap_of unix_target 2 [sockA])) by concrete_inv.
  destruct (@shape_kept unix_target (@eventlist_of unix_target 2 [sockA])
              (@bitmap_of unix_target 2 [sockA]) sockB 2 0 0 idle_os) as (_ & Hev & _).
  destruct (@shape_kept unix_target (@eventlist_of unix_target 2 [sockA])
              (@bitmap_of unix_target 2 [sockA]) sockA 2 0 0 idle_os) as (_ & _ & Hbm).
  split; [exact He|]. split; [exact (proj1 (Hev He))|].
  exact (proj1 (proj2 (Hbm Hb))).
Defined.

(** ** Filling a pollset *)

Section Filling.
Context `{!target}.

Lemma eventlist_add_full ps d :
  EventList.nelts ps = EventList.nalloc ps ->
  EventList.apr_pollset_add ps d = (APR_ENOMEM, ps).
Proof.
  intros Hf. unfold EventList.apr_pollset_add.
  rewrite (proj2 (Z.eqb_eq _ _) Hf). reflexivity.
Qed.

Lemma bitmap_add_full ps d :
  Bitmap.nelts ps = Bitmap.nalloc ps ->
  Bitmap.apr_pollset_add ps d = (APR_ENOMEM, ps).
Proof.
  intros Hf. unfold Bitmap.apr_pollset_add.
  rewrite (proj2 (Z.eqb_eq _ _) Hf). reflexivity.
Qed.

Lemma eventlist_add_room ps d :
  eventlist_inv ps -> EventList.nelts ps < EventList.nalloc ps ->
  let n := Z.to_nat (EventList.nelts ps) in
  let r := EventList.apr_pollset_add ps d in
  fst r = APR_SUCCESS /\
  EventList.nelts (snd r) = EventList.nelts ps + 1 /\
  EventList.query_set (snd r) = <[n := d]> (EventList.query_set ps) /\
  EventList.pollset (snd r)
    = <[n := mk_pollfd (handle d) (get_event (reqevents d))
                (revents (EventList.pollset ps !!! n))]> (EventList.pollset ps) /\
  registered (EventList.nelts (snd r)) (EventList.query_set (snd r))
    = registered (EventList.nelts ps) (EventList.query_set ps) ++ [d].
Proof.
  intros (((Hn0 & Hn) & Ha) & Hp & Hq & Hr) Hlt. cbn zeta.
  unfold EventList.apr_pollset_add, registered, sized in *.
  destruct (Z.eqb_spec (EventList.nelts ps) (EventList.nalloc ps)); [lia|].
  cbn [fst snd EventList.nelts EventList.query_set EventList.pollset
       EventList.set_nelts EventList.set_pollset EventList.set_query_set
       fd events revents].
  rewrite u32_small by lia.
  split; [reflexivity|]. split; [reflexivity|]. split; [reflexivity|].
  split; [reflexivity|].
  replace (Z.to_nat (EventList.nelts ps + 1)) with (S (Z.to_nat (EventList.nelts ps)))
    by lia.
  apply take_insert_next. lia.
Qed.

Lemma bitmap_add_room ps d :
  bitmap_inv ps -> Bitmap.nelts ps < Bitmap.nalloc ps ->
  (WIN32 = true -> desc_type d = APR_POLL_SOCKET) ->
  let n := Z.to_nat (Bitmap.nelts ps) in
  let r := Bitmap.apr_pollset_add ps d in
  let h := des (desc d) in
  fst r = APR_SUCCESS /\
  Bitmap.nelts (snd r) = Bitmap.nelts ps + 1 /\
  Bitmap.query_set (snd r) = <[n := d]> (Bitmap.query_set ps) /\
  Bitmap.readset (snd r) = set_if (reqevents d) APR_POLLIN h (Bitmap.readset ps) /\
  Bitmap.writeset (snd r) = set_if (reqevents d) APR_POLLOUT h (Bitmap.writeset ps) /\
  Bitmap.exceptset (snd r) = set_if (reqevents d) except_mask h (Bitmap.exceptset ps) /\
  Bitmap.maxfd (snd r) = Z.max (Bitmap.maxfd ps) (Int.int h) /\
  registered (Bitmap.nelts (snd r)) (Bitmap.query_set (snd r))
    = registered (Bitmap.nelts ps) (Bitmap.query_set ps) ++ [d].
Proof.
  intros (((Hn0 & Hn) & Ha) & Hq & Hr) Hlt Hsock. cbn zeta.
  unfold Bitmap.apr_pollset_add, registered, sized in *.
  destruct (Z.eqb_spec (Bitmap.nelts ps) (Bitmap.nalloc ps)); [lia|].
  assert (Hh : Bitmap.handle_of d = inr (des (desc d))).
  { destruct WIN32 eqn:Hw; [apply handle_of_socket, Hsock; reflexivity|].
    apply handle_of_not_win32, Hw. }
  rewrite Hh.
  cbn [fst snd Bitmap.nelts Bitmap.query_set Bitmap.readset Bitmap.writeset
       Bitmap.exceptset Bitmap.maxfd Bitmap.set_nelts Bitmap.set_sets
       Bitmap.set_query_set].
  rewrite u32_small by lia.
  repeat (split; [reflexivity|]).
  split; [destruct (Z.ltb_spec (Bitmap.maxfd ps) (Int.int (des (desc d)))); lia|].
  replace (Z.to_nat (Bitmap.nelts ps + 1)) with (S (Z.to_nat (Bitmap.nelts ps))) by lia.
  apply take_insert_next. lia.
Qed.

Lemma eventlist_add_all_spec l ps :
  eventlist_inv ps ->
  let n := Nat.min (length l) (Z.to_nat (EventList.nalloc ps - EventList.nelts ps)) in
  let r := eventlist_add_all ps l in
  fst r = replicate n APR_SUCCESS ++ replicate (length l - n) APR_ENOMEM /\
  EventList.nelts (snd r) = EventList.nelts ps + Z.of_nat n /\
  EventList.nalloc (snd r) = EventList.nalloc ps /\
  registered (EventList.nelts (snd r)) (EventList.query_set (snd r))
    = registered (EventList.nelts ps) (EventList.query_set ps) ++ take n l /\
  eventlist_inv (snd r).
Proof.
  revert ps. induction l as [|a l IH]; intros ps Hinv; cbn zeta.
  - simpl. rewrite app_nil_r, Z.add_0_r. auto.
  - cbn [eventlist_add_all].
    pose proof Hinv as (((Hn0 & Hn) & Ha) & _).
    destruct (Z.eq_dec (EventList.nelts ps) (EventList.nalloc ps)) as [Hfull|Hroom].
    + rewrite (eventlist_add_full ps a Hfull).
      destruct (IH ps Hinv) as (I1 & I2 & I3 & I4 & I5). cbn zeta in *.
      destruct (eventlist_add_all ps l) as [sts ps'']. cbn [fst snd] in *.
      replace (Z.to_nat (EventList.nalloc ps - EventList.nelts ps)) with 0%nat in * by lia.
      rewrite Nat.min_0_r in *. cbn [replicate app take length Nat.sub] in *.
      rewrite I4, I1, I2, I3, Nat.sub_0_r. auto.
    + destruct (eventlist_add_room ps a Hinv ltac:(lia)) as (A1 & A2 & _ & _ & A5).
      pose proof (eventlist_add_inv ps a Hinv) as Hinv'.
      destruct (eventlist_add_count ps a (proj1 Hinv)) as (_ & A3 & _).
      cbn zeta in *.
      destruct (EventList.apr_pollset_add ps a) as [st ps']. cbn [fst snd] in *.
      destruct (IH ps' Hinv') as (I1 & I2 & I3 & I4 & I5). cbn zeta in *.
      destruct (eventlist_add_all ps' l) as [sts ps'']. cbn [fst snd] in *.
      rewrite A2, A3 in *.
      replace (Z.to_nat (EventList.nalloc ps - EventList.nelts ps))
        with (S (Z.to_nat (EventList.nalloc ps - (EventList.nelts ps + 1)))) by lia.
      cbn [length]. rewrite <- Nat.succ_min_distr.
      cbn [replicate app take Nat.sub]. rewrite I4, I1, I2, I3, A1, A5, <- app_assoc.
      split; [reflexivity|]. split; [lia|]. auto.
Qed.

Lemma bitmap_add_all_spec l ps :
  bitmap_inv ps -> sockets_only l ->
  let n := Nat.min (length l) (Z.to_nat (Bitmap.nalloc ps - Bitmap.nelts ps)) in
  let r := bitmap_add_all ps l in
  fst r = replicate n APR_SUCCESS ++ replicate (length l - n) APR_ENOMEM /\
  Bitmap.nelts (snd r) = Bitmap.nelts ps + Z.of_nat n /\
  Bitmap.nalloc (snd r) = Bitmap.nalloc ps /\
  registered (Bitmap.nelts (snd r)) (Bitmap.query_set (snd r))
    = registered (Bitmap.nelts ps) (Bitmap.query_set ps) ++ take n l /\
  bitmap_inv (snd r).
Proof.
  revert ps. induction l as [|a l IH]; intros ps Hinv Hs; cbn zeta.
  - simpl. rewrite app_nil_r, Z.add_0_r. auto.
  - cbn [bitmap_add_all].
    assert (Hs' : sockets_only l).
    { intros Hw. specialize (Hs Hw). inversion Hs; assumption. }
    assert (Ha0 : WIN32 = true -> desc_type a = APR_POLL_SOCKET).
    { intros Hw. specialize (Hs Hw). inversion Hs; assumption. }
    pose proof Hinv as (((Hn0 & Hn) & Ha) & _).
    destruct (Z.eq_dec (Bitmap.nelts ps) (Bitmap.nalloc ps)) as [Hfull|Hroom].
    + rewrite (bitmap_add_full ps a Hfull).
      destruct (IH ps Hinv Hs') as (I1 & I2 & I3 & I4 & I5). cbn zeta in *.
      destruct (bitmap_add_all ps l) as [sts ps'']. cbn [fst snd] in *.
      replace (Z.to_nat (Bitmap.nalloc ps - Bitmap.nelts ps)) with 0%nat in * by lia.
      rewrite Nat.min_0_r in *. cbn [replicate app take length Nat.sub] in *.
      rewrite I4, I1, I2, I3, Nat.sub_0_r. auto.
    + destruct (bitmap_add_room ps a Hinv ltac:(lia) Ha0)
        as (A1 & A2 & _ & _ & _ & _ & _ & A5).
      pose proof (bitmap_add_inv ps a Hinv) as Hinv'.
      destruct (bitmap_add_count ps a (proj1 Hinv)) as (_ & A3 & _).
      cbn zeta in *.
      destruct (Bitmap.apr_pollset_add ps a) as [st ps']. cbn [fst snd] in *.
      destruct (IH ps' Hinv' Hs') as (I1 & I2 & I3 & I4 & I5). cbn zeta in *.
      destruct (bitmap_add_all ps' l) as [sts ps'']. cbn [fst snd] in *.
      rewrite A2, A3 in *.
      replace (Z.to_nat (Bitmap.nalloc ps - Bitmap.nelts ps))
        with (S (Z.to_nat (Bitmap.nalloc ps - (Bitmap.nelts ps + 1)))) by lia.
      cbn [length]. rewrite <- Nat.succ_min_distr.
      cbn [replicate app take Nat.sub]. rewrite I4, I1, I2, I3, A1, A5, <- app_assoc.
      split; [reflexivity|]. split; [lia|]. auto.
Qed.

Lemma eventlist_add_all_foldl l ps :
  snd (eventlist_add_all ps l)
    = foldl (fun ps a => snd (EventList.apr_pollset_add ps a)) ps l.
Proof.
  revert ps. induction l as [|a l IH]; intros ps; [reflexivity|].
  cbn [eventlist_add_all foldl]. rewrite <- IH.
  destruct (EventList.apr_pollset_add ps a) as [st ps']. cbn [snd].
  destruct (eventlist_add_all ps' l) as [sts ps'']. reflexivity.
Qed.

Lemma bitmap_add_all_foldl l ps :
  snd (bitmap_add_all ps l)
    = foldl (fun ps a => snd (Bitmap.apr_pollset_add ps a)) ps l.
Proof.
  revert ps. induction l as [|a l IH]; intros ps; [reflexivity|].
  cbn [bitmap_add_all foldl]. rewrite <- IH.
  destruct (Bitmap.apr_pollset_add ps a) as [st ps']. cbn [snd].
  destruct (bitmap_add_all ps' l) as [sts ps'']. reflexivity.
Qed.

(** X7.  A pollset created with capacity [cap] takes exactly the first
    [cap] records offered to it.  Registering the records of [l] one after
    the other, the first [min (length l) cap] calls return [APR_SUCCESS] and
    all later ones [APR_ENOMEM]; afterwards [nelts] is that minimum and the
    registered records are that prefix of [l], in order, duplicates
    included.  (In the bitmap build under [WIN32] the records are
    sockets.) *)
Theorem capacity_fills (cap p : Z) (l : list apr_pollfd_t) :
  0 <= cap < 2 ^ 32 -> sockets_only l ->
  let n := Nat.min (length l) (Z.to_nat cap) in
  let r := eventlist_add_all (snd (EventList.apr_pollset_create cap p)) l in
  let rb := bitmap_add_all (snd (Bitmap.apr_pollset_create cap p)) l in
  (fst r = replicate n APR_SUCCESS ++ replicate (length l - n) APR_ENOMEM /\
   EventList.nelts (snd r) = Z.of_nat n /\
   registered (EventList.nelts (snd r)) (EventList.query_set (snd r)) = take n l) /\
  (fst rb = replicate n APR_SUCCESS ++ replicate (length l - n) APR_ENOMEM /\
   Bitmap.nelts (snd rb) = Z.of_nat n /\
   registered (Bitmap.nelts (snd rb)) (Bitmap.query_set (snd rb)) = take n l).
Proof.
  intros Hcap Hs. cbn zeta. split.
  - set (ps0 := snd (EventList.apr_pollset_create cap p)).
    destruct (eventlist_add_all_spec l ps0 (eventlist_create_inv cap p Hcap))
      as (H1 & H2 & _ & H4 & _).
    cbn zeta in H1, H2, H4.
    change (EventList.nelts ps0) with 0 in H1, H2, H4.
    change (EventList.nalloc ps0) with cap in H1, H2, H4.
    rewrite Z.sub_0_r in H1, H2, H4. rewrite Z.add_0_l in H2.
    rewrite H1, H2. unfold registered at 2 in H4.
    cbn [Z.to_nat take app] in H4. rewrite <- H2, H4. auto.
  - set (ps0 := snd (Bitmap.apr_pollset_create cap p)).
    destruct (bitmap_add_all_spec l ps0 (bitmap_create_inv cap p Hcap) Hs)
      as (H1 & H2 & _ & H4 & _).
    cbn zeta in H1, H2, H4.
    change (Bitmap.nelts ps0) with 0 in H1, H2, H4.
    change (Bitmap.nalloc ps0) with cap in H1, H2, H4.
    rewrite Z.sub_0_r in H1, H2, H4. rewrite Z.add_0_l in H2.
    rewrite H1, H2. unfold registered at 2 in H4.
    cbn [Z.to_nat take app] in H4. rewrite <- H2, H4. auto.
Qed.

End Filling.

Lemma capacity_fills_witness :
  @sockets_only unix_target [sockA; sockB; sockC] /\
  fst (@eventlist_add_all unix_target
         (snd (@EventList.apr_pollset_create unix_target 2 0)) [sockA; sockB; sockC])
    = [0; 0; 12] /\
  registered 2 (Bitmap.query_set
     (snd (@bitmap_add_all unix_target
             (snd (@Bitmap.apr_pollset_create unix_target 2 0)) [sockA; sockB; sockC])))
    = [sockA; sockB].
Proof.
  assert (Hs : @sockets_only unix_target [sockA; sockB; sockC]).
  { intros Hw. discriminate Hw. }
  destruct (@capacity_fills unix_target 2 0 [sockA; sockB; sockC] ltac:(lia) Hs)
    as ((H1 & _) & (_ & H2 & H3)).
  split; [exact Hs|]. split; [exact H1|].
  rewrite H2 in H3. exact H3.
Defined.

(** ** The native array mirrors the registry *)

Lemma take_map_pointwise {A B C : Type} `{!Inhabited A, !Inhabited B}
    (f : A -> C) (g : B -> C) (n : nat) (l1 : list A) (l2 : list B) :
  (n <= length l1)%nat -> (n <= length l2)%nat ->
  (forall i, (i < n)%nat -> f (l1 !!! i) = g (l2 !!! i)) ->
  take n (map f l1) = map g (take n l2).
Proof.
  revert l1 l2. induction n as [|n IH]; intros l1 l2 H1 H2 Hfg; [reflexivity|].
  destruct l1 as [|x l1]; [simpl in H1; lia|].
  destruct l2 as [|y l2]; [simpl in H2; lia|].
  simpl. f_equal.
  - apply (Hfg 0%nat). lia.
  - apply IH; [simpl in H1; lia|simpl in H2; lia|].
    intros i Hi. apply (Hfg (S i)). lia.
Qed.

Section Mirror.
Context `{!target}.

Lemma aligned_remove_rest N k i dst d ps :
  (dst < i)%nat -> (i + k <= N)%nat ->
  (N <= length (EventList.pollset ps))%nat ->
  (N <= length (EventList.query_set ps))%nat ->
  aligned_upto N ps ->
  aligned_upto N (EventList.remove_rest k i dst d ps).
Proof.
  revert i ps. induction k as [|k IH]; intros i ps Hd Hk Hp Hq Hal; [exact Hal|].
  cbn [EventList.remove_rest].
  destruct (same_desc d (EventList.query_set ps !!! i)).
  - apply IH; [lia|lia|exact Hp|exact Hq|exact Hal].
  - apply IH; [lia|lia|simpl; rewrite length_insert; exact Hp
              |simpl; rewrite length_insert; exact Hq|].
    intros j Hj. cbn [EventList.pollset EventList.query_set EventList.set_pollset
                      EventList.set_query_set].
    destruct (decide (dst = j)) as [->|Hne].
    + rewrite !list_lookup_total_insert_eq by lia. apply Hal. lia.
    + rewrite !list_lookup_total_insert_ne by exact Hne. apply Hal, Hj.
Qed.

Lemma aligned_remove ps d :
  eventlist_inv ps -> aligned ps ->
  aligned (snd (EventList.apr_pollset_remove ps d)).
Proof.
  intros Hinv Hal. pose proof Hinv as (((Hn0 & Hn) & Ha) & Hp & Hq & _).
  unfold sized in *.
  destruct (eventlist_remove_count ps d (proj1 Hinv)) as (_ & _ & Hm & Hn').
  cbn zeta in Hm, Hn'.
  assert (Hup : aligned_upto (Z.to_nat (EventList.nelts ps))
                  (snd (EventList.apr_pollset_remove ps d))).
  { unfold EventList.apr_pollset_remove.
    assert (Hgen : forall k i, (i + k)%nat = Z.to_nat (EventList.nelts ps) ->
              aligned_upto (Z.to_nat (EventList.nelts ps))
                (snd (EventList.remove_from k i d ps))).
    { induction k as [|k IH]; intros i Hik; [exact Hal|].
      cbn [EventList.remove_from].
      destruct (same_desc d (EventList.query_set ps !!! i)); [|apply IH; lia].
      cbn [snd]. apply aligned_remove_rest; [lia|lia|simpl; lia|simpl; lia|].
      exact Hal. }
    apply Hgen. lia. }
  intros i Hi. apply Hup. lia.
Qed.

Lemma aligned_add ps d :
  eventlist_inv ps -> aligned ps ->
  aligned (snd (EventList.apr_pollset_add ps d)).
Proof.
  intros Hinv Hal. pose proof Hinv as (((Hn0 & Hn) & Ha) & Hp & Hq & _).
  unfold sized in *.
  destruct (Z.eq_dec (EventList.nelts ps) (EventList.nalloc ps)) as [Hfull|Hroom].
  - rewrite (eventlist_add_full ps d Hfull). exact Hal.
  - destruct (eventlist_add_room ps d Hinv ltac:(lia)) as (_ & A2 & A3 & A4 & _).
    cbn zeta in *. intros i Hi. rewrite A2 in Hi. rewrite A3, A4.
    destruct (decide (Z.to_nat (EventList.nelts ps) = i)) as [<-|Hne].
    + rewrite !list_lookup_total_insert_eq by lia. split; reflexivity.
    + rewrite !list_lookup_total_insert_ne by exact Hne. apply Hal. lia.
Qed.

Lemma after_poll_lookup ans nfds (l : list pollfd) i :
  fd (EventList.after_poll ans nfds l !!! i) = fd (l !!! i) /\
  events (EventList.after_poll ans nfds l !!! i) = events (l !!! i).
Proof.
  unfold EventList.after_poll. rewrite !list_lookup_total_alt, list_lookup_imap.
  destruct (l !! i) as [q|]; simpl; [|auto].
  destruct (_ <? _); auto.
Qed.

Lemma aligned_poll sys ps timeout :
  aligned ps ->
  aligned (snd (run sys (EventList.apr_pollset_poll ps timeout))).
Proof.
  intros Hal.
  destruct (eventlist_poll_count sys ps timeout) as [E1 _]. cbn zeta in E1.
  intros i Hi. rewrite E1 in Hi. specialize (Hal i Hi).
  simpl. destruct (_ <? 0); [|destruct (_ =? 0)]; cbn [snd run].
  3: match goal with
     | |- context [EventList.collect ?k ?a ?b ?q] =>
         destruct (eventlist_collect_frame k a b q) as (_ & _ & F3 & F4);
         rewrite F3, F4
     end.
  all: cbn [EventList.pollset EventList.query_set EventList.set_pollset].
  all: match goal with
       | |- context [EventList.after_poll ?a ?n ?l] =>
           destruct (after_poll_lookup a n l i) as [G1 G2]; rewrite G1, G2
       end; exact Hal.
Qed.

(** X8.  In the event-list build the native array stays index-aligned with
    the registry.  If the first [nelts] slots of [pollset] hold the handle
    and the translated request of the same slots of [query_set] (trivially
    so after [apr_pollset_create]), they still do after
    [apr_pollset_add], [apr_pollset_remove] and [apr_pollset_poll]; and
    then what [apr_pollset_poll] hands to [poll] is, slot for slot, the
    handle and translated request of each registered record. *)
Theorem shadow_aligned (ps : EventList.apr_pollset_t) (d : apr_pollfd_t)
    (size p timeout : Z) (sys : os) :
  aligned (snd (EventList.apr_pollset_create size p)) /\
  (eventlist_inv ps -> aligned ps ->
   aligned (snd (EventList.apr_pollset_add ps d)) /\
   aligned (snd (EventList.apr_pollset_remove ps d)) /\
   aligned (snd (run sys (EventList.apr_pollset_poll ps timeout))) /\
   exists fds t k,
     EventList.apr_pollset_poll ps timeout = CallPoll fds (EventList.nelts ps) t k /\
     take (Z.to_nat (EventList.nelts ps)) fds
       = map poll_entry (registered (EventList.nelts ps) (EventList.query_set ps))).
Proof.
  split.
  - intros i Hi. simpl in Hi. lia.
  - intros Hinv Hal.
    split; [apply aligned_add; assumption|].
    split; [apply aligned_remove; assumption|].
    split; [apply aligned_poll; assumption|].
    eexists _, _, _. split; [reflexivity|].
    destruct Hinv as (((Hn0 & Hn) & Ha) & Hp & Hq & _). unfold sized in *.
    unfold registered. apply take_map_pointwise; [lia|lia|].
    intros i Hi. destruct (Hal i Hi) as [H1 H2].
    unfold poll_entry. rewrite H1, H2. reflexivity.
Qed.

End Mirror.

Lemma shadow_aligned_witness :
  eventlist_inv (@eventlist_of unix_target 3 [sockA; sockRW]) /\
  @aligned unix_target (@eventlist_of unix_target 3 [sockA; sockRW]) /\
  exists fds t k,
    @EventList.apr_pollset_poll unix_target
      (@eventlist_of unix_target 3 [sockA; sockRW]) 0 = CallPoll fds 2 t k /\
    take 2 fds = [(3, 1); (3, 5)].
Proof.
  assert (He : eventlist_inv (@eventlist_of unix_target 3 [sockA; sockRW]))
    by concrete_inv.
  assert (Ha : @aligned unix_target (@eventlist_of unix_target 3 [sockA; sockRW])).
  { intros i Hi. destruct i as [|[|i]]; [split; reflexivity|split; reflexivity|].
    vm_compute in Hi. lia. }
  destruct (@shadow_aligned unix_target (@eventlist_of unix_target 3 [sockA; sockRW])
              sockA 3 0 0 idle_os) as [_ Hstep].
  destruct (Hstep He Ha) as (_ & _ & _ & fds & t & k & Hk & Hfds).
  split; [exact He|]. split; [exact Ha|].
  exists fds, t, k. split; [exact Hk|exact Hfds].
Defined.

(** ** What a removal leaves behind *)

Lemma last_survivor_range d qs i k j :
  last_survivor d qs i k = Some j -> (i <= j < i + k)%nat.
Proof.
  revert i. induction k as [|k IH]; intros i Hj; [discriminate|].
  cbn [last_survivor] in Hj.
  destruct (last_survivor d qs (S i) k) as [j'|] eqn:Hl.
  - injection Hj as <-. specialize (IH _ Hl). lia.
  - destruct (same_desc d (qs !!! i)); [discriminate|]. injection Hj as <-. lia.
Qed.

Lemma last_survivor_insert d (qs : list apr_pollfd_t) dst x i k :
  (dst < i)%nat -> last_survivor d (<[dst := x]> qs) i k = last_survivor d qs i k.
Proof.
  revert i. induction k as [|k IH]; intros i Hlt; [reflexivity|].
  cbn [last_survivor]. rewrite IH by lia.
  rewrite list_lookup_total_insert_ne by lia. reflexivity.
Qed.

Lemma first_match_count d qs i k :
  (first_match d qs i k = None <-> count_match d qs i k = 0) /\
  (forall i0, first_match d qs i k = Some i0 ->
     (i <= i0 < i + k)%nat /\ same_desc d (qs !!! i0) = true /\
     0 < count_match d qs i k).
Proof.
  revert i. induction k as [|k IH]; intros i.
  - split; [split; reflexivity|discriminate].
  - cbn [first_match count_match].
    pose proof (count_match_bounds d qs (S i) k) as Hb.
    destruct (IH (S i)) as [IH1 IH2].
    destruct (same_desc d (qs !!! i)) eqn:Hm.
    + split; [split; [discriminate|lia]|].
      intros i0 Hi. injection Hi as <-. split; [lia|]. split; [exact Hm|lia].
    + split; [rewrite IH1; split; lia|].
      intros i0 Hi. destruct (IH2 i0 Hi) as (R1 & R2 & R3).
      split; [lia|]. split; [exact R2|lia].
Qed.

Section RemovalResult.
Context `{!target}.

Lemma eventlist_remove_rest_arrays k i dst d ps :
  (dst < i)%nat ->
  let j := last_survivor d (EventList.query_set ps) i k in
  EventList.query_set (EventList.remove_rest k i dst d ps)
    = overwritten (EventList.query_set ps) dst j /\
  EventList.pollset (EventList.remove_rest k i dst d ps)
    = overwritten (EventList.pollset ps) dst j.
Proof.
  revert i ps. induction k as [|k IH]; intros i ps Hlt; cbn zeta; [auto|].
  cbn [EventList.remove_rest last_survivor].
  destruct (same_desc d (EventList.query_set ps !!! i)) eqn:Hm.
  - destruct (IH (S i) (EventList.set_nelts ps (Int.u32 (EventList.nelts ps - 1))))
      as [H1 H2]; [lia|].
    cbn zeta in H1, H2. cbn [EventList.query_set EventList.pollset
                             EventList.set_nelts] in H1, H2.
    rewrite H1, H2.
    destruct (last_survivor d (EventList.query_set ps) (S i) k); auto.
  - cbn [EventList.query_set EventList.pollset EventList.set_pollset
         EventList.set_query_set].
    match goal with
    | |- context [EventList.remove_rest k (S i) dst d ?q] =>
        destruct (IH (S i) q) as [H1 H2]; [lia|]
    end.
    cbn zeta in H1, H2.
    cbn [EventList.query_set EventList.pollset EventList.set_pollset
         EventList.set_query_set] in H1, H2.
    rewrite last_survivor_insert in H1, H2 by lia.
    rewrite H1, H2.
    destruct (last_survivor d (EventList.query_set ps) (S i) k) as [j|] eqn:Hl.
    + pose proof (last_survivor_range _ _ _ _ _ Hl).
      cbn [overwritten].
      rewrite !list_lookup_total_insert_ne by lia.
      rewrite !list_insert_insert_eq. auto.
    + cbn [overwritten]. auto.
Qed.

Lemma bitmap_remove_rest_array k i dst d ps :
  (dst < i)%nat ->
  Bitmap.query_set (Bitmap.remove_rest k i dst d ps)
    = overwritten (Bitmap.query_set ps) dst
        (last_survivor d (Bitmap.query_set ps) i k).
Proof.
  revert i ps. induction k as [|k IH]; intros i ps Hlt; [reflexivity|].
  cbn [Bitmap.remove_rest last_survivor].
  destruct (same_desc d (Bitmap.query_set ps !!! i)) eqn:Hm.
  - rewrite IH by lia. cbn [Bitmap.query_set Bitmap.set_nelts].
    destruct (last_survivor d (Bitmap.query_set ps) (S i) k); reflexivity.
  - rewrite IH by lia. cbn [Bitmap.query_set Bitmap.set_query_set].
    rewrite last_survivor_insert by lia.
    destruct (last_survivor d (Bitmap.query_set ps) (S i) k) as [j|] eqn:Hl.
    + pose proof (last_survivor_range _ _ _ _ _ Hl).
      cbn [overwritten].
      rewrite list_lookup_total_insert_ne by lia.
      rewrite list_insert_insert_eq. reflexivity.
    + reflexivity.
Qed.

Lemma eventlist_remove_from_arrays k i d ps :
  (i + k)%nat = Z.to_nat (EventList.nelts ps) ->
  match first_match d (EventList.query_set ps) i k with
  | None => True
  | Some i0 =>
      let j := last_survivor d (EventList.query_set ps) (S i0)
                 (Z.to_nat (EventList.nelts ps) - S i0) in
      EventList.query_set (snd (EventList.remove_from k i d ps))
        = overwritten (EventList.query_set ps) i0 j /\
      EventList.pollset (snd (EventList.remove_from k i d ps))
        = overwritten (EventList.pollset ps) i0 j
  end.
Proof.
  revert i. induction k as [|k IH]; intros i Hik; [exact I|].
  cbn [first_match EventList.remove_from].
  destruct (same_desc d (EventList.query_set ps !!! i)); [|apply IH; lia].
  cbn [snd].
  apply (eventlist_remove_rest_arrays _ (S i) i d
           (EventList.set_nelts ps (Int.u32 (EventList.nelts ps - 1)))). lia.
Qed.

Lemma bitmap_remove_from_array k i h d ps :
  (i + k)%nat = Z.to_nat (Bitmap.nelts ps) ->
  match first_match d (Bitmap.query_set ps) i k with
  | None => True
  | Some i0 =>
      Bitmap.query_set (snd (Bitmap.remove_from k i h d ps))
        = overwritten (Bitmap.query_set ps) i0
            (last_survivor d (Bitmap.query_set ps) (S i0)
               (Z.to_nat (Bitmap.nelts ps) - S i0))
  end.
Proof.
  revert i. induction k as [|k IH]; intros i Hik; [exact I|].
  cbn [first_match Bitmap.remove_from].
  destruct (same_desc d (Bitmap.query_set ps !!! i)); [|apply IH; lia].
  cbn [snd Bitmap.query_set Bitmap.set_sets].
  apply (bitmap_remove_rest_array _ (S i) i d
           (Bitmap.set_nelts ps (Int.u32 (Bitmap.nelts ps - 1)))). lia.
Qed.

(** X9.  What [apr_pollset_remove] really does to the arrays.  If no
    registered record has the descriptor, it returns [APR_NOTFOUND] and the
    pollset is unchanged.  Otherwise it returns [APR_SUCCESS], lowers
    [nelts] by the number of registered records of the descriptor, and
    writes at most one slot: the slot of the first match receives the last
    registered record of another descriptor behind it (in [query_set] and,
    in the event-list build, in [pollset] too); every other slot keeps its
    content. *)
Theorem remove_result (ps : EventList.apr_pollset_t) (psb : Bitmap.apr_pollset_t)
    (d : apr_pollfd_t) :
  count_inv (EventList.nelts ps) (EventList.nalloc ps) ->
  count_inv (Bitmap.nelts psb) (Bitmap.nalloc psb) ->
  let n := Z.to_nat (EventList.nelts ps) in
  let nb := Z.to_nat (Bitmap.nelts psb) in
  let r := EventList.apr_pollset_remove ps d in
  let rb := Bitmap.apr_pollset_remove psb d in
  match first_match d (EventList.query_set ps) 0 n with
  | None => r = (APR_NOTFOUND, ps)
  | Some i0 =>
      let j := last_survivor d (EventList.query_set ps) (S i0) (n - S i0) in
      fst r = APR_SUCCESS /\
      EventList.nelts (snd r)
        = EventList.nelts ps - matches d (EventList.nelts ps) (EventList.query_set ps) /\
      EventList.query_set (snd r) = overwritten (EventList.query_set ps) i0 j /\
      EventList.pollset (snd r) = overwritten (EventList.pollset ps) i0 j /\
      EventList.result_set (snd r) = EventList.result_set ps
  end /\
  match first_match d (Bitmap.query_set psb) 0 nb with
  | None => rb = (APR_NOTFOUND, psb)
  | Some i0 =>
      let j := last_survivor d (Bitmap.query_set psb) (S i0) (nb - S i0) in
      fst rb = APR_SUCCESS /\
      Bitmap.nelts (snd rb)
        = Bitmap.nelts psb - matches d (Bitmap.nelts psb) (Bitmap.query_set psb) /\
      Bitmap.query_set (snd rb) = overwritten (Bitmap.query_set psb) i0 j /\
      Bitmap.result_set (snd rb) = Bitmap.result_set psb
  end.
Proof.
  intros Hc Hcb. cbn zeta. split.
  - destruct (first_match_count d (EventList.query_set ps) 0
                (Z.to_nat (EventList.nelts ps))) as [F1 F2].
    destruct (eventlist_remove_status ps d Hc) as [S1 S2].
    destruct (eventlist_remove_count ps d Hc) as (_ & _ & _ & Hn). cbn zeta in Hn.
    pose proof (eventlist_remove_from_arrays (Z.to_nat (EventList.nelts ps)) 0 d ps
                  ltac:(lia)) as Harr.
    destruct (eventlist_remove_sizes ps d) as (_ & _ & Hrs).
    destruct (first_match d (EventList.query_set ps) 0 (Z.to_nat (EventList.nelts ps)))
      as [i0|] eqn:Hfm.
    + destruct (F2 i0 eq_refl) as (_ & _ & Hpos). destruct Harr as [A1 A2].
      split; [apply S2; exact Hpos|]. split; [exact Hn|].
      split; [exact A1|]. split; [exact A2|exact Hrs].
    + apply S1. apply F1. reflexivity.
  - destruct (first_match_count d (Bitmap.query_set psb) 0
                (Z.to_nat (Bitmap.nelts psb))) as [F1 F2].
    destruct (bitmap_remove_status psb d Hcb) as [S1 S2].
    destruct (bitmap_remove_count psb d Hcb) as (_ & _ & _ & Hn). cbn zeta in Hn.
    pose proof (bitmap_remove_from_array (Z.to_nat (Bitmap.nelts psb)) 0 (handle d) d psb
                  ltac:(lia)) as Harr.
    destruct (bitmap_remove_sizes psb d) as (_ & Hrs).
    destruct (first_match d (Bitmap.query_set psb) 0 (Z.to_nat (Bitmap.nelts psb)))
      as [i0|] eqn:Hfm.
    + destruct (F2 i0 eq_refl) as (_ & _ & Hpos).
      split; [apply S2; exact Hpos|]. split; [exact Hn|].
      split; [exact Harr|exact Hrs].
    + apply S1. apply F1. reflexivity.
Qed.

End RemovalResult.

Lemma remove_result_witness :
  count_inv 5 5 /\
  EventList.query_set
    (snd (@EventList.apr_pollset_remove unix_target
            (@eventlist_of unix_target 5 [sockA; sockB; sockA; sockC; sockD]) sockA))
    = [sockD; sockB; sockA; sockC; sockD] /\
  @Bitmap.apr_pollset_remove unix_target (@bitmap_of unix_target 2 [sockA; sockB]) sockC
    = (70015, @bitmap_of unix_target 2 [sockA; sockB]).
Proof.
  assert (Hc : count_inv 5 5) by (unfold count_inv; lia).
  assert (Hc2 : count_inv 2 2) by (unfold count_inv; lia).
  pose proof (@remove_result unix_target
                (@eventlist_of unix_target 5 [sockA; sockB; sockA; sockC; sockD])
                (@bitmap_of unix_target 2 [sockA; sockB]) sockA Hc Hc2) as [He _].
  pose proof (@remove_result unix_target
                (@eventlist_of unix_target 5 [sockA; sockB; sockA; sockC; sockD])
                (@bitmap_of unix_target 2 [sockA; sockB]) sockC Hc Hc2) as [_ Hb].
  split; [exact Hc|]. split.
  - exact (proj1 (proj2 (proj2 He))).
  - exact Hb.
Defined.

(** ** Removing the record registered last *)

Lemma count_match_zero d qs i k :
  count_match d qs i k = 0 ->
  forall j, (i <= j < i + k)%nat -> same_desc d (qs !!! j) = false.
Proof.
  revert i. induction k as [|k IH]; intros i Hz j Hj; [lia|].
  cbn [count_match] in Hz.
  pose proof (count_match_bounds d qs (S i) k).
  destruct (same_desc d (qs !!! i)) eqn:Hm; [lia|].
  destruct (decide (j = i)) as [->|Hne]; [exact Hm|].
  apply (IH (S i)); lia.
Qed.

Lemma same_desc_refl d : same_desc d d = true.
Proof. unfold same_desc. apply Z.eqb_refl. Qed.

Lemma count_match_insert_behind d (qs : list apr_pollfd_t) dst x i k :
  (i + k <= dst)%nat -> count_match d (<[dst := x]> qs) i k = count_match d qs i k.
Proof.
  revert i. induction k as [|k IH]; intros i Hle; simpl; [reflexivity|].
  rewrite list_lookup_total_insert_ne by lia. rewrite IH by lia. reflexivity.
Qed.

Section LastIn.
Context `{!target}.

Lemma eventlist_remove_from_last k i d ps :
  (i + S k)%nat = Z.to_nat (EventList.nelts ps) ->
  (forall j, (i <= j < i + k)%nat ->
     same_desc d (EventList.query_set ps !!! j) = false) ->
  same_desc d (EventList.query_set ps !!! (i + k)%nat) = true ->
  EventList.remove_from (S k) i d ps
    = (APR_SUCCESS, EventList.set_nelts ps (Int.u32 (EventList.nelts ps - 1))).
Proof.
  revert i. induction k as [|k IH]; intros i Hik Hno Hyes.
  - cbn [EventList.remove_from]. rewrite Nat.add_0_r in Hyes. rewrite Hyes.
    replace (Z.to_nat (EventList.nelts ps) - S i)%nat with 0%nat by lia.
    reflexivity.
  - cbn [EventList.remove_from]. rewrite (Hno i) by lia.
    apply IH; [lia| |].
    + intros j Hj. apply Hno. lia.
    + replace (S i + k)%nat with (i + S k)%nat by lia. exact Hyes.
Qed.

Lemma bitmap_remove_from_last k i h d ps :
  (i + S k)%nat = Z.to_nat (Bitmap.nelts ps) ->
  (forall j, (i <= j < i + k)%nat ->
     same_desc d (Bitmap.query_set ps !!! j) = false) ->
  same_desc d (Bitmap.query_set ps !!! (i + k)%nat) = true ->
  Bitmap.remove_from (S k) i h d ps
    = (APR_SUCCESS,
       Bitmap.set_sets (Bitmap.set_nelts ps (Int.u32 (Bitmap.nelts ps - 1)))
         (FD_CLR h (Bitmap.readset ps)) (FD_CLR h (Bitmap.writeset ps))
         (FD_CLR h (Bitmap.exceptset ps))
         (if (Int.int h =? Bitmap.maxfd ps) && (0 <? Bitmap.maxfd ps)
          then Int.int (Bitmap.maxfd ps - 1) else Bitmap.maxfd ps)).
Proof.
  revert i. induction k as [|k IH]; intros i Hik Hno Hyes.
  - cbn [Bitmap.remove_from]. rewrite Nat.add_0_r in Hyes. rewrite Hyes.
    replace (Z.to_nat (Bitmap.nelts ps) - S i)%nat with 0%nat by lia.
    reflexivity.
  - cbn [Bitmap.remove_from]. rewrite (Hno i) by lia.
    apply IH; [lia| |].
    + intros j Hj. apply Hno. lia.
    + replace (S i + k)%nat with (i + S k)%nat by lia. exact Hyes.
Qed.

(** X10.  Registering a record and removing it again restores the
    registry.  On a pollset with room that holds no record of the
    descriptor of [d], [apr_pollset_add] followed by [apr_pollset_remove]
    of [d] succeeds, brings [nelts] back and leaves the registered records
    (and, in the event-list build, their native entries) exactly as they
    were.  In the bitmap build this holds for a record with a nonnegative
    handle that, under [WIN32], is a socket; the handle of [d] is then in
    none of the three sets, and every other handle is where it was.  A
    file under [WIN32] is turned away instead: [apr_pollset_add] returns
    [APR_EBADF], the removal finds nothing and returns [APR_NOTFOUND], and
    the count, the registered records, the three sets and [maxfd] are as
    they were. *)
Theorem add_then_remove (ps : EventList.apr_pollset_t) (psb : Bitmap.apr_pollset_t)
    (d : apr_pollfd_t) :
  (eventlist_inv ps -> EventList.nelts ps < EventList.nalloc ps ->
   matches d (EventList.nelts ps) (EventList.query_set ps) = 0 ->
   let r := EventList.apr_pollset_remove (snd (EventList.apr_pollset_add ps d)) d in
   let n := Z.to_nat (EventList.nelts ps) in
   fst r = APR_SUCCESS /\
   EventList.nelts (snd r) = EventList.nelts ps /\
   registered (EventList.nelts (snd r)) (EventList.query_set (snd r))
     = registered (EventList.nelts ps) (EventList.query_set ps) /\
   take n (EventList.pollset (snd r)) = take n (EventList.pollset ps)) /\
  (bitmap_inv psb -> Bitmap.nelts psb < Bitmap.nalloc psb ->
   matches d (Bitmap.nelts psb) (Bitmap.query_set psb) = 0 ->
   (WIN32 = true -> desc_type d = APR_POLL_SOCKET) -> 0 <= des (desc d) ->
   let r := Bitmap.apr_pollset_remove (snd (Bitmap.apr_pollset_add psb d)) d in
   fst r = APR_SUCCESS /\
   Bitmap.nelts (snd r) = Bitmap.nelts psb /\
   registered (Bitmap.nelts (snd r)) (Bitmap.query_set (snd r))
     = registered (Bitmap.nelts psb) (Bitmap.query_set psb) /\
   (forall h,
      FD_ISSET h (Bitmap.readset (snd r))
        = FD_ISSET h (Bitmap.readset psb) && negb (des (desc d) =? h) /\
      FD_ISSET h (Bitmap.writeset (snd r))
        = FD_ISSET h (Bitmap.writeset psb) && negb (des (desc d) =? h) /\
      FD_ISSET h (Bitmap.exceptset (snd r))
        = FD_ISSET h (Bitmap.exceptset psb) && negb (des (desc d) =? h))) /\
  (bitmap_inv psb -> Bitmap.nelts psb < Bitmap.nalloc psb ->
   matches d (Bitmap.nelts psb) (Bitmap.query_set psb) = 0 ->
   WIN32 = true -> desc_type d = APR_POLL_FILE ->
   let a := Bitmap.apr_pollset_add psb d in
   let r := Bitmap.apr_pollset_remove (snd a) d in
   fst a = APR_EBADF /\ fst r = APR_NOTFOUND /\
   Bitmap.nelts (snd r) = Bitmap.nelts psb /\
   registered (Bitmap.nelts (snd r)) (Bitmap.query_set (snd r))
     = registered (Bitmap.nelts psb) (Bitmap.query_set psb) /\
   Bitmap.readset (snd r) = Bitmap.readset psb /\
   Bitmap.writeset (snd r) = Bitmap.writeset psb /\
   Bitmap.exceptset (snd r) = Bitmap.exceptset psb /\
   Bitmap.maxfd (snd r) = Bitmap.maxfd psb).
Proof.
  split; [|split].
  - intros Hinv Hroom Hm. cbn zeta.
    pose proof Hinv as (((Hn0 & Hn) & Ha) & Hp & Hq & _). unfold sized in *.
    destruct (eventlist_add_room ps d Hinv Hroom) as (_ & A2 & A3 & A4 & _).
    cbn zeta in A2, A3, A4.
    set (ps1 := snd (EventList.apr_pollset_add ps d)) in *.
    unfold EventList.apr_pollset_remove.
    replace (Z.to_nat (EventList.nelts ps1)) with (S (Z.to_nat (EventList.nelts ps)))
      by lia.
    rewrite eventlist_remove_from_last.
    + cbn [fst snd EventList.nelts EventList.query_set EventList.pollset
           EventList.set_nelts].
      rewrite A2, A3, A4, u32_small by lia.
      replace (EventList.nelts ps + 1 - 1) with (EventList.nelts ps) by lia.
      unfold registered. rewrite !take_insert_ge by lia. auto.
    + lia.
    + intros j Hj. rewrite A3, list_lookup_total_insert_ne by lia.
      apply (count_match_zero _ _ _ _ Hm). lia.
    + rewrite A3, Nat.add_0_l, list_lookup_total_insert_eq by lia.
      apply same_desc_refl.
  - intros Hinv Hroom Hm Hsock Hpos. cbn zeta.
    pose proof Hinv as (((Hn0 & Hn) & Ha) & Hq & _). unfold sized in *.
    destruct (bitmap_add_room psb d Hinv Hroom Hsock)
      as (_ & A2 & A3 & A4 & A5 & A6 & _).
    cbn zeta in A2, A3, A4, A5, A6.
    set (ps1 := snd (Bitmap.apr_pollset_add psb d)) in *.
    unfold Bitmap.apr_pollset_remove.
    replace (Z.to_nat (Bitmap.nelts ps1)) with (S (Z.to_nat (Bitmap.nelts psb))) by lia.
    assert (Hh : handle d = des (desc d)) by (unfold handle; destruct (desc_type d); reflexivity).
    rewrite bitmap_remove_from_last.
    + cbn [fst snd Bitmap.nelts Bitmap.query_set Bitmap.readset Bitmap.writeset
           Bitmap.exceptset Bitmap.set_nelts Bitmap.set_sets].
      rewrite A2, A3, A4, A5, A6, Hh, u32_small by lia.
      replace (Bitmap.nelts psb + 1 - 1) with (Bitmap.nelts psb) by lia.
      unfold registered. rewrite !take_insert_ge by lia.
      split; [reflexivity|]. split; [reflexivity|]. split; [reflexivity|].
      intros h. unfold FD_CLR, FD_ISSET. rewrite !Z.clearbit_eqb.
      fold (FD_ISSET h (set_if (reqevents d) APR_POLLIN (des (desc d)) (Bitmap.readset psb))).
      fold (FD_ISSET h (set_if (reqevents d) APR_POLLOUT (des (desc d)) (Bitmap.writeset psb))).
      fold (FD_ISSET h (set_if (reqevents d) except_mask (des (desc d)) (Bitmap.exceptset psb))).
      rewrite !set_if_bit by exact Hpos.
      unfold FD_ISSET.
      destruct (des (desc d) =? h); simpl; rewrite ?andb_false_r, ?andb_true_r; auto.
    + lia.
    + intros j Hj. rewrite A3, list_lookup_total_insert_ne by lia.
      apply (count_match_zero _ _ _ _ Hm). lia.
    + rewrite A3, Nat.add_0_l, list_lookup_total_insert_eq by lia.
      apply same_desc_refl.
  - intros Hinv Hroom Hm Hw Hfile. cbn zeta.
    pose proof Hinv as (((Hn0 & Hn) & Ha) & Hq & _). unfold sized in *.
    assert (Hadd : Bitmap.apr_pollset_add psb d
                   = (APR_EBADF,
                      Bitmap.set_query_set psb
                        (<[Z.to_nat (Bitmap.nelts psb) := d]> (Bitmap.query_set psb)))).
    { unfold Bitmap.apr_pollset_add.
      destruct (Z.eqb_spec (Bitmap.nelts psb) (Bitmap.nalloc psb)); [lia|].
      cbn zeta. rewrite (handle_of_file_win32 d Hw Hfile). reflexivity. }
    rewrite Hadd. cbn [fst snd].
    set (ps1 := Bitmap.set_query_set psb _).
    destruct (bitmap_remove_status ps1 d) as [Hnone _].
    { simpl. repeat split; lia. }
    rewrite Hnone.
    + cbn [fst snd]. unfold registered. simpl.
      rewrite take_insert_ge by lia. auto 10.
    + unfold matches. simpl. rewrite count_match_insert_behind by lia. exact Hm.
Qed.

End LastIn.

Lemma add_then_remove_witness :
  eventlist_inv (@eventlist_of unix_target 3 [sockA; sockB]) /\
  matches sockC 2 (EventList.query_set (@eventlist_of unix_target 3 [sockA; sockB])) = 0 /\
  registered 2
    (EventList.query_set
       (snd (@EventList.apr_pollset_remove unix_target
               (snd (@EventList.apr_pollset_add unix_target
                       (@eventlist_of unix_target 3 [sockA; sockB]) sockC)) sockC)))
    = [sockA; sockB] /\
  FD_ISSET 5
    (Bitmap.readset
       (snd (@Bitmap.apr_pollset_remove unix_target
               (snd (@Bitmap.apr_pollset_add unix_target
                       (@bitmap_of unix_target 3 [sockA; sockB]) sockC)) sockC)))
    = false /\
  bitmap_inv win32_empty /\
  fst (@Bitmap.apr_pollset_add win32_target win32_empty fileF) = 9 /\
  fst (@Bitmap.apr_pollset_remove win32_target
         (snd (@Bitmap.apr_pollset_add win32_target win32_empty fileF)) fileF) = 70015.
Proof.
  assert (He : eventlist_inv (@eventlist_of unix_target 3 [sockA; sockB]))
    by concrete_inv.
  assert (Hb : bitmap_inv (@bitmap_of unix_target 3 [sockA; sockB])) by concrete_inv.
  assert (Hw : bitmap_inv win32_empty) by concrete_inv.
  destruct (@add_then_remove unix_target (@eventlist_of unix_target 3 [sockA; sockB])
              (@bitmap_of unix_target 3 [sockA; sockB]) sockC) as (Hev & Hbm & _).
  destruct (@add_then_remove win32_target
              (snd (@EventList.apr_pollset_create win32_target 1 0))
              win32_empty fileF) as (_ & _ & Hfile).
  destruct (Hev He ltac:(vm_compute; reflexivity) eq_refl) as (_ & E2 & E3 & _).
  destruct (Hbm Hb ltac:(vm_compute; reflexivity) eq_refl
              ltac:(intros Hx; discriminate Hx)
              ltac:(vm_compute; discriminate)) as (_ & _ & _ & B4).
  destruct (Hfile Hw ltac:(vm_compute; reflexivity) eq_refl eq_refl eq_refl)
    as (F1 & F2 & _).
  split; [exact He|]. split; [reflexivity|]. split.
  - rewrite E2 in E3. exact E3.
  - split; [destruct (B4 5) as (B5 & _); exact B5|].
    split; [exact Hw|]. split; [exact F1|exact F2].
Defined.

(** ** The sets and the watermark after a removal *)

Section RemoveSets.
Context `{!target}.

Lemma bitmap_remove_from_sets k i h d ps :
  let r := Bitmap.remove_from k i h d ps in
  match first_match d (Bitmap.query_set ps) i k with
  | None => r = (APR_NOTFOUND, ps)
  | Some _ =>
      Bitmap.readset (snd r) = FD_CLR h (Bitmap.readset ps) /\
      Bitmap.writeset (snd r) = FD_CLR h (Bitmap.writeset ps) /\
      Bitmap.exceptset (snd r) = FD_CLR h (Bitmap.exceptset ps) /\
      Bitmap.maxfd (snd r)
        = (if (Int.int h =? Bitmap.maxfd ps) && (0 <? Bitmap.maxfd ps)
           then Int.int (Bitmap.maxfd ps - 1) else Bitmap.maxfd ps)
  end.
Proof.
  cbn zeta. revert i. induction k as [|k IH]; intros i; [reflexivity|].
  cbn [first_match Bitmap.remove_from].
  destruct (same_desc d (Bitmap.query_set ps !!! i)); [|apply IH].
  cbn [snd Bitmap.readset Bitmap.writeset Bitmap.exceptset Bitmap.maxfd Bitmap.set_sets].
  match goal with
  | |- context [Bitmap.remove_rest ?k' (S i) i d ?q] =>
      destruct (bitmap_remove_rest_sizes k' (S i) i d q) as (_ & _ & H3 & H4 & H5 & H6)
  end.
  rewrite H3, H4, H5, H6. auto.
Qed.

(** X11.  A successful [apr_pollset_remove] of the bitmap build takes the
    handle of the descriptor out of the read, the write and the exception
    set and leaves every other handle where it was, whether or not another
    registered record still uses that handle.  The watermark [maxfd] drops
    by exactly one when the handle equals it and it is positive, and stays
    otherwise: it is not recomputed from the records that remain, and it
    never becomes negative. *)
Theorem remove_clears_handle (psb : Bitmap.apr_pollset_t) (d : apr_pollfd_t) :
  count_inv (Bitmap.nelts psb) (Bitmap.nalloc psb) ->
  0 < matches d (Bitmap.nelts psb) (Bitmap.query_set psb) ->
  0 <= Bitmap.maxfd psb < 2 ^ 31 ->
  let r := Bitmap.apr_pollset_remove psb d in
  let h := des (desc d) in
  fst r = APR_SUCCESS /\
  (forall h',
     FD_ISSET h' (Bitmap.readset (snd r))
       = FD_ISSET h' (Bitmap.readset psb) && negb (h =? h') /\
     FD_ISSET h' (Bitmap.writeset (snd r))
       = FD_ISSET h' (Bitmap.writeset psb) && negb (h =? h') /\
     FD_ISSET h' (Bitmap.exceptset (snd r))
       = FD_ISSET h' (Bitmap.exceptset psb) && negb (h =? h')) /\
  (Int.int h = Bitmap.maxfd psb -> 0 < Bitmap.maxfd psb ->
   Bitmap.maxfd (snd r) = Bitmap.maxfd psb - 1) /\
  (Int.int h <> Bitmap.maxfd psb \/ Bitmap.maxfd psb = 0 ->
   Bitmap.maxfd (snd r) = Bitmap.maxfd psb) /\
  0 <= Bitmap.maxfd (snd r).
Proof.
  intros Hc Hm Hmax. cbn zeta.
  destruct (bitmap_remove_status psb d Hc) as [_ Hst].
  destruct (first_match_count d (Bitmap.query_set psb) 0 (Z.to_nat (Bitmap.nelts psb)))
    as [F1 _].
  pose proof (bitmap_remove_from_sets (Z.to_nat (Bitmap.nelts psb)) 0 (handle d) d psb)
    as Hsets. cbn zeta in Hsets.
  destruct (first_match d (Bitmap.query_set psb) 0 (Z.to_nat (Bitmap.nelts psb)))
    as [i0|] eqn:Hfm.
  2: { unfold matches in Hm. rewrite (proj1 F1 eq_refl) in Hm. lia. }
  destruct Hsets as (S1 & S2 & S3 & S4).
  assert (Hh : handle d = des (desc d))
    by (unfold handle; destruct (desc_type d); reflexivity).
  split; [apply Hst, Hm|].
  unfold Bitmap.apr_pollset_remove. rewrite S1, S2, S3, S4, Hh.
  split; [|split; [|split]].
  - intros h'. unfold FD_CLR, FD_ISSET. rewrite !Z.clearbit_eqb. auto.
  - intros He Hpos. rewrite He, Z.eqb_refl.
    destruct (Z.ltb_spec 0 (Bitmap.maxfd psb)); [|lia].
    simpl. apply int_small. lia.
  - intros [Hne|Hz].
    + destruct (Z.eqb_spec (Int.int (des (desc d))) (Bitmap.maxfd psb)); [contradiction|].
      reflexivity.
    + rewrite Hz. rewrite andb_false_r. reflexivity.
  - destruct (Z.eqb_spec (Int.int (des (desc d))) (Bitmap.maxfd psb));
      destruct (Z.ltb_spec 0 (Bitmap.maxfd psb)); simpl; try lia.
    rewrite int_small; lia.
Qed.

End RemoveSets.

Lemma remove_clears_handle_witness :
  count_inv 3 3 /\
  Bitmap.maxfd (@bitmap_of unix_target 3 [sockA; sockC; sockB]) = 5 /\
  Bitmap.maxfd
    (snd (@Bitmap.apr_pollset_remove unix_target
            (@bitmap_of unix_target 3 [sockA; sockC; sockB]) sockC)) = 4 /\
  Bitmap.maxfd
    (snd (@Bitmap.apr_pollset_remove unix_target
            (@bitmap_of unix_target 3 [sockA; sockC; sockD]) sockA)) = 6.
Proof.
  assert (Hc : count_inv 3 3) by (unfold count_inv; lia).
  destruct (@remove_clears_handle unix_target
              (@bitmap_of unix_target 3 [sockA; sockC; sockB]) sockC Hc
              ltac:(vm_compute; reflexivity)
              ltac:(vm_compute; split; [discriminate|reflexivity]))
    as (_ & _ & H3 & _).
  destruct (@remove_clears_handle unix_target
              (@bitmap_of unix_target 3 [sockA; sockC; sockD]) sockA Hc
              ltac:(vm_compute; reflexivity)
              ltac:(vm_compute; split; [discriminate|reflexivity]))
    as (_ & _ & _ & H3' & _).
  split; [exact Hc|]. split; [reflexivity|]. split.
  - exact (H3 eq_refl ltac:(vm_compute; reflexivity)).
  - exact (H3' ltac:(left; vm_compute; discriminate)).
Defined.

(** ** What the native wait is asked after filling a fresh pollset *)

Section FreshRequest.
Context `{!target}.






End FreshRequest.


(** ** The ready records keep the order of the registry *)

Lemma ready_sublist (f : nat -> option apr_pollfd_t) (qs : list apr_pollfd_t) :
  (forall i x, f i = Some x -> forget_rtnevents x = forget_rtnevents (qs !!! i)) ->
  forall k i, (i + k <= length qs)%nat ->
    sublist (map forget_rtnevents (omap f (seq i k)))
            (map forget_rtnevents (take k (drop i qs))).
Proof.
  intros Hf. induction k as [|k IH]; intros i Hlen; [constructor|].
  rewrite omap_seq_S.
  rewrite (drop_S qs (qs !!! i) i) by (apply list_lookup_lookup_total_lt; lia).
  cbn [take map].
  destruct (f i) as [x|] eqn:Hx.
  - cbn [map]. rewrite (Hf i x Hx). apply sublist_skip, IH. lia.
  - apply sublist_cons, IH. lia.
Qed.

Section ReadyOrder.
Context `{!target}.

Lemma eventlist_ready_sublist qs rev n :
  (n <= length qs)%nat ->
  sublist (map forget_rtnevents (eventlist_ready qs rev n))
          (map forget_rtnevents (take n qs)).
Proof.
  intros Hn. unfold eventlist_ready.
  apply (ready_sublist (eventlist_ready_at qs rev) qs); [|simpl; lia].
  intros i x Hx. unfold eventlist_ready_at in Hx.
  destruct (rev i =? 0); [discriminate|]. injection Hx as <-. reflexivity.
Qed.

Lemma bitmap_ready_sublist qs r w e n :
  (n <= length qs)%nat ->
  sublist (map forget_rtnevents (bitmap_ready qs r w e n))
          (map forget_rtnevents (take n qs)).
Proof.
  intros Hn. unfold bitmap_ready.
  apply (ready_sublist (bitmap_ready_at qs r w e) qs); [|simpl; lia].
  intros i x Hx. unfold bitmap_ready_at in Hx. cbv zeta in Hx.
  destruct (_ || _) in Hx; [|discriminate]. injection Hx as <-. reflexivity.
Qed.

Lemma bitmap_ready_length qs r w e (l : list nat) :
  length (omap (bitmap_ready_at qs r w e) l)
    = length (filter (fun i => let h := des (desc (qs !!! i)) in
                               FD_ISSET h r || FD_ISSET h w || FD_ISSET h e = true) l).
Proof.
  induction l as [|a l IH]; [reflexivity|].
  rewrite filter_cons. cbn [omap list_omap]. unfold bitmap_ready_at at 1.
  cbv zeta.
  destruct (FD_ISSET (des (desc (qs !!! a))) r || FD_ISSET (des (desc (qs !!! a))) w
            || FD_ISSET (des (desc (qs !!! a))) e) eqn:Hb.
  - rewrite decide_True by reflexivity. cbn [length]. f_equal. exact IH.
  - rewrite decide_False by discriminate. exact IH.
Qed.

(** X13.  The records [apr_pollset_poll] returns are registered records, in
    registration order.  After a positive return of the native wait the
    call succeeds and [result_set] is [ready] followed by the slots it had
    behind that many: [ready] holds, for every registered slot whose native
    result is not zero (event-list build) or whose handle is in one of the
    three sets [select] left (bitmap build), in the order of the slots, the
    registered record with its new [rtnevents].  Taken without [rtnevents],
    [ready] is a subsequence of the registered records taken without
    theirs: no record is invented, none is reported twice unless it is
    registered twice, none comes before a record registered earlier, and at
    most [nelts] slots are filled.  The pollsets have the shape the
    operations keep, and in the bitmap build under [WIN32] the registered
    records are sockets. *)
Theorem ready_in_registration_order (ps : EventList.apr_pollset_t)
    (psb : Bitmap.apr_pollset_t) (timeout : Z) :
  eventlist_inv ps -> bitmap_inv psb ->
  sockets_only (registered (Bitmap.nelts psb) (Bitmap.query_set psb)) ->
  (exists fds t k,
     EventList.apr_pollset_poll ps timeout = CallPoll fds (EventList.nelts ps) t k /\
     forall ans, 0 < poll_rv ans ->
       let n := Z.to_nat (EventList.nelts ps) in
       let ready := eventlist_ready (EventList.query_set ps) (poll_revents ans) n in
       exists ps',
         k ans = Return (APR_SUCCESS, poll_rv ans, Some (EventList.result_set ps'), ps') /\
         EventList.result_set ps'
           = ready ++ drop (length ready) (EventList.result_set ps) /\
         length ready
           = length (filter (fun i => poll_revents ans i <> 0) (seq 0 n)) /\
         sublist (map forget_rtnevents ready)
           (map forget_rtnevents
              (registered (EventList.nelts ps) (EventList.query_set ps))) /\
         (length ready <= n)%nat) /\
  (exists pipe nfds r w e tv k,
     Bitmap.apr_pollset_poll psb timeout = CallSelect pipe nfds r w e tv k /\
     forall ans, 0 < select_rv ans ->
       let n := Z.to_nat (Bitmap.nelts psb) in
       let ready := bitmap_ready (Bitmap.query_set psb) (select_read ans)
                      (select_write ans) (select_except ans) n in
       exists ps',
         k ans = Return (APR_SUCCESS, select_rv ans, None, ps') /\
         Bitmap.result_set ps'
           = ready ++ drop (length ready) (Bitmap.result_set psb) /\
         length ready
           = length (filter
                       (fun i => let h := des (desc (Bitmap.query_set psb !!! i)) in
                                 FD_ISSET h (select_read ans)
                                 || FD_ISSET h (select_write ans)
                                 || FD_ISSET h (select_except ans) = true)
                       (seq 0 n)) /\
         sublist (map forget_rtnevents ready)
           (map forget_rtnevents
              (registered (Bitmap.nelts psb) (Bitmap.query_set psb))) /\
         (length ready <= n)%nat).
Proof.
  intros He Hb Hs. split.
  - destruct (ready_subset ps psb timeout He Hb Hs)
      as [(fds & t & k & Hk & Hans) _].
    exists fds, t, k. split; [exact Hk|].
    intros ans Hrv. cbn zeta. destruct (Hans ans Hrv) as (ps' & Hret & Hrs & _).
    destruct He as (((Hn0 & Hn) & Ha) & _ & Hq & _). unfold sized in Hq.
    pose proof (eventlist_ready_sublist (EventList.query_set ps) (poll_revents ans)
                  (Z.to_nat (EventList.nelts ps)) ltac:(lia)) as Hsub.
    exists ps'. split; [exact Hret|]. split; [exact Hrs|].
    split; [apply eventlist_ready_length|]. split; [exact Hsub|].
    apply sublist_length in Hsub. rewrite !length_map, length_take in Hsub. lia.
  - destruct (bitmap_pollset_poll_ready psb timeout Hb Hs)
      as (pipe & nfds & r & w & e & tv & k & Hk & Hans).
    exists pipe, nfds, r, w, e, tv, k. split; [exact Hk|].
    intros ans Hrv. cbn zeta. destruct (Hans ans Hrv) as (ps' & Hret & Hrs & _).
    destruct Hb as (((Hn0 & Hn) & Ha) & Hq & _). unfold sized in Hq.
    pose proof (bitmap_ready_sublist (Bitmap.query_set psb) (select_read ans)
                  (select_write ans) (select_except ans)
                  (Z.to_nat (Bitmap.nelts psb)) ltac:(lia)) as Hsub.
    exists ps'. split; [exact Hret|]. split; [exact Hrs|].
    split; [apply bitmap_ready_length|]. split; [exact Hsub|].
    apply sublist_length in Hsub. rewrite !length_map, length_take in Hsub. lia.
Qed.

End ReadyOrder.

Lemma ready_in_registration_order_witness :
  eventlist_inv (@eventlist_of unix_target 3 [sockA; sockB; sockC]) /\
  exists fds t k ps',
    @EventList.apr_pollset_poll unix_target
      (@eventlist_of unix_target 3 [sockA; sockB; sockC]) (-1) = CallPoll fds 3 t k /\
    k first_and_third = Return (0, 2, Some (EventList.result_set ps'), ps') /\
    EventList.result_set ps'
      = [set_rtnevents sockA 1; set_rtnevents sockC 1; fresh_pollfd_t] /\
    sublist (map forget_rtnevents [set_rtnevents sockA 1; set_rtnevents sockC 1])
      (map forget_rtnevents [sockA; sockB; sockC]).
Proof.
  assert (He : eventlist_inv (@eventlist_of unix_target 3 [sockA; sockB; sockC]))
    by concrete_inv.
  assert (Hb : bitmap_inv (@bitmap_of unix_target 3 [sockA; sockB; sockC]))
    by concrete_inv.
  assert (Hs : @sockets_only unix_target
                 (registered (Bitmap.nelts (@bitmap_of unix_target 3 [sockA; sockB; sockC]))
                    (Bitmap.query_set (@bitmap_of unix_target 3 [sockA; sockB; sockC])))).
  { intros Hw. discriminate Hw. }
  split; [exact He|].
  destruct (@ready_in_registration_order unix_target _ _ (-1) He Hb Hs)
    as [(fds & t & k & Hk & Hans) _].
  destruct (Hans first_and_third ltac:(simpl; lia))
    as (ps' & Hret & Hrs & _ & Hsub & _).
  exists fds, t, k, ps'.
  split; [exact Hk|]. split; [exact Hret|]. split; [exact Hrs|exact Hsub].
Defined.

(** ** Further invariants of the registry *)

Section PollKeeps.
Context `{!target}.

Lemma bitmap_collect_sets k i j r w e ps :
  let q := snd (Bitmap.collect k i j r w e ps) in
  Bitmap.readset q = Bitmap.readset ps /\
  Bitmap.writeset q = Bitmap.writeset ps /\
  Bitmap.exceptset q = Bitmap.exceptset ps /\
  Bitmap.maxfd q = Bitmap.maxfd ps.
Proof.
  cbn zeta. revert i j ps. induction k as [|k IH]; intros i j ps; [auto|].
  cbn [Bitmap.collect]. destruct (Bitmap.handle_of _); [auto|].
  destruct (_ || _); [|apply IH].
  match goal with
  | |- context [Bitmap.collect k (S i) (S j) r w e ?q] =>
      destruct (IH (S i) (S j) q) as (H1 & H2 & H3 & H4)
  end.
  rewrite H1, H2, H3, H4. auto.
Qed.

(** X14.  [apr_pollset_poll] does not disturb the registry, whatever the
    native call answers.  In the event-list build [nelts] and [query_set]
    stay as they were and every slot of [pollset] keeps its handle and
    requested events (only [revents] is written).  In the bitmap build
    [nelts], [query_set], the three persistent sets and [maxfd] stay as they
    were: [select] works on copies. *)
Theorem poll_keeps_registry (sys : os) (ps : EventList.apr_pollset_t)
    (psb : Bitmap.apr_pollset_t) (timeout : Z) :
  (let q := snd (run sys (EventList.apr_pollset_poll ps timeout)) in
   EventList.nelts q = EventList.nelts ps /\
   EventList.query_set q = EventList.query_set ps /\
   map (fun s => (fd s, events s)) (EventList.pollset q)
     = map (fun s => (fd s, events s)) (EventList.pollset ps)) /\
  (let q := snd (run sys (Bitmap.apr_pollset_poll psb timeout)) in
   Bitmap.nelts q = Bitmap.nelts psb /\
   Bitmap.query_set q = Bitmap.query_set psb /\
   Bitmap.readset q = Bitmap.readset psb /\
   Bitmap.writeset q = Bitmap.writeset psb /\
   Bitmap.exceptset q = Bitmap.exceptset psb /\
   Bitmap.maxfd q = Bitmap.maxfd psb).
Proof.
  split.
  - destruct (eventlist_poll_count sys ps timeout) as [E1 _]. cbn zeta in *.
    split; [exact E1|].
    assert (Hmap : forall ans n (l : list pollfd),
              map (fun s => (fd s, events s)) (EventList.after_poll ans n l)
                = map (fun s => (fd s, events s)) l).
    { intros ans n l. unfold EventList.after_poll.
      generalize (poll_revents ans) as g. generalize 0%nat as base.
      assert (Hgen : forall (f : nat -> pollfd -> pollfd),
                (forall i s, fd (f i s) = fd s /\ events (f i s) = events s) ->
                map (fun s => (fd s, events s)) (imap f l)
                  = map (fun s => (fd s, events s)) l).
      { induction l as [|s l IH]; intros f Hf; [reflexivity|].
        simpl. destruct (Hf 0%nat s) as [-> ->]. f_equal.
        apply IH. intros i s'. apply Hf. }
      intros _ g. apply Hgen. intros i s. destruct (_ <? _); auto. }
    simpl. destruct (_ <? 0); [|destruct (_ =? 0)]; cbn [snd run].
    3: match goal with
       | |- context [EventList.collect ?k ?a ?b ?q] =>
           destruct (eventlist_collect_frame k a b q) as (_ & _ & F3 & F4);
           rewrite F3, F4
       end.
    all: cbn [EventList.pollset EventList.query_set EventList.set_pollset].
    all: split; [reflexivity|apply Hmap].
  - destruct (bitmap_poll_count sys psb timeout) as [E1 _]. cbn zeta in *.
    split; [exact E1|].
    simpl. destruct (_ <? 0); [repeat split|]. destruct (_ =? 0); [repeat split|].
    match goal with
    | |- context [Bitmap.collect ?k ?i ?j ?r ?w ?e psb] =>
        destruct (bitmap_collect_query_set k i j r w e psb) as (F1 & _);
        destruct (bitmap_collect_sets k i j r w e psb) as (F2 & F3 & F4 & F5);
        destruct (Bitmap.collect k i j r w e psb) as [[[st|] j'] q]
    end; simpl in *; auto.
Qed.

(** X15.  Under [WIN32] the registry of the bitmap build never holds a
    file.  A pollset from [apr_pollset_create] has no registered record;
    [apr_pollset_add] registers a record only if it is a socket (a file is
    stored past the registered slots and not counted); and
    [apr_pollset_remove] leaves registered only records that were
    registered before it, so any property all registered records have is
    kept by a removal. *)
Theorem win32_registry (psb : Bitmap.apr_pollset_t) (d : apr_pollfd_t)
    (size p : Z) (P : apr_pollfd_t -> Prop) :
  (let c := snd (Bitmap.apr_pollset_create size p) in
   sockets_only (registered (Bitmap.nelts c) (Bitmap.query_set c))) /\
  (bitmap_inv psb ->
   sockets_only (registered (Bitmap.nelts psb) (Bitmap.query_set psb)) ->
   (let a := snd (Bitmap.apr_pollset_add psb d) in
    sockets_only (registered (Bitmap.nelts a) (Bitmap.query_set a))) /\
   (let r := snd (Bitmap.apr_pollset_remove psb d) in
    sockets_only (registered (Bitmap.nelts r) (Bitmap.query_set r)))) /\
  (bitmap_inv psb ->
   Forall P (registered (Bitmap.nelts psb) (Bitmap.query_set psb)) ->
   let r := snd (Bitmap.apr_pollset_remove psb d) in
   Forall P (registered (Bitmap.nelts r) (Bitmap.query_set r))).
Proof.
  split; [apply bitmap_create_sockets_only|]. split.
  - intros Hinv Hs. split.
    + apply bitmap_add_sockets_only; assumption.
    + apply bitmap_remove_sockets_only; assumption.
  - intros Hinv HP. apply bitmap_remove_keeps; assumption.
Qed.

End PollKeeps.

Lemma win32_registry_witness :
  bitmap_inv win32_full /\
  @sockets_only win32_target (registered (Bitmap.nelts win32_full)
                                (Bitmap.query_set win32_full)) /\
  @sockets_only win32_target
    (registered
       (Bitmap.nelts (snd (@Bitmap.apr_pollset_add win32_target win32_empty fileF)))
       (Bitmap.query_set (snd (@Bitmap.apr_pollset_add win32_target win32_empty fileF)))).
Proof.
  assert (Hf : bitmap_inv win32_full) by concrete_inv.
  assert (He : bitmap_inv win32_empty) by concrete_inv.
  assert (Hs : @sockets_only win32_target
                 (registered (Bitmap.nelts win32_full) (Bitmap.query_set win32_full))).
  { intros _. repeat constructor. }
  assert (Hs0 : @sockets_only win32_target
                  (registered (Bitmap.nelts win32_empty) (Bitmap.query_set win32_empty))).
  { intros _. constructor. }
  split; [exact Hf|]. split; [exact Hs|].
  destruct (@win32_registry win32_target win32_empty fileF 1 0 (fun _ => True))
    as (_ & Hstep & _).
  exact (proj1 (Hstep He Hs0)).
Defined.

(** ** The status of a wait *)

Section WaitStatus.
Context `{!target}.

(** X21.  The status of a wait follows the return value of the native call,
    and the count reported is that value itself.  Both builds, [apr_poll]
    and [apr_pollset_poll] alike, issue the native wait and, whatever it
    answers, return [errno] for a negative return value, [APR_TIMEUP] for
    zero and [APR_SUCCESS] for a positive one, with the return value of the
    native call stored in [*nsds] or [*num].  In the bitmap build under
    [WIN32] this holds on arrays and registries of sockets. *)
Theorem wait_status (aprset : list apr_pollfd_t) (ps : EventList.apr_pollset_t)
    (psb : Bitmap.apr_pollset_t) (timeout : Z) :
  (exists fds nfds t k,
     EventList.apr_poll aprset timeout = CallPoll fds nfds t k /\
     forall ans, exists status nsds aprset',
       k ans = Return (status, nsds, aprset') /\
       wait_outcome (poll_rv ans) (poll_errno ans) status nsds) /\
  (exists fds nfds t k,
     EventList.apr_pollset_poll ps timeout = CallPoll fds nfds t k /\
     forall ans, exists status num descriptors ps',
       k ans = Return (status, num, descriptors, ps') /\
       wait_outcome (poll_rv ans) (poll_errno ans) status num) /\
  (sockets_only aprset ->
   exists pipe nfds r w e tv k,
     Bitmap.apr_poll aprset timeout = CallSelect pipe nfds r w e tv k /\
     forall ans, exists status nsds aprset',
       k ans = Return (status, Some nsds, aprset') /\
       wait_outcome (select_rv ans) (select_errno ans) status nsds) /\
  (sockets_only (registered (Bitmap.nelts psb) (Bitmap.query_set psb)) ->
   exists pipe nfds r w e tv k,
     Bitmap.apr_pollset_poll psb timeout = CallSelect pipe nfds r w e tv k /\
     forall ans, exists status num descriptors ps',
       k ans = Return (status, num, descriptors, ps') /\
       wait_outcome (select_rv ans) (select_errno ans) status num).
Proof.
  split; [|split; [|split]].
  - eexists _, _, _, _. split; [reflexivity|].
    intros ans. cbn beta zeta.
    pose proof (wait_outcome_intro (poll_rv ans) (poll_errno ans)) as Hout.
    destruct (poll_rv ans <? 0); [eexists _, _, _; split; [reflexivity|exact Hout]|].
    destruct (poll_rv ans =? 0); eexists _, _, _; (split; [reflexivity|exact Hout]).
  - eexists _, _, _, _. split; [reflexivity|].
    intros ans. cbn beta zeta.
    pose proof (wait_outcome_intro (poll_rv ans) (poll_errno ans)) as Hout.
    destruct (poll_rv ans <? 0); [eexists _, _, _, _; split; [reflexivity|exact Hout]|].
    destruct (poll_rv ans =? 0); eexists _, _, _, _; (split; [reflexivity|exact Hout]).
  - intros Hs. unfold Bitmap.apr_poll.
    destruct (fill_sockets_only aprset
                (Bitmap.mk_request FD_ZERO FD_ZERO FD_ZERO (-1) false) Hs)
      as [rq Hfill].
    rewrite Hfill. eexists _, _, _, _, _, _, _. split; [reflexivity|].
    intros ans. cbn beta zeta.
    pose proof (wait_outcome_intro (select_rv ans) (select_errno ans)) as Hout.
    destruct (Z.eqb_spec (select_rv ans) 0) as [H0|H0].
    + eexists _, _, _. split; [reflexivity|].
      rewrite H0 in *. exact Hout.
    + destruct (select_rv ans <? 0); [eexists _, _, _; split; [reflexivity|exact Hout]|].
      pose proof (read_back_complete aprset (select_read ans) (select_write ans)
                    (select_except ans) (fill_handles _ _ _ Hfill)) as Hrb.
      destruct (Bitmap.read_back aprset _ _ _) as [st l']. simpl in Hrb. subst st.
      eexists _, _, _. split; [reflexivity|exact Hout].
  - intros Hsock. eexists _, _, _, _, _, _, _. split; [reflexivity|].
    intros ans. cbn beta zeta.
    pose proof (wait_outcome_intro (select_rv ans) (select_errno ans)) as Hout.
    destruct (select_rv ans <? 0); [eexists _, _, _, _; split; [reflexivity|exact Hout]|].
    destruct (select_rv ans =? 0); [eexists _, _, _, _; split; [reflexivity|exact Hout]|].
    pose proof (bitmap_collect_complete (Z.to_nat (Bitmap.nelts psb)) 0 0
                  (select_read ans) (select_write ans) (select_except ans) psb) as Hc.
    destruct (Bitmap.collect _ 0%nat 0%nat _ _ _ psb) as [[st j] ps'].
    simpl in Hc. rewrite Hc.
    + eexists _, _, _, _. split; [reflexivity|exact Hout].
    + intros i' Hi'. eexists. apply (sockets_only_handle _ _ _ Hsock). lia.
Qed.

End WaitStatus.

Lemma wait_status_witness :
  @sockets_only win32_target [sockA] /\
  @sockets_only win32_target (registered 1 [sockA]) /\
  (exists pipe nfds r w e tv k,
     @Bitmap.apr_poll win32_target [sockA] 0 = CallSelect pipe nfds r w e tv k /\
     forall ans, exists status nsds aprset',
       k ans = Return (status, Some nsds, aprset') /\
       @wait_outcome win32_target (select_rv ans) (select_errno ans) status nsds) /\
  (exists pipe nfds r w e tv k,
     @Bitmap.apr_pollset_poll win32_target win32_full 0 = CallSelect pipe nfds r w e tv k /\
     forall ans, exists status num descriptors ps',
       k ans = Return (status, num, descriptors, ps') /\
       @wait_outcome win32_target (select_rv ans) (select_errno ans) status num).
Proof.
  assert (Hs : @sockets_only win32_target [sockA]).
  { intros _. repeat constructor. }
  assert (Hr : @sockets_only win32_target (registered 1 [sockA])).
  { intros _. repeat constructor. }
  destruct (@wait_status win32_target [sockA]
              (snd (@EventList.apr_pollset_create win32_target 1 0)) win32_full 0)
    as (_ & _ & H3 & H4).
  split; [exact Hs|]. split; [exact Hr|]. split; [exact (H3 Hs)|exact (H4 Hr)].
Defined.

(** * Properties of thread.c *)

Section ThreadAttr.
Context `{!Thread.consts}.

(** X16.  The detach attribute reads back as detached only for the value
    one.  [apr_threadattr_detach_set] stores whatever it is given and
    succeeds; [apr_threadattr_detach_get] then answers [APR_DETACH] if the
    value was 1 and [APR_NOTDETACH] for every other value, zero or not.  A
    freshly created attribute is not detached and has the default stack
    size; setting the stack size or the guard size (which is refused with
    [APR_ENOTIMPL]) does not change the answer. *)
Theorem detach_attribute (attr : Thread.apr_threadattr_t) (on size p : Z) :
  let set := Thread.apr_threadattr_detach_set attr on in
  fst set = Thread.APR_SUCCESS /\
  (on = 1 -> Thread.apr_threadattr_detach_get (snd set) = Thread.APR_DETACH) /\
  (on <> 1 -> Thread.apr_threadattr_detach_get (snd set) = Thread.APR_NOTDETACH) /\
  Thread.stack_size (snd set) = Thread.stack_size attr /\
  (exists a, Thread.apr_threadattr_create true p = (Thread.APR_SUCCESS, Some a) /\
     Thread.apr_threadattr_detach_get a = Thread.APR_NOTDETACH /\
     Thread.stack_size a = Thread.APR_DEFAULT_STACK_SIZE) /\
  Thread.apr_threadattr_create false p = (Thread.APR_ENOMEM, None) /\
  Thread.apr_threadattr_detach_get (snd (Thread.apr_threadattr_stacksize_set attr size))
    = Thread.apr_threadattr_detach_get attr /\
  Thread.apr_threadattr_guardsize_set attr size = (Thread.APR_ENOTIMPL, attr).
Proof.
  cbn zeta. split; [reflexivity|]. split; [|split].
  - intros ->. reflexivity.
  - intros Hne. unfold Thread.apr_threadattr_detach_get. simpl.
    destruct (Z.eqb_spec on 1); [contradiction|reflexivity].
  - split; [reflexivity|]. split; [eexists; repeat split|].
    split; [reflexivity|]. split; reflexivity.
Qed.

(** X17.  Detaching and joining exclude each other.  [apr_thread_detach]
    succeeds once on a joinable thread and marks it detached; on a detached
    thread it returns [APR_EINVAL] and changes nothing.  [apr_thread_join]
    on a detached thread returns [APR_EINVAL] without calling
    [NXThreadJoin] and without touching the pool.  On a joinable thread it
    calls [NXThreadJoin] once: for the answer zero it hands out the stored
    exit value and then destroys the thread's pool; for any other answer it
    returns that answer, assigns no exit value and leaves the pool. *)
Theorem detach_and_join (thd : Thread.apr_thread_t) (join : Z -> Z) :
  (Thread.detached thd = 0 ->
   fst (Thread.apr_thread_detach thd) = Thread.APR_SUCCESS /\
   Thread.apr_thread_detach (snd (Thread.apr_thread_detach thd))
     = (Thread.APR_EINVAL, snd (Thread.apr_thread_detach thd)) /\
   Thread.apr_thread_join join (snd (Thread.apr_thread_detach thd))
     = (Thread.APR_EINVAL, None, [])) /\
  (Thread.detached thd <> 0 ->
   Thread.apr_thread_detach thd = (Thread.APR_EINVAL, thd) /\
   Thread.apr_thread_join join thd = (Thread.APR_EINVAL, None, [])) /\
  (Thread.detached thd = 0 -> join (Thread.td thd) = 0 ->
   Thread.apr_thread_join join thd
     = (Thread.APR_SUCCESS, Some (Thread.exitval thd),
        [Thread.NXThreadJoin (Thread.td thd);
         Thread.apr_pool_destroy (Thread.pool thd)])) /\
  (Thread.detached thd = 0 -> join (Thread.td thd) <> 0 ->
   Thread.apr_thread_join join thd
     = (join (Thread.td thd), None, [Thread.NXThreadJoin (Thread.td thd)])).
Proof.
  unfold Thread.apr_thread_detach, Thread.apr_thread_join.
  split; [|split; [|split]].
  - intros ->. simpl. auto.
  - intros Hd. destruct (Z.eqb_spec (Thread.detached thd) 0); [contradiction|auto].
  - intros -> ->. reflexivity.
  - intros -> Hj. simpl.
    destruct (Z.eqb_spec (join (Thread.td thd)) 0); [contradiction|reflexivity].
Qed.

(** X18.  A thread's exit value reaches the joiner, and the thread's pool is
    destroyed exactly once.  After [apr_thread_exit] with [retval], a
    successful [apr_thread_join] of a joinable thread hands out [retval],
    and of the two calls only the join destroys the pool; for a detached
    thread the exit destroys it and the join, refused, does not.  If
    [NXThreadJoin] fails for a joinable thread the pool is not destroyed at
    all. *)
Theorem exit_then_join (thd : Thread.apr_thread_t) (retval : Z) (join : Z -> Z) :
  let ex := Thread.apr_thread_exit thd retval in
  let jn := Thread.apr_thread_join join (fst ex) in
  let made := snd ex ++ snd jn in
  (Thread.detached thd = 0 -> join (Thread.td thd) = 0 ->
   fst jn = (Thread.APR_SUCCESS, Some retval) /\
   destroys (Thread.pool thd) (snd ex) = 0%nat /\
   destroys (Thread.pool thd) made = 1%nat) /\
  (Thread.detached thd <> 0 ->
   fst jn = (Thread.APR_EINVAL, None) /\
   destroys (Thread.pool thd) made = 1%nat) /\
  (Thread.detached thd = 0 -> join (Thread.td thd) <> 0 ->
   fst jn = (join (Thread.td thd), None) /\
   destroys (Thread.pool thd) made = 0%nat).
Proof.
  cbn zeta. unfold Thread.apr_thread_exit, Thread.apr_thread_join, destroys.
  cbn [fst snd Thread.detached Thread.td Thread.pool Thread.exitval Thread.set_exitval].
  split; [|split].
  - intros -> ->. simpl. rewrite Z.eqb_refl. auto.
  - intros Hd. destruct (Z.eqb_spec (Thread.detached thd) 0); [contradiction|].
    simpl. rewrite Z.eqb_refl. auto.
  - intros -> Hj. simpl.
    destruct (Z.eqb_spec (join (Thread.td thd)) 0); [contradiction|]. auto.
Qed.

Lemma once_times_done {W : Type} n control (func : W -> W) w :
  Thread.value control <> 0 ->
  once_times n control func w
    = (Thread.mk_once (match n with O => Thread.value control | S _ => 1 end), w).
Proof.
  revert control. induction n as [|n IH]; intros control Hv.
  - destruct control. reflexivity.
  - cbn [once_times]. unfold Thread.apr_thread_once.
    destruct (Z.eqb_spec (Thread.value control) 0); [contradiction|].
    rewrite IH by (simpl; lia). destruct n; reflexivity.
Qed.

(** X19.  [apr_thread_once] runs its function exactly once per control.
    Called any positive number of times, one after the other, on a control
    from [apr_thread_once_init], the function has run once, by the first
    call; every call returns [APR_SUCCESS]; and on a control whose word is
    not zero the function never runs. *)
Theorem once_runs_once {W : Type} (n : nat) (p : Z) (func : W -> W) (w : W)
    (control : Thread.apr_thread_once_t) :
  once_times (S n) (snd (Thread.apr_thread_once_init p)) func w
    = (Thread.mk_once 1, func w) /\
  fst (fst (Thread.apr_thread_once control func w)) = Thread.APR_SUCCESS /\
  (Thread.value control <> 0 ->
   forall m, snd (once_times m control func w) = w).
Proof.
  split; [|split].
  - cbn [once_times]. unfold Thread.apr_thread_once. simpl.
    rewrite once_times_done by (simpl; lia). destruct n; reflexivity.
  - unfold Thread.apr_thread_once. destruct (_ =? 0); reflexivity.
  - intros Hv m. rewrite once_times_done by exact Hv. reflexivity.
Qed.

(** X20.  [apr_os_thread_put] then [apr_os_thread_get] gives back the
    thread id.  Without a pool, put returns [APR_ENOPOOL] and leaves [*thd]
    alone; with one it succeeds, keeps every other member of an existing
    record, and gives a new record the pool.  Get on a null thread returns
    [APR_ENOTHREAD]. *)
Theorem os_thread_put_get (fresh : Thread.apr_thread_t)
    (thd : option Thread.apr_thread_t) (tid p : Z) :
  Thread.apr_os_thread_put fresh thd tid None = (Thread.APR_ENOPOOL, thd) /\
  (let r := Thread.apr_os_thread_put fresh thd tid (Some p) in
   fst r = Thread.APR_SUCCESS /\
   Thread.apr_os_thread_get (snd r) = (Thread.APR_SUCCESS, Some tid) /\
   (forall t, thd = Some t -> snd r = Some (Thread.set_td t tid)) /\
   (thd = None -> exists t, snd r = Some t /\ Thread.pool t = p)) /\
  Thread.apr_os_thread_get None = (Thread.APR_ENOTHREAD, None).
Proof.
  split; [reflexivity|]. split; [|reflexivity].
  cbn zeta. split; [reflexivity|]. split; [reflexivity|]. split.
  - intros t ->. reflexivity.
  - intros ->. eexists. split; reflexivity.
Qed.

End ThreadAttr.

Lemma detach_and_join_witness :
  Thread.detached joinable_thread = 0 /\
  @Thread.apr_thread_join netware_consts (fun _ => 0)
    (snd (@Thread.apr_thread_detach netware_consts joinable_thread))
    = (22, None, []) /\
  @Thread.apr_thread_join netware_consts (fun _ => 0) joinable_thread
    = (0, Some (-1), [Thread.NXThreadJoin 7; Thread.apr_pool_destroy 500]).
Proof.
  destruct (@detach_and_join netware_consts joinable_thread (fun _ => 0))
    as (H1 & _ & H3 & _).
  split; [reflexivity|]. split.
  - exact (proj2 (proj2 (H1 eq_refl))).
  - exact (H3 eq_refl eq_refl).
Defined.

Lemma exit_then_join_witness :
  Thread.detached joinable_thread = 0 /\
  fst (@Thread.apr_thread_join netware_consts (fun _ => 0)
         (fst (Thread.apr_thread_exit joinable_thread 42)))
    = (0, Some 42).
Proof.
  destruct (@exit_then_join netware_consts joinable_thread 42 (fun _ => 0))
    as (H1 & _).
  split; [reflexivity|]. exact (proj1 (H1 eq_refl eq_refl)).
Defined.

Lemma detach_attribute_witness :
  @Thread.apr_threadattr_detach_get netware_consts
    (snd (@Thread.apr_threadattr_detach_set netware_consts
            (Thread.mk_attr 500 65536 0 None) 1)) = 70010 /\
  @Thread.apr_threadattr_detach_get netware_consts
    (snd (@Thread.apr_threadattr_detach_set netware_consts
            (Thread.mk_attr 500 65536 0 None) 2)) = 70011.
Proof.
  destruct (@detach_attribute netware_consts (Thread.mk_attr 500 65536 0 None) 1 0 0)
    as (_ & H1 & _).
  destruct (@detach_attribute netware_consts (Thread.mk_attr 500 65536 0 None) 2 0 0)
    as (_ & _ & H2 & _).
  split; [exact (H1 eq_refl)|exact (H2 ltac:(lia))].
Defined.

Lemma once_runs_once_witness :
  @once_times netware_consts Z 3 (Thread.mk_once 0) Z.succ 10 = (Thread.mk_once 1, 11) /\
  snd (@once_times netware_consts Z 3 (Thread.mk_once 1) Z.succ 10) = 10.
Proof.
  destruct (@once_runs_once netware_consts Z 2 0 Z.succ 10 (Thread.mk_once 1))
    as (H1 & _ & H3).
  split; [exact H1|]. apply H3. simpl. lia.
Defined.
